(** * Habit tracker: the persisted document and its derivation functions

    A shallow embedding of [main.js]: the storage functions [load] and [save],
    the date helpers [startOfWeek] and [weekKey], the handlers of
    [wireHomeInteractions] (the form that adds a habit, the check boxes, the
    delete buttons, the reset button), the rows of [renderHome], the week
    and month buttons, [dayCounts], the data loop of [renderWeeklyChart],
    the cells of [renderCalendar], and the helpers [fmtMDY], [clamp01],
    [uid] and [throttle], together with the parts of the platform they
    call: the [Date] object, [JSON], [localStorage] and timers.

    Conventions of the embedding.
    - A JavaScript string is the list of its UTF-16 code units ([list N]).
    - A [Date] is its time value, an integer number of milliseconds since the
      epoch ([Z]); an Invalid Date is [None]. The Date functions come in two
      layers. Section [Platform] has them for a time zone with one offset
      [LocalTZA] at all times, as the time values the methods compute
      before [TimeClip]: they are the values of the Date object as long as
      these stay within 8.64e15 milliseconds of the epoch. Module [zone] has
      the methods as the Date object has them, for an offset that changes
      with time (daylight saving) and with [TimeClip], so that a setter can
      leave an Invalid Date; the statements about the range of Date and
      about changes of the offset are made there.
    - [Date.parse] is defined on the date-only form [YYYY-MM-DD], the form
      in which the program writes [createdAt]; what it does on every other
      string is the parameter [parseOther].
    - The state of the program is a [Document]: a list of habits and the
      nested map of checks, a [gmap] over the own string keys of each
      object. The reads [state.checks[id]] of the program follow the
      prototype chain: module [page] has the objects such a read can reach
      besides the document, [Object.prototype] and the built-in functions
      it holds, with what the change handler adds to them. The functions on
      a [Document] alone are those of a page whose built-in objects carry
      no such additions. [docToJs] is the JavaScript object of a document,
      which [save] serializes.
    - [JSON.parse] returns a [jsval]; [None] is the SyntaxError it throws.
      A number is kept as its token, which is falsy when the double nearest
      to it is zero; nesting has no depth limit.
    - [localStorage] is a [gmap] from keys to values and never runs out of
      quota.
    - The quotient [done / total] is an exact rational.
    - A handler is a function of the state before it, of what it reads from
      the page and of the readings of the clock it makes, to the state it
      leaves; what it draws is the data it puts into the page (rows, boxes,
      cells, points), not the elements.
    - A throttled function lives in a world of pending timeouts, and what
      happens to it is a trace of calls and of timeouts that fire; [fn] is
      the log of its applications and does not call the function again. *)

From Stdlib Require Import ZArith NArith QArith List Bool Lia String Ascii.
From stdpp Require Import base option list gmap fin_maps.
Import ListNotations.

Local Open Scope Z_scope.
Set Warnings "-register-all".

(** ** Strings as code-unit lists *)

Abbreviation ustring := (list N).

(** The code units of a literal (all below 256). *)
Definition str (s : string) : ustring :=
  map N_of_ascii (list_ascii_of_string s).

(** ** Calendar arithmetic of the Date object (ECMA-262, 21.4.1) *)

Definition msPerDay : Z := 86400000.
Definition msPerHour : Z := 3600000.
Definition msPerMinute : Z := 60000.
Definition msPerSecond : Z := 1000.

Definition Day (t : Z) : Z := t / msPerDay.
Definition TimeWithinDay (t : Z) : Z := t mod msPerDay.

(** 1 January 1970, day number 0, was a Thursday. *)
Definition WeekDay (t : Z) : Z := (Day t + 4) mod 7.

Definition InLeapYear (y : Z) : bool :=
  (y mod 4 =? 0) && (negb (y mod 100 =? 0) || (y mod 400 =? 0)).

(** Length of month [m] (0 = January .. 11 = December) of year [y]. *)
Definition DaysInMonth (y m : Z) : Z :=
  if m =? 1 then (if InLeapYear y then 29 else 28)
  else if (m =? 3) || (m =? 5) || (m =? 8) || (m =? 10) then 30
  else 31.

(** Day numbers and civil dates of the proleptic Gregorian calendar, by
    400-year eras that start on 1 March; [doe] is the day of the era, [yoe]
    the year of the era and [doy] the day of the year counted from 1 March. *)
Definition yoeOfDoe (doe : Z) : Z :=
  (doe - doe / 1460 + doe / 36524 - doe / 146096) / 365.

Definition doyOfDoe (doe : Z) : Z :=
  let yoe := yoeOfDoe doe in doe - (365 * yoe + yoe / 4 - yoe / 100).

(** Year, month (0..11) and day of the month (1..31) of a day number. *)
Definition civilFromDays (day : Z) : Z * Z * Z :=
  let z := day + 719468 in
  let era := z / 146097 in
  let doe := z mod 146097 in
  let yoe := yoeOfDoe doe in
  let doy := doyOfDoe doe in
  let mp := (5 * doy + 2) / 153 in
  let d := doy - (153 * mp + 2) / 5 + 1 in
  let m := if mp <? 10 then mp + 2 else mp - 10 in
  ((if m <=? 1 then yoe + 1 else yoe) + 400 * era, m, d).

(** Day number of day [d] of month [m] (0..11) of year [y]. *)
Definition daysFromCivil (y m d : Z) : Z :=
  let y' := if m <=? 1 then y - 1 else y in
  let era := y' / 400 in
  let yoe := y' mod 400 in
  let mp := if m <=? 1 then m + 10 else m - 2 in
  let doy := (153 * mp + 2) / 5 + d - 1 in
  era * 146097 + (yoe * 365 + yoe / 4 - yoe / 100 + doy) - 719468.

(** The day number of 1 January of year [y], as ECMA-262 defines it. *)
Definition DayFromYear (y : Z) : Z :=
  365 * (y - 1970) + (y - 1969) / 4 - (y - 1901) / 100 + (y - 1601) / 400.

Definition YearFromTime (t : Z) : Z := (civilFromDays (Day t)).1.1.
Definition MonthFromTime (t : Z) : Z := (civilFromDays (Day t)).1.2.
Definition DateFromTime (t : Z) : Z := (civilFromDays (Day t)).2.

(** [MakeDay]: months outside 0..11 carry into the year, and the day of the
    month may be any integer (day 0 is the last day of the month before). *)
Definition MakeDay (year month date : Z) : Z :=
  let ym := year + month / 12 in
  let mn := month mod 12 in
  daysFromCivil ym mn 1 + date - 1.

Definition MakeTime (hour min sec ms : Z) : Z :=
  hour * msPerHour + min * msPerMinute + sec * msPerSecond + ms.

Definition MakeDate (day time : Z) : Z := day * msPerDay + time.

(** ** Decimal fields of date strings *)

(** The code unit of the decimal digit [n mod 10]. *)
Definition digit (n : Z) : N := Z.to_N (48 + n mod 10).

(** The last [w] decimal digits of [n], most significant first. *)
Fixpoint padDigits (w : nat) (n : Z) : ustring :=
  match w with
  | O => []
  | S k => padDigits k (n / 10) ++ [digit n]
  end.

Definition isDigit (c : N) : bool := ((48 <=? c) && (c <=? 57))%N.

Definition digitVal (c : N) : Z := Z.of_N c - 48.

(** Year field of [toISOString]: four digits for the years 0..9999, else a
    sign and six digits. *)
Definition isoYear (y : Z) : ustring :=
  if (0 <=? y) && (y <=? 9999) then padDigits 4 y
  else (if y <? 0 then 45%N else 43%N) :: padDigits 6 (Z.abs y).

(** [Date.prototype.toISOString]: the UTC fields [YYYY-MM-DDTHH:mm:ss.sssZ]. *)
Definition toISOString (t : Z) : ustring :=
  let '(y, m, d) := civilFromDays (Day t) in
  let w := TimeWithinDay t in
  isoYear y ++ [45%N] ++ padDigits 2 (m + 1) ++ [45%N] ++ padDigits 2 d
    ++ [84%N] ++ padDigits 2 (w / msPerHour)
    ++ [58%N] ++ padDigits 2 (w / msPerMinute mod 60)
    ++ [58%N] ++ padDigits 2 (w / msPerSecond mod 60)
    ++ [46%N] ++ padDigits 3 (w mod 1000) ++ [90%N].

(** The date-only form [YYYY-MM-DD] read as its three numbers (month 1..12),
    when the string has exactly that layout. *)
Definition parseYMD (s : ustring) : option (Z * Z * Z) :=
  match s with
  | [y1; y2; y3; y4; h1; m1; m2; h2; d1; d2] =>
      if forallb isDigit [y1; y2; y3; y4; m1; m2; d1; d2]
         && (h1 =? 45)%N && (h2 =? 45)%N
      then Some (1000 * digitVal y1 + 100 * digitVal y2 + 10 * digitVal y3
                 + digitVal y4,
                 10 * digitVal m1 + digitVal m2,
                 10 * digitVal d1 + digitVal d2)
      else None
  | _ => None
  end.

(** ** JSON values and the JSON object (ECMA-262, 25.5) *)

(** The values [JSON.parse] can return. An object lists its own properties
    in enumeration order; a number is kept as the numeric token it was
    written with (the documents of this program contain no numbers). *)
Inductive jsval : Type :=
  | JNull
  | JBool (b : bool)
  | JNum (lexeme : ustring)
  | JStr (s : ustring)
  | JArr (elems : list jsval)
  | JObj (props : list (ustring * jsval)).

(** Lower-case hexadecimal digit of [n mod 16]. *)
Definition hexDigit (n : N) : N :=
  let d := (n mod 16)%N in if (d <? 10)%N then (48 + d)%N else (87 + d)%N.

Definition hexVal (c : N) : option N :=
  if ((48 <=? c) && (c <=? 57))%N then Some (c - 48)%N
  else if ((97 <=? c) && (c <=? 102))%N then Some (c - 87)%N
  else if ((65 <=? c) && (c <=? 70))%N then Some (c - 55)%N
  else None.

(** [\uXXXX] for a code unit. *)
Definition unicodeEscape (c : N) : ustring :=
  [92; 117; hexDigit (c / 4096); hexDigit (c / 256); hexDigit (c / 16);
   hexDigit c]%N.

Definition isLeadSurrogate (c : N) : bool := ((55296 <=? c) && (c <=? 56319))%N.
Definition isTrailSurrogate (c : N) : bool := ((56320 <=? c) && (c <=? 57343))%N.

(** The characters of [QuoteJSONString] between the quotes: the short
    escapes, [\u] escapes for the other control characters and for lone
    surrogates, everything else as it is (a surrogate pair stays a pair). *)
Fixpoint quoteBody (s : ustring) : ustring :=
  match s with
  | [] => []
  | c :: r =>
      if (c =? 8)%N then [92; 98]%N ++ quoteBody r
      else if (c =? 9)%N then [92; 116]%N ++ quoteBody r
      else if (c =? 10)%N then [92; 110]%N ++ quoteBody r
      else if (c =? 12)%N then [92; 102]%N ++ quoteBody r
      else if (c =? 13)%N then [92; 114]%N ++ quoteBody r
      else if (c =? 34)%N then [92; 34]%N ++ quoteBody r
      else if (c =? 92)%N then [92; 92]%N ++ quoteBody r
      else if (c <? 32)%N then unicodeEscape c ++ quoteBody r
      else if isLeadSurrogate c then
        match r with
        | c2 :: r2 =>
            if isTrailSurrogate c2 then c :: c2 :: quoteBody r2
            else unicodeEscape c ++ quoteBody r
        | [] => unicodeEscape c
        end
      else if isTrailSurrogate c then unicodeEscape c ++ quoteBody r
      else c :: quoteBody r
  end.

Definition quoteJSONString (s : ustring) : ustring :=
  [34%N] ++ quoteBody s ++ [34%N].

(** [JSON.stringify] without indentation: no white space is written. *)
Fixpoint JSON_stringify (v : jsval) : ustring :=
  match v with
  | JNull => str "null"
  | JBool true => str "true"
  | JBool false => str "false"
  | JNum lexeme => lexeme
  | JStr s => quoteJSONString s
  | JArr elems =>
      [91%N] ++
      (fix items (l : list jsval) : ustring :=
         match l with
         | [] => []
         | [x] => JSON_stringify x
         | x :: l' => JSON_stringify x ++ [44%N] ++ items l'
         end) elems
      ++ [93%N]
  | JObj props =>
      [123%N] ++
      (fix members (l : list (ustring * jsval)) : ustring :=
         match l with
         | [] => []
         | [(k, x)] => quoteJSONString k ++ [58%N] ++ JSON_stringify x
         | (k, x) :: l' =>
             quoteJSONString k ++ [58%N] ++ JSON_stringify x ++ [44%N]
               ++ members l'
         end) props
      ++ [125%N]
  end.

(** JSON white space: space, tab, line feed, carriage return. *)
Definition isWS (c : N) : bool :=
  ((c =? 32) || (c =? 9) || (c =? 10) || (c =? 13))%N.

Fixpoint skipWS (s : ustring) : ustring :=
  match s with
  | c :: r => if isWS c then skipWS r else s
  | [] => []
  end.

(** The characters of a JSON string after its opening quote, up to and
    including the closing quote; the result is the string denoted and the
    input that follows. *)
Fixpoint parseStringBody (s : ustring) : option (ustring * ustring) :=
  match s with
  | [] => None
  | c :: r =>
      if (c =? 34)%N then Some ([], r)
      else if (c =? 92)%N then
        match r with
        | [] => None
        | e :: r1 =>
            let simple (x : N) :=
              match parseStringBody r1 with
              | Some (t, r') => Some (x :: t, r')
              | None => None
              end in
            if (e =? 34)%N then simple 34%N
            else if (e =? 92)%N then simple 92%N
            else if (e =? 47)%N then simple 47%N
            else if (e =? 98)%N then simple 8%N
            else if (e =? 102)%N then simple 12%N
            else if (e =? 110)%N then simple 10%N
            else if (e =? 114)%N then simple 13%N
            else if (e =? 116)%N then simple 9%N
            else if (e =? 117)%N then
              match r1 with
              | h1 :: h2 :: h3 :: h4 :: r2 =>
                  match hexVal h1, hexVal h2, hexVal h3, hexVal h4 with
                  | Some a, Some b, Some c', Some d =>
                      match parseStringBody r2 with
                      | Some (t, r') =>
                          Some ((((a * 16 + b) * 16 + c') * 16 + d)%N :: t, r')
                      | None => None
                      end
                  | _, _, _, _ => None
                  end
              | _ => None
              end
            else None
        end
      else if (c <? 32)%N then None
      else
        match parseStringBody r with
        | Some (t, r') => Some (c :: t, r')
        | None => None
        end
  end.

(** The longest prefix of decimal digits, and what follows it. *)
Fixpoint spanDigits (s : ustring) : ustring * ustring :=
  match s with
  | c :: r =>
      if isDigit c then let '(ds, r') := spanDigits r in (c :: ds, r')
      else ([], s)
  | [] => ([], [])
  end.

(** The parts of a JSON number token, each with the input after it: an
    optional minus sign; the integer part, [0] or a digit from 1 to 9 and
    more digits; an optional fraction, a point and digits; an optional
    exponent, [e] or [E], an optional sign and digits. *)
Definition parseSign (s : ustring) : ustring * ustring :=
  match s with
  | c :: r => if (c =? 45)%N then ([45%N], r) else ([], s)
  | [] => ([], s)
  end.

Definition parseInt (s : ustring) : option (ustring * ustring) :=
  match s with
  | c :: r =>
      if (c =? 48)%N then Some ([48%N], r)
      else if isDigit c then Some (spanDigits s)
      else None
  | [] => None
  end.

Definition parseFrac (s : ustring) : option (ustring * ustring) :=
  match s with
  | c :: r =>
      if (c =? 46)%N then
        match spanDigits r with
        | ([], _) => None
        | (ds, r') => Some (46%N :: ds, r')
        end
      else Some ([], s)
  | [] => Some ([], s)
  end.

Definition parseExp (s : ustring) : option (ustring * ustring) :=
  match s with
  | c :: r =>
      if ((c =? 101) || (c =? 69))%N then
        let '(sg, r1) :=
          match r with
          | c1 :: r0 =>
              if ((c1 =? 43) || (c1 =? 45))%N then ([c1], r0) else ([], r)
          | [] => ([], r)
          end in
        match spanDigits r1 with
        | ([], _) => None
        | (ds, r') => Some (c :: sg ++ ds, r')
        end
      else Some ([], s)
  | [] => Some ([], s)
  end.

(** A JSON number token: [-]? ( [0] | [1-9][0-9]* ) ( [.][0-9]+ )?
    ( [eE][+-]?[0-9]+ )?, as the token read and the input after it. *)
Definition parseNumber (s : ustring) : option (ustring * ustring) :=
  let '(sign, s1) := parseSign s in
  match parseInt s1 with
  | None => None
  | Some (ip, s2) =>
      match parseFrac s2 with
      | None => None
      | Some (fp, s3) =>
          match parseExp s3 with
          | None => None
          | Some (ep, s4) => Some (sign ++ ip ++ fp ++ ep, s4)
          end
      end
  end.

(** [s] without the prefix [p], when it starts with it. *)
Fixpoint stripPrefix (p s : ustring) : option ustring :=
  match p, s with
  | [], _ => Some s
  | a :: p', b :: s' => if (a =? b)%N then stripPrefix p' s' else None
  | _ :: _, [] => None
  end.

(** [CreateDataProperty] while an object is being built: a repeated key
    keeps its place and takes the later value. *)
Fixpoint objSet (props : list (ustring * jsval)) (k : ustring) (v : jsval)
  : list (ustring * jsval) :=
  match props with
  | [] => [(k, v)]
  | (k', v') :: rest =>
      if decide (k' = k) then (k', v) :: rest else (k', v') :: objSet rest k v
  end.

(** A value that is not an array or an object: a string, [true], [false],
    [null] or a number, at the start of the input. *)
Definition parseScalar (s : ustring) : option (jsval * ustring) :=
  match s with
  | [] => None
  | c :: r =>
      if (c =? 34)%N then
        match parseStringBody r with
        | Some (t, r') => Some (JStr t, r')
        | None => None
        end
      else if (c =? 116)%N then
        match stripPrefix (str "true") s with
        | Some r' => Some (JBool true, r')
        | None => None
        end
      else if (c =? 102)%N then
        match stripPrefix (str "false") s with
        | Some r' => Some (JBool false, r')
        | None => None
        end
      else if (c =? 110)%N then
        match stripPrefix (str "null") s with
        | Some r' => Some (JNull, r')
        | None => None
        end
      else
        match parseNumber s with
        | Some (lexeme, r') => Some (JNum lexeme, r')
        | None => None
        end
  end.

(** Recursive descent over the JSON grammar. [parseValue] reads one value,
    [parseElems] the elements of an array after its opening bracket and
    [parseMembers] the members of an object after its opening brace; each
    returns what it read and the input that follows. The fuel bounds the
    recursion; [JSON_parse] supplies more than any input can use. *)
Fixpoint parseValue (fuel : nat) (s : ustring) {struct fuel}
  : option (jsval * ustring) :=
  match fuel with
  | O => None
  | S f =>
      match skipWS s with
      | [] => None
      | c :: r =>
          if (c =? 91)%N then
            match skipWS r with
            | [] => None
            | c1 :: r1 =>
                if (c1 =? 93)%N then Some (JArr [], r1)
                else parseElems f (c1 :: r1) []
            end
          else if (c =? 123)%N then
            match skipWS r with
            | [] => None
            | c1 :: r1 =>
                if (c1 =? 125)%N then Some (JObj [], r1)
                else parseMembers f (c1 :: r1) []
            end
          else parseScalar (c :: r)
      end
  end
with parseElems (fuel : nat) (s : ustring) (acc : list jsval) {struct fuel}
  : option (jsval * ustring) :=
  match fuel with
  | O => None
  | S f =>
      match parseValue f s with
      | None => None
      | Some (v, r) =>
          match skipWS r with
          | [] => None
          | c :: r' =>
              if (c =? 44)%N then parseElems f r' (acc ++ [v])
              else if (c =? 93)%N then Some (JArr (acc ++ [v]), r')
              else None
          end
      end
  end
with parseMembers (fuel : nat) (s : ustring) (acc : list (ustring * jsval))
  {struct fuel} : option (jsval * ustring) :=
  match fuel with
  | O => None
  | S f =>
      match skipWS s with
      | [] => None
      | q :: r0 =>
          if (q =? 34)%N then
            match parseStringBody r0 with
            | None => None
            | Some (k, r1) =>
                match skipWS r1 with
                | [] => None
                | colon :: r2 =>
                    if (colon =? 58)%N then
                      match parseValue f r2 with
                      | None => None
                      | Some (v, r3) =>
                          match skipWS r3 with
                          | [] => None
                          | c :: r' =>
                              if (c =? 44)%N
                              then parseMembers f r' (objSet acc k v)
                              else if (c =? 125)%N
                              then Some (JObj (objSet acc k v), r')
                              else None
                          end
                      end
                    else None
                end
            end
          else None
      end
  end.

(** [JSON.parse]: [None] stands for the SyntaxError it throws. *)
Definition JSON_parse (text : ustring) : option jsval :=
  match parseValue (S (length text)) text with
  | Some (v, r) => match skipWS r with [] => Some v | _ :: _ => None end
  | None => None
  end.

(** The number of a number token: the digits of its integer part and of its
    fraction read as one integer [m], and the decimal exponent [e] that
    places them, so that the token denotes [± m × 10^e]. *)
Definition digitsValue (ds : ustring) : Z :=
  foldl (λ v c, 10 * v + digitVal c) 0 ds.

Definition numberParts (lexeme : ustring) : Z * Z :=
  let '(_, s1) := parseSign lexeme in
  let '(ip, s2) := spanDigits s1 in
  let '(fp, s3) :=
    match s2 with
    | c :: r => if (c =? 46)%N then spanDigits r else ([], s2)
    | [] => ([], s2)
    end in
  let ex :=
    match s3 with
    | _ :: c1 :: r0 =>
        if (c1 =? 45)%N then - digitsValue r0
        else if (c1 =? 43)%N then digitsValue r0
        else digitsValue (c1 :: r0)
    | _ => 0
    end in
  (digitsValue (ip ++ fp), ex - Z.of_nat (length fp)).

(** The Number value of a number token is [+0] or [-0]: its digits are all
    zero, or it is so small that the nearest double is zero, which is the
    case up to half of the least positive double, [2^-1074] (at the half,
    of the neighbours [0] and [2^-1074] the even one is [0]). This is the
    correctly rounded value, which the engines compute; for a token of
    more than 20 significant digits ECMA-262 also allows the value of the
    token cut after the 20th digit. *)
Definition roundsToZero (lexeme : ustring) : bool :=
  let '(m, e) := numberParts lexeme in
  (m =? 0) || ((e <? 0) && (m * 2 ^ 1075 <=? 10 ^ (- e))).

(** [ToBoolean]. *)
Definition truthy (v : jsval) : bool :=
  match v with
  | JNull => false
  | JBool b => b
  | JNum lexeme => negb (roundsToZero lexeme)
  | JStr s => match s with [] => false | _ :: _ => true end
  | JArr _ | JObj _ => true
  end.

(** ** The persisted document *)

Record Habit : Type := { id : ustring; name : ustring; createdAt : ustring }.

(** [checks] maps a habit id to a week key to a day key to the check mark. *)
Record Document : Type := {
  habits : list Habit;
  checks : gmap ustring (gmap ustring (gmap ustring bool))
}.

Record Counts : Type := { done : nat; total : nat }.

(** One day of the month calendar. *)
Record DayCell : Type := { date : Z; counts : Counts; percent : Q }.

Definition STORAGE_KEY : ustring := str "habit_state_v1".

(** The object literal [{ habits: [], checks: {} }]. *)
Definition emptyState : jsval :=
  JObj [(str "habits", JArr []); (str "checks", JObj [])].

Definition emptyDocument : Document := {| habits := []; checks := ∅ |}.

(** [localStorage.getItem]: [None] is the [null] of a missing key. *)
Definition getItem (st : gmap ustring ustring) (key : ustring)
  : option ustring := st !! key.

Definition setItem (st : gmap ustring ustring) (key value : ustring)
  : gmap ustring ustring := <[key := value]> st.

(** [ToString] of the argument of [JSON.parse]: [null] reads ["null"]. *)
Definition textOf (item : option ustring) : ustring :=
  match item with Some s => s | None => str "null" end.

(** [load]: the parsed slot, or the empty state when the parsed value is
    falsy ([||]) or when [JSON.parse] throws ([catch]). *)
Definition load (st : gmap ustring ustring) : jsval :=
  match JSON_parse (textOf (getItem st STORAGE_KEY)) with
  | Some v => if truthy v then v else emptyState
  | None => emptyState
  end.

Definition save (state : jsval) (st : gmap ustring ustring)
  : gmap ustring ustring :=
  setItem st STORAGE_KEY (JSON_stringify state).

(** The JavaScript object of a document, properties in the order in which
    the maps list their keys. *)
Definition habitToJs (h : Habit) : jsval :=
  JObj [(str "id", JStr (id h)); (str "name", JStr (name h));
        (str "createdAt", JStr (createdAt h))].

Definition mapToJs {A} (f : A → jsval) (m : gmap ustring A) : jsval :=
  JObj (map (λ kv, (kv.1, f kv.2)) (map_to_list m)).

Definition docToJs (doc : Document) : jsval :=
  JObj [(str "habits", JArr (map habitToJs (habits doc)));
        (str "checks", mapToJs (mapToJs (mapToJs JBool)) (checks doc))].

(** Property read [o[k]]: [None] is [undefined]. *)
Fixpoint getProp (props : list (ustring * jsval)) (k : ustring)
  : option jsval :=
  match props with
  | [] => None
  | (k', v) :: rest => if decide (k' = k) then Some v else getProp rest k
  end.

(** The Document shape of section 3 of the specification, read off a
    JavaScript value: a Habit is an object with string properties [id],
    [name] and [createdAt]; the CheckMap is an object of objects of objects
    of booleans; the Document has an array [habits] and a CheckMap [checks].
    [None] when the value does not have that shape. *)
Definition asString (v : jsval) : option ustring :=
  match v with JStr s => Some s | _ => None end.

Definition asBool (v : jsval) : option bool :=
  match v with JBool b => Some b | _ => None end.

Definition asHabit (v : jsval) : option Habit :=
  match v with
  | JObj props =>
      i ← getProp props (str "id") ≫= asString;
      n ← getProp props (str "name") ≫= asString;
      c ← getProp props (str "createdAt") ≫= asString;
      Some {| id := i; name := n; createdAt := c |}
  | _ => None
  end.

Definition asMap {A} (f : jsval → option A) (v : jsval)
  : option (gmap ustring A) :=
  match v with
  | JObj props =>
      list_to_map <$> mapM (λ kv, x ← f kv.2; Some (kv.1, x)) props
  | _ => None
  end.

Definition asDocument (v : jsval) : option Document :=
  match v with
  | JObj props =>
      hs ← getProp props (str "habits")
            ≫= (λ a, match a with JArr l => mapM asHabit l | _ => None end);
      cs ← getProp props (str "checks") ≫= asMap (asMap (asMap asBool));
      Some {| habits := hs; checks := cs |}
  | _ => None
  end.

(** Decimal digits of a positive integer, most significant first. *)
Fixpoint decDigits (fuel : nat) (n : Z) (acc : ustring) : ustring :=
  match fuel with
  | O => acc
  | S f =>
      if n / 10 =? 0 then digit n :: acc
      else decDigits f (n / 10) (digit n :: acc)
  end.

(** The property key of an integer index: [ToString] of the number. *)
Definition numberKey (n : Z) : ustring :=
  if n <? 0 then 45%N :: decDigits (S (Z.to_nat (Z.log2 (- n)))) (- n) []
  else decDigits (S (Z.to_nat (Z.log2 n))) n [].

(** The check mark at a triple of keys; [None] when any level is absent. *)
Definition checkAt (cs : gmap ustring (gmap ustring (gmap ustring bool)))
  (i wk k : ustring) : option bool :=
  match cs !! i with
  | Some byWeek =>
      match byWeek !! wk with
      | Some byDay => byDay !! k
      | None => None
      end
  | None => None
  end.

(** The names of the properties that every object inherits from
    [Object.prototype] (ECMA-262, 20.1.3 and B.2.2). A read [o[k]] of such a
    name, on an object [o] without an own property [k], finds the built-in
    method of that name, and for [__proto__] the prototype itself. *)
Definition objectPrototypeNames : list ustring :=
  [str "constructor"; str "hasOwnProperty"; str "isPrototypeOf";
   str "propertyIsEnumerable"; str "toLocaleString"; str "toString";
   str "valueOf"; str "__proto__"; str "__defineGetter__";
   str "__defineSetter__"; str "__lookupGetter__"; str "__lookupSetter__"].

Definition inherited (k : ustring) : bool :=
  bool_decide (k ∈ objectPrototypeNames).

(** The read [state.checks[id]] finds an own property of [state.checks] or
    nothing: the id has an entry in [checks], or it is not a name that
    [Object.prototype] provides. *)
Definition plainId (state : Document) (i : ustring) : Prop :=
  is_Some (checks state !! i) ∨ inherited i = false.

(** The assignments of the change handler of the check boxes, for the box
    of the habit with id [i] and day column [day] in the week with key [wk]:
    [state.checks[id] ??= {}; state.checks[id][wk] ??= {};
     state.checks[id][wk][day] = cb.checked],
    as they change the document. The reads [state.checks[id]] and
    [state.checks[id][wk]] follow the prototype chain: where the object has
    no own property of the name and [Object.prototype] provides one, [??=]
    assigns nothing and the assignments after it change the built-in object
    that was found; the document stays as it is from there on. Module
    [page] follows those assignments. *)
Definition toggleCheck (state : Document) (i wk : ustring) (day : Z)
  (checked : bool) : Document :=
  match checks state !! i, inherited i with
  | None, true => state
  | own, _ =>
      let checks1 :=
        match own with
        | Some _ => checks state
        | None => <[i := ∅]> (checks state)
        end in
      let byWeek := match checks1 !! i with Some m => m | None => ∅ end in
      match byWeek !! wk, inherited wk with
      | None, true => {| habits := habits state; checks := checks1 |}
      | ownDays, _ =>
          let byWeek1 :=
            match ownDays with
            | Some _ => byWeek
            | None => <[wk := ∅]> byWeek
            end in
          let byDay := match byWeek1 !! wk with Some m => m | None => ∅ end in
          {| habits := habits state;
             checks :=
               <[i := <[wk := <[numberKey day := checked]> byDay]> byWeek1]>
                 checks1 |}
      end
  end.

(** The assignments of the click handler of the delete buttons:
    [state.habits = state.habits.filter(h => h.id !== id);
     delete state.checks[id]]. *)
Definition deleteHabit (state : Document) (i : ustring) : Document :=
  {| habits := filter (λ h, id h ≠ i) (habits state);
     checks := delete i (checks state) |}.

(** [total ? done / total : 0]. *)
Definition ratio (c : Counts) : Q :=
  match total c with
  | O => 0%Q
  | S _ => (Z.of_nat (done c) # Pos.of_nat (total c))%Q
  end.

(** [a <= b] for a Date [a] that may be invalid: comparing [NaN] is false. *)
Definition dateLe (a : option Z) (b : Z) : bool :=
  match a with Some x => x <=? b | None => false end.

Section Platform.

(** The offset of local time from UTC in milliseconds, the same at all
    times. The setters and the constructor below give the time value that
    the method computes; the Date holds that value when it is within the
    range of [TimeClip], and is an Invalid Date otherwise (module [zone]). *)
Variable LocalTZA : Z.

(** [Date.parse] on the strings that are not a valid date-only form: the
    other ISO forms and the fallbacks of the implementation. *)
Variable parseOther : ustring → option Z.

Definition LocalTime (t : Z) : Z := t + LocalTZA.
Definition UTC (t : Z) : Z := t - LocalTZA.

Definition getDay (t : Z) : Z := WeekDay (LocalTime t).
Definition getDate (t : Z) : Z := DateFromTime (LocalTime t).
Definition getMonth (t : Z) : Z := MonthFromTime (LocalTime t).
Definition getFullYear (t : Z) : Z := YearFromTime (LocalTime t).

Definition setDate (t dt : Z) : Z :=
  let lt := LocalTime t in
  UTC (MakeDate (MakeDay (YearFromTime lt) (MonthFromTime lt) dt)
                (TimeWithinDay lt)).

Definition setHours (t hour min sec ms : Z) : Z :=
  let lt := LocalTime t in
  UTC (MakeDate (Day lt) (MakeTime hour min sec ms)).

(** [new Date(year, month, date)]: local midnight of that day; the years
    0..99 stand for 1900..1999. *)
Definition newDate (year month dt : Z) : Z :=
  let yr := if (0 <=? year) && (year <=? 99) then 1900 + year else year in
  UTC (MakeDate (MakeDay yr month dt) (MakeTime 0 0 0 0)).

(** [new Date(string)]: a date-only string is midnight UTC of that day. *)
Definition Date_parse (s : ustring) : option Z :=
  match parseYMD s with
  | Some (y, m, d) =>
      if (1 <=? m) && (m <=? 12) && (1 <=? d) && (d <=? DaysInMonth y (m - 1))
      then Some (MakeDate (MakeDay y (m - 1) d) 0)
      else parseOther s
  | None => parseOther s
  end.

(** Sunday-start week. *)
Definition startOfWeek (d : Z) : Z :=
  let x := d in
  let diff := getDay x in
  let x := setDate x (getDate x - diff) in
  let x := setHours x 0 0 0 0 in
  x.

Definition weekKey (d : Z) : ustring := take 10 (toISOString (startOfWeek d)).

(** Count how many habits completed on a specific date. *)
Definition dayCounts (state : Document) (date : Z) : Counts :=
  let wk := weekKey date in
  let dayIdx := getDay date in
  foldl
    (λ (c : Counts) (h : Habit),
       let created := Date_parse (createdAt h) in
       if dateLe created date then
         {| total := S (total c);
            done :=
              match checkAt (checks state) (id h) wk (numberKey dayIdx) with
              | Some true => S (done c)
              | _ => done c
              end |}
       else c)
    {| done := 0; total := 0 |} (habits state).

(** The body of the day loop of [renderCalendar], for day [d]. *)
Definition dayCell (state : Document) (y m d : Z) : DayCell :=
  let date := newDate y m d in
  let c := dayCounts state date in
  {| date := date; counts := c; percent := ratio c |}.

(** The day loop of [renderCalendar] for the month [m] of year [y]:
    [for (let d = 1; d <= daysInMonth; d++)]. *)
Definition monthGrid (state : Document) (y m : Z) : list DayCell :=
  let daysInMonth := getDate (newDate y (m + 1) 0) in
  map (dayCell state y m) (seqZ 1 daysInMonth).

(** The change handler of [wireHomeInteractions]: the toggle for the week
    shown on the home page, then [save(state)]. *)
Definition onCheckboxChange (state : Document) (st : gmap ustring ustring)
  (currentHomeWeekStart : Z) (i : ustring) (day : Z) (checked : bool)
  : Document * gmap ustring ustring :=
  let wk := weekKey currentHomeWeekStart in
  let state := toggleCheck state i wk day checked in
  (state, save (docToJs state) st).

(** The click handler of the delete buttons, then [save(state)]. *)
Definition onDeleteClick (state : Document) (st : gmap ustring ustring)
  (i : ustring) : Document * gmap ustring ustring :=
  let state := deleteHabit state i in
  (state, save (docToJs state) st).

(** [renderCalendar] takes the year and the month from [currentMonth]. *)
Definition renderCalendar (state : Document) (currentMonth : Z)
  : list DayCell :=
  monthGrid state (getFullYear currentMonth) (getMonth currentMonth).

End Platform.

(** ** Notions of the specification *)

(** The calendar date [YYYY-MM-DD] of a time value, in UTC. *)
Definition isoDate (t : Z) : ustring :=
  let '(y, m, d) := civilFromDays (Day t) in
  padDigits 4 y ++ [45%N] ++ padDigits 2 (m + 1) ++ [45%N] ++ padDigits 2 d.

(** The calendar date [YYYY-MM-DD] of a time value on the local clock. *)
Definition localDate (LocalTZA t : Z) : ustring :=
  isoDate (LocalTime LocalTZA t).

(** Two dates fall in the same Sunday-to-Saturday span: some Sunday [sun]
    (a local day number) has both local days among its seven days. *)
Definition sameWeekSpan (LocalTZA d1 d2 : Z) : Prop :=
  ∃ sun : Z,
    (sun + 4) mod 7 = 0 ∧
    sun <= Day (LocalTime LocalTZA d1) <= sun + 6 ∧
    sun <= Day (LocalTime LocalTZA d2) <= sun + 6.

(** The test [created <= date] of [dayCounts] for one habit. *)
Definition isActive (parseOther : ustring → option Z) (h : Habit) (date : Z)
  : bool :=
  dateLe (Date_parse parseOther (createdAt h)) date.

(** The test [state.checks[h.id]?.[wk]?.[dayIdx]] of [dayCounts]. *)
Definition isChecked (LocalTZA : Z) (state : Document) (h : Habit) (date : Z)
  : bool :=
  match checkAt (checks state) (id h) (weekKey LocalTZA date)
                (numberKey (getDay LocalTZA date)) with
  | Some true => true
  | _ => false
  end.

(** The calendar day a query date stands for: its local day number. *)
Definition calendarDay (LocalTZA date : Z) : Z := Day (LocalTime LocalTZA date).

(** The calendar day a [createdAt] field stands for, as a day number, when
    the field is a valid [YYYY-MM-DD]. *)
Definition createdDay (h : Habit) : option Z :=
  match parseYMD (createdAt h) with
  | Some (y, m, d) =>
      if (1 <=? m) && (m <=? 12) && (1 <=? d) && (d <=? DaysInMonth y (m - 1))
      then Some (daysFromCivil y (m - 1) d)
      else None
  | None => None
  end.

(** A habit exists by the calendar day of the query. *)
Definition createdOnOrBefore (LocalTZA : Z) (h : Habit) (date : Z) : bool :=
  match createdDay h with
  | Some c => c <=? calendarDay LocalTZA date
  | None => false
  end.

(** The ids of the habits of a document. *)
Definition habitIds (state : Document) : list ustring := map id (habits state).

(** ** The objects the change handler reaches *)

Module page.

(** An object that the change handler has made under a week key on
    [Object.prototype]. Every object inherits it: it is what a read of that
    week key finds on an object without an own property of the key, and what
    a read of an id equal to the key finds on [state.checks]. [days] are its
    own properties under day keys and [weeks] those under week keys. *)
Record shared : Type := {
  days : gmap ustring bool;
  weeks : gmap ustring (gmap ustring bool)
}.

(** The objects of the page that the assignments of the change handler can
    change: the document; [Object.prototype], with the properties the
    handler has added to it; and the built-in functions that are the
    properties of [Object.prototype], by name, each with the by-day objects
    the handler has added to it under week keys. The keys the handler uses
    below an id are a key made by [weekKey] and the key of a day index;
    no built-in object has a property of its own under such a key. *)
Record heap : Type := {
  document : Document;
  prototypeProps : gmap ustring shared;
  functionProps : gmap ustring (gmap ustring (gmap ustring bool))
}.

(** A page whose built-in objects are as the browser made them. *)
Definition clean (state : Document) : heap :=
  {| document := state; prototypeProps := ∅; functionProps := ∅ |}.

(** What the read [state.checks[id]] finds. *)
Inductive byWeekObject : Type :=
  | OwnEntry (byWeek : gmap ustring (gmap ustring bool))
  | ObjectPrototype
  | BuiltIn (n : ustring)
  | Shared (o : shared)
  | Undefined.

Definition readId (h : heap) (i : ustring) : byWeekObject :=
  match checks (document h) !! i with
  | Some byWeek => OwnEntry byWeek
  | None =>
      if decide (i = str "__proto__") then ObjectPrototype
      else if inherited i then BuiltIn i
      else
        match prototypeProps h !! i with
        | Some o => Shared o
        | None => Undefined
        end
  end.

(** The own property [wk] of the object found for the id, when it has one.
    ([Object.prototype] itself is looked up last, by every read.) *)
Definition ownWeek (h : heap) (v : byWeekObject) (wk : ustring)
  : option (gmap ustring bool) :=
  match v with
  | OwnEntry byWeek => byWeek !! wk
  | BuiltIn n => functionProps h !! n ≫= (λ props, props !! wk)
  | Shared o => weeks o !! wk
  | ObjectPrototype | Undefined => None
  end.

(** The read [state.checks[id]?.[wk]?.[k]]; [None] is [undefined]. *)
Definition read (h : heap) (i wk k : ustring) : option bool :=
  match readId h i with
  | Undefined => None
  | v =>
      match ownWeek h v wk with
      | Some byDay => byDay !! k
      | None =>
          match prototypeProps h !! wk with
          | Some o => days o !! k
          | None => None
          end
      end
  end.

(** The object found for the id with [byDay] as its own property [wk]. *)
Definition setOwnWeek (h : heap) (i : ustring) (v : byWeekObject)
  (wk : ustring) (byDay : gmap ustring bool) : heap :=
  match v with
  | OwnEntry byWeek =>
      {| document :=
           {| habits := habits (document h);
              checks := <[i := <[wk := byDay]> byWeek]> (checks (document h)) |};
         prototypeProps := prototypeProps h;
         functionProps := functionProps h |}
  | Undefined =>
      {| document :=
           {| habits := habits (document h);
              checks := <[i := {[wk := byDay]}]> (checks (document h)) |};
         prototypeProps := prototypeProps h;
         functionProps := functionProps h |}
  | BuiltIn n =>
      let props := match functionProps h !! n with Some m => m | None => ∅ end in
      {| document := document h;
         prototypeProps := prototypeProps h;
         functionProps := <[n := <[wk := byDay]> props]> (functionProps h) |}
  | Shared o =>
      {| document := document h;
         prototypeProps :=
           <[i := {| days := days o; weeks := <[wk := byDay]> (weeks o) |}]>
             (prototypeProps h);
         functionProps := functionProps h |}
  | ObjectPrototype =>
      {| document := document h;
         prototypeProps := <[wk := {| days := byDay; weeks := ∅ |}]> (prototypeProps h);
         functionProps := functionProps h |}
  end.

(** The three assignments of the change handler:
    [state.checks[id] ??= {}; state.checks[id][wk] ??= {};
     state.checks[id][wk][k] = checked]. *)
Definition assign (h : heap) (i wk k : ustring) (checked : bool) : heap :=
  let v := readId h i in
  match ownWeek h v wk with
  | Some byDay => setOwnWeek h i v wk (<[k := checked]> byDay)
  | None =>
      match prototypeProps h !! wk with
      | Some o =>
          (* the object of the week that is inherited takes the check; the
             first assignment has made [state.checks[id]] if it was not
             there *)
          {| document :=
               match v with
               | Undefined =>
                   {| habits := habits (document h);
                      checks := <[i := ∅]> (checks (document h)) |}
               | _ => document h
               end;
             prototypeProps :=
               <[wk := {| days := <[k := checked]> (days o); weeks := weeks o |}]>
                 (prototypeProps h);
             functionProps := functionProps h |}
      | None => setOwnWeek h i v wk {[k := checked]}
      end
  end.

Section Handler.

Variable LocalTZA : Z.

(** The change handler of [wireHomeInteractions] on these objects, then
    [save(state)]. *)
Definition onCheckboxChange (h : heap) (st : gmap ustring ustring)
  (currentHomeWeekStart : Z) (i : ustring) (day : Z) (checked : bool)
  : heap * gmap ustring ustring :=
  let wk := weekKey LocalTZA currentHomeWeekStart in
  let h := assign h i wk (numberKey day) checked in
  (h, save (docToJs (document h)) st).

(** The test [state.checks[h.id]?.[wk]?.[dayIdx]] of [dayCounts]. *)
Definition isChecked (h : heap) (habit : Habit) (date : Z) : bool :=
  match read h (id habit) (weekKey LocalTZA date)
             (numberKey (getDay LocalTZA date)) with
  | Some true => true
  | _ => false
  end.

End Handler.

End page.

(** ** Measures and shapes of JSON values *)

(** The items of an array as [JSON.stringify] writes them between the
    brackets, and the members of an object between the braces. *)
Fixpoint stringifyItems (l : list jsval) : ustring :=
  match l with
  | [] => []
  | [x] => JSON_stringify x
  | x :: l' => JSON_stringify x ++ [44%N] ++ stringifyItems l'
  end.

Fixpoint stringifyMembers (l : list (ustring * jsval)) : ustring :=
  match l with
  | [] => []
  | [(k, x)] => quoteJSONString k ++ [58%N] ++ JSON_stringify x
  | (k, x) :: l' =>
      quoteJSONString k ++ [58%N] ++ JSON_stringify x ++ [44%N]
        ++ stringifyMembers l'
  end.

(** The number of nodes of a value, counting each array element and each
    object member once more: a bound on the fuel that reading it needs. *)
Fixpoint jsize (v : jsval) : nat :=
  match v with
  | JArr elems =>
      S ((fix go (l : list jsval) : nat :=
            match l with
            | [] => O
            | x :: l' => S (jsize x + go l')
            end) elems)
  | JObj props =>
      S ((fix go (l : list (ustring * jsval)) : nat :=
            match l with
            | [] => O
            | (_, x) :: l' => S (jsize x + go l')
            end) props)
  | _ => 1%nat
  end.

Fixpoint itemsSize (l : list jsval) : nat :=
  match l with
  | [] => O
  | x :: l' => S (jsize x + itemsSize l')
  end.

Fixpoint membersSize (l : list (ustring * jsval)) : nat :=
  match l with
  | [] => O
  | (_, x) :: l' => S (jsize x + membersSize l')
  end.

(** A value without numbers, in whose objects no key is repeated: the
    values that documents are made of. *)
Inductive plain : jsval → Prop :=
  | plain_null : plain JNull
  | plain_bool b : plain (JBool b)
  | plain_str s : plain (JStr s)
  | plain_arr l : Forall plain l → plain (JArr l)
  | plain_obj ps :
      NoDup (ps.*1) → Forall (λ kv, plain kv.2) ps → plain (JObj ps).

(** The first character a plain value is written with: no white space, no
    closing bracket or brace. *)
Definition opensValue (c : N) : Prop :=
  c = 110%N ∨ c = 116%N ∨ c = 102%N ∨ c = 34%N ∨ c = 91%N ∨ c = 123%N.

(** [reads v]: what [JSON.stringify] wrote for [v] is read back as [v],
    whatever follows, with fuel for its nodes. *)
Definition reads (v : jsval) : Prop :=
  ∀ f r, (jsize v <= f)%nat →
    parseValue f (JSON_stringify v ++ r) = Some (v, r).

(** [fuelFree parse f]: a successful run of [parse] with fuel [f] consumes
    input, and any fuel that is at least the number of characters consumed
    repeats it. *)
Definition fuelFree {A} (parse : nat → ustring → A → option (jsval * ustring))
  (f : nat) : Prop :=
  ∀ s a v r, parse f s a = Some (v, r) →
    (length r < length s)%nat ∧
    ∀ f', (length s - length r <= f')%nat → parse f' s a = Some (v, r).

(** ** Sample data *)

Definition habitRead : Habit :=
  {| id := str "h_read"; name := str "Read"; createdAt := str "2024-01-03" |}.

Definition docRead : Document := {| habits := [habitRead]; checks := ∅ |}.

(** One hour east of Greenwich. *)
Definition utcPlus1 : Z := 3600000.

Definition noOtherFormats : ustring → option Z := λ _, None.

(** ** Numbers of the ring of a calendar cell *)

(** A JavaScript number as [Math.max] and [Math.min] tell numbers apart: the
    finite ones by their exact value (a rational, the two zeros as one),
    the infinities and [NaN]. *)
Inductive number : Type :=
  | NaN
  | NegInfinity
  | Num (q : Q)
  | PosInfinity.

(** [Math.min] and [Math.max] of two numbers: [NaN] when either is. *)
Definition Math_min (a b : number) : number :=
  match a, b with
  | NaN, _ | _, NaN => NaN
  | NegInfinity, _ | _, NegInfinity => NegInfinity
  | PosInfinity, x | x, PosInfinity => x
  | Num p, Num q => Num (if Qle_bool p q then p else q)
  end.

Definition Math_max (a b : number) : number :=
  match a, b with
  | NaN, _ | _, NaN => NaN
  | PosInfinity, _ | _, PosInfinity => PosInfinity
  | NegInfinity, x | x, NegInfinity => x
  | Num p, Num q => Num (if Qle_bool p q then q else p)
  end.

Definition clamp01 (x : number) : number :=
  Math_max (Num 0) (Math_min (Num 1) x).

(** Two numbers are the same value: the same rational, written as any
    fraction, or the same infinity, or both [NaN]. *)
Definition sameValue (a b : number) : Prop :=
  match a, b with
  | NaN, NaN | NegInfinity, NegInfinity | PosInfinity, PosInfinity => True
  | Num p, Num q => (p == q)%Q
  | _, _ => False
  end.

(** ** The form that adds a habit *)

(** The code units [String.prototype.trim] strips: WhiteSpace (TAB, VT, FF,
    the space separators of Unicode, ZWNBSP) and LineTerminator (LF, CR, LS,
    PS). *)
Definition isTrimSpace (c : N) : bool :=
  ((9 <=? c) && (c <=? 13) || (c =? 32) || (c =? 160) || (c =? 5760)
   || (8192 <=? c) && (c <=? 8202) || (c =? 8232) || (c =? 8233)
   || (c =? 8239) || (c =? 8287) || (c =? 12288) || (c =? 65279))%N.

Fixpoint trimStart (s : ustring) : ustring :=
  match s with
  | [] => []
  | c :: r => if isTrimSpace c then trimStart r else s
  end.

Definition trimEnd (s : ustring) : ustring := rev (trimStart (rev s)).

Definition trim (s : ustring) : ustring := trimEnd (trimStart s).

(** [uid]: ['h_' + Math.random().toString(36).slice(2, 9)], where
    [random36] is the string [Math.random().toString(36)]. *)
Definition uid (random36 : ustring) : ustring :=
  str "h_" ++ take 7 (drop 2 random36).

(** The submit handler of the form: nothing happens for a name that trims
    to the empty string; otherwise the new habit is pushed and the state
    saved. [value] is the text of the input, [now] the time of the call. *)
Definition onAddSubmit (state : Document) (st : gmap ustring ustring)
  (value random36 : ustring) (now : Z) : Document * gmap ustring ustring :=
  let name := trim value in
  match name with
  | [] => (state, st)
  | _ :: _ =>
      let state :=
        {| habits :=
             habits state
             ++ [{| id := uid random36; name := name;
                    createdAt := take 10 (toISOString now) |}];
           checks := checks state |} in
      (state, save (docToJs state) st)
  end.

(** ** Resetting a week *)

(** The loop of the reset button for the week with key [wk]:
    [state.habits.forEach(h => { if (state.checks[h.id])
       delete state.checks[h.id][wk]; })]. *)
Definition resetWeek (state : Document) (wk : ustring) : Document :=
  {| habits := habits state;
     checks :=
       foldl
         (λ cs h,
            match cs !! id h with
            | Some byWeek => <[id h := delete wk byWeek]> cs
            | None => cs
            end)
         (checks state) (habits state) |}.

(** ** The rows of the home page *)

(** One check box of the table: the [data-habit-id] attribute, the
    [data-day] attribute as the number the change handler reads back from
    it, and the [checked] property. *)
Record CheckBox : Type := { habitId : ustring; day : Z; checked : bool }.

(** One table row: the label, the seven boxes and the [data-delete-habit-id]
    of the delete button. *)
Record HabitRow : Type := {
  label : ustring;
  boxes : list CheckBox;
  deleteHabitId : ustring
}.

(** Sun..Sat *)
Definition DAYS : list Z := [0; 1; 2; 3; 4; 5; 6].

(** The row [renderHome] builds for a habit, in the week with key [wk]. *)
Definition habitRow (state : Document) (wk : ustring) (habit : Habit)
  : HabitRow :=
  let habitChecks : gmap ustring bool :=
    match checks state !! id habit with
    | Some byWeek => match byWeek !! wk with Some byDay => byDay | None => ∅ end
    | None => ∅
    end in
  {| label := name habit;
     boxes :=
       map (λ dayIndex,
              {| habitId := id habit; day := dayIndex;
                 checked :=
                   match habitChecks !! numberKey dayIndex with
                   | Some true => true
                   | _ => false
                   end |})
           DAYS;
     deleteHabitId := id habit |}.

(** ** The throttle of high-frequency events *)

Module throttle.

(** The variables of the closure [throttle(fn, ms)] returns. [A] is what a
    call passes on to [fn]: its [this] and its arguments. A timer handle is
    a positive integer, so [!timer] tests for [null]. *)
Record closure (A : Type) : Type := {
  last : Z;
  timer : option positive;
  savedArgs : option A
}.
Arguments last {A} _.
Arguments timer {A} _.
Arguments savedArgs {A} _.

(** A timeout of the platform that has not fired: its handle, the reading
    of [Date.now()] in the call that set it, and its delay. *)
Record timeout : Type := { handle : positive; setAt : Z; delay : Z }.

(** The closure, the pending timeouts of the platform, the next handle it
    hands out, and the log of the calls [fn.apply(savedThis, savedArgs)]:
    each with the clock reading [run] stored in [last]. *)
Record world (A : Type) : Type := {
  vars : closure A;
  pending : list timeout;
  nextHandle : positive;
  applied : list (Z * option A)
}.
Arguments vars {A} _.
Arguments pending {A} _.
Arguments nextHandle {A} _.
Arguments applied {A} _.

Definition init (A : Type) : world A :=
  {| vars := {| last := 0; timer := None; savedArgs := None |};
     pending := []; nextHandle := 1%positive; applied := [] |}.

(** [run]: [last = Date.now(); timer = null; fn.apply(savedThis, savedArgs)],
    where [now] is that reading of the clock. *)
Definition run {A} (now : Z) (w : world A) : world A :=
  {| vars := {| last := now; timer := None;
                savedArgs := savedArgs (vars w) |};
     pending := pending w; nextHandle := nextHandle w;
     applied := applied w ++ [(now, savedArgs (vars w))] |}.

(** A call of the throttled function with [args]: [now] is the reading of
    [Date.now()] at its start and [nowRun] the one [run] makes, if it runs. *)
Definition throttled {A} (ms : Z) (now nowRun : Z) (args : A) (w : world A)
  : world A :=
  let w :=
    {| vars := {| last := last (vars w); timer := timer (vars w);
                  savedArgs := Some args |};
       pending := pending w; nextHandle := nextHandle w;
       applied := applied w |} in
  if (last (vars w) =? 0) || (ms <=? now - last (vars w)) then run nowRun w
  else
    match timer (vars w) with
    | None =>
        {| vars := {| last := last (vars w);
                      timer := Some (nextHandle w);
                      savedArgs := savedArgs (vars w) |};
           pending :=
             pending w
             ++ [{| handle := nextHandle w; setAt := now;
                    delay := ms - (now - last (vars w)) |}];
           nextHandle := Pos.succ (nextHandle w);
           applied := applied w |}
    | Some _ => w
    end.

(** The platform fires the pending timeout with handle [h]: it leaves the
    table and [run] is called. [None] when no such timeout is pending. *)
Definition fire {A} (h : positive) (nowRun : Z) (w : world A)
  : option (world A) :=
  if existsb (λ t, Pos.eqb (handle t) h) (pending w) then
    Some (run nowRun
            {| vars := vars w;
               pending := List.filter (λ t, negb (Pos.eqb (handle t) h))
                            (pending w);
               nextHandle := nextHandle w; applied := applied w |})
  else None.

(** What happens to a throttled function: it is called, or one of its
    timeouts fires. *)
Inductive event (A : Type) : Type :=
  | Call (now nowRun : Z) (args : A)
  | Fire (h : positive) (nowRun : Z).
Arguments Call {A} _ _ _.
Arguments Fire {A} _ _.

Definition step {A} (ms : Z) (e : event A) (w : world A) : option (world A) :=
  match e with
  | Call now nowRun args => Some (throttled ms now nowRun args w)
  | Fire h nowRun => fire h nowRun w
  end.

(** The events of a trace in order, from the world [w]. *)
Fixpoint exec {A} (ms : Z) (tr : list (event A)) (w : world A)
  : option (world A) :=
  match tr with
  | [] => Some w
  | e :: tr' =>
      match step ms e w with
      | Some w' => exec ms tr' w'
      | None => None
      end
  end.

(** The arguments of the latest call of a trace, [acc] when it has none. *)
Fixpoint latestArgs {A} (tr : list (event A)) (acc : option A) : option A :=
  match tr with
  | [] => acc
  | Call _ _ args :: tr' => latestArgs tr' (Some args)
  | Fire _ _ :: tr' => latestArgs tr' acc
  end.

(** Timers are on time along a trace from [w]: a timeout fires no earlier
    than its delay after it was set, by the clock [Date.now()] reads, and a
    call finds no pending timeout that is already due. Readings of the clock
    are not 0 and do not go back within a call. *)
Fixpoint timely {A} (ms : Z) (tr : list (event A)) (w : world A) : bool :=
  match tr with
  | [] => true
  | e :: tr' =>
      match e with
      | Call now nowRun _ =>
          (now <=? nowRun) && negb (nowRun =? 0)
          && forallb (λ t, now <? setAt t + delay t) (pending w)
      | Fire h nowRun =>
          negb (nowRun =? 0)
          && forallb (λ t, negb (Pos.eqb (handle t) h)
                           || (setAt t + delay t <=? nowRun))
                     (pending w)
      end
      && match step ms e w with
         | Some w' => timely ms tr' w'
         | None => false
         end
  end.

(** What holds of the variables of the closure after any trace: a timer
    that is noted is pending, and while a timeout is pending, arguments
    are saved. *)
Definition inv {A} (w : world A) : Prop :=
  (∀ h, timer (vars w) = Some h →
        existsb (λ t, Pos.eqb (handle t) h) (pending w) = true) ∧
  (pending w ≠ [] → is_Some (savedArgs (vars w))).

(** Successive times of a list are at least [ms] apart. *)
Definition spaced (ms : Z) (times : list Z) : Prop :=
  ∀ (i : nat) t1 t2,
    times !! i = Some t1 → times !! S i = Some t2 → ms <= t2 - t1.

End throttle.

Section Pages.

Variable LocalTZA : Z.
Variable parseOther : ustring → option Z.

(** [fmtMDY]: [`${d.getMonth()+1}/${d.getDate()}/${d.getFullYear()}`]. *)
Definition fmtMDY (d : Z) : ustring :=
  numberKey (getMonth LocalTZA d + 1) ++ [47%N]
    ++ numberKey (getDate LocalTZA d) ++ [47%N]
    ++ numberKey (getFullYear LocalTZA d).

(** The time value [Date.prototype.setMonth] computes with one argument. *)
Definition setMonth (t m : Z) : Z :=
  let lt := LocalTime LocalTZA t in
  UTC LocalTZA
    (MakeDate (MakeDay (YearFromTime lt) m (DateFromTime lt))
              (TimeWithinDay lt)).

(** [renderHome]: one row per habit, for the week shown. *)
Definition renderHome (state : Document) (currentHomeWeekStart : Z)
  : list HabitRow :=
  let wk := weekKey LocalTZA currentHomeWeekStart in
  map (habitRow state wk) (habits state).

(** The click handler of the reset button, then [save(state)]. *)
Definition onResetClick (state : Document) (st : gmap ustring ustring)
  (currentHomeWeekStart : Z) : Document * gmap ustring ustring :=
  let wk := weekKey LocalTZA currentHomeWeekStart in
  let state := resetWeek state wk in
  (state, save (docToJs state) st).

(** The data loop of [renderWeeklyChart]: the seven points and [maxY]. *)
Definition weeklyChartData (state : Document) (currentStatsWeekStart : Z)
  : list nat * nat :=
  let '(points, maxY) :=
    foldl
      (λ '(points, maxY) i,
         let d := setDate LocalTZA currentStatsWeekStart
                    (getDate LocalTZA currentStatsWeekStart + i) in
         let done := done (dayCounts LocalTZA parseOther state d) in
         (points ++ [done], if (maxY <? done)%nat then done else maxY))
      ([], 1%nat) (seqZ 0 7) in
  (points, Nat.max maxY 1).

(** The number in the summary line: [points.reduce((a, b) => a + b, 0)]. *)
Definition weeklySummary (points : list nat) : nat :=
  foldl (λ a b, (a + b)%nat) 0%nat points.

(** The children [renderCalendar] appends to the grid: the leading blanks,
    then the cells of the days. *)
Definition calendarCells (state : Document) (currentMonth : Z)
  : list (option DayCell) :=
  let y := getFullYear LocalTZA currentMonth in
  let m := getMonth LocalTZA currentMonth in
  let first := newDate LocalTZA y m 1 in
  let startWeekday := getDay LocalTZA first in
  replicate (Z.to_nat startWeekday) None
    ++ map Some (monthGrid LocalTZA parseOther state y m).

End Pages.

(** ** Dates as the Date object holds them *)

Module zone.

(** The offset of local time from UTC in milliseconds (ECMA-262, 21.4.1.25,
    LocalTZA): [atUTC t] is the offset in force at the UTC time value [t],
    [atLocal t] the offset by which the local time value [t] is read. Where
    the offset changes, a local time comes twice or not at all; it is then
    read with the offset before the change. *)
Record TimeZone : Type := { atUTC : Z → Z; atLocal : Z → Z }.

(** A zone with the same offset at all times. *)
Definition fixed (LocalTZA : Z) : TimeZone :=
  {| atUTC := λ _, LocalTZA; atLocal := λ _, LocalTZA |}.


(** [TimeClip]: a Date holds a time value of at most 8.64e15 ms on either
    side of 1970; [None] is the [NaN] of an Invalid Date. *)
Definition maxTime : Z := 8640000000000000.

Definition TimeClip (time : Z) : option Z :=
  if Z.abs time <=? maxTime then Some time else None.

Section Zone.

Variable z : TimeZone.

Definition LocalTime (t : Z) : Z := t + atUTC z t.
Definition UTC (t : Z) : Z := t - atLocal z t.

Definition getDay (t : Z) : Z := WeekDay (LocalTime t).
Definition getDate (t : Z) : Z := DateFromTime (LocalTime t).
Definition getMonth (t : Z) : Z := MonthFromTime (LocalTime t).
Definition getFullYear (t : Z) : Z := YearFromTime (LocalTime t).

(** The setters, on a valid Date; the result may be an Invalid Date. *)
Definition setDate (t dt : Z) : option Z :=
  let lt := LocalTime t in
  TimeClip (UTC (MakeDate (MakeDay (YearFromTime lt) (MonthFromTime lt) dt)
                          (TimeWithinDay lt))).

Definition setHours (t hour min sec ms : Z) : option Z :=
  let lt := LocalTime t in
  TimeClip (UTC (MakeDate (Day lt) (MakeTime hour min sec ms))).

Definition setMonth (t m : Z) : option Z :=
  let lt := LocalTime t in
  TimeClip (UTC (MakeDate (MakeDay (YearFromTime lt) m (DateFromTime lt))
                          (TimeWithinDay lt))).

(** [new Date(year, month, date)]: local midnight of that day; the years
    0..99 stand for 1900..1999. *)
Definition newDate (year month dt : Z) : option Z :=
  let yr := if (0 <=? year) && (year <=? 99) then 1900 + year else year in
  TimeClip (UTC (MakeDate (MakeDay yr month dt) (MakeTime 0 0 0 0))).

(** Sunday-start week. A setter leaves an Invalid Date invalid. *)
Definition startOfWeek (d : Z) : option Z :=
  let x := d in
  let diff := getDay x in
  x ← setDate x (getDate x - diff);
  setHours x 0 0 0 0.

(** [weekKey]; [None] when [toISOString] throws a RangeError, which it does
    for an Invalid Date. *)
Definition weekKey (d : Z) : option ustring :=
  s ← startOfWeek d; Some (take 10 (toISOString s)).

(** [fmtMDY]; the fields of an Invalid Date are [NaN]. *)
Definition fmtMDY (d : option Z) : ustring :=
  match d with
  | Some t =>
      numberKey (getMonth t + 1) ++ [47%N] ++ numberKey (getDate t)
        ++ [47%N] ++ numberKey (getFullYear t)
  | None => str "NaN/NaN/NaN"
  end.

(** The click handlers of the week buttons of the home page, as functions
    of [currentHomeWeekStart]; [homeToday] takes the time of the click. *)
Definition homePrevWeek (currentHomeWeekStart : option Z) : option Z :=
  t ← currentHomeWeekStart; setDate t (getDate t - 7).

Definition homeNextWeek (currentHomeWeekStart : option Z) : option Z :=
  t ← currentHomeWeekStart; setDate t (getDate t + 7).

Definition homeToday (now : Z) : option Z := startOfWeek now.

(** The click handlers of the week buttons of the stats page, as functions
    of [currentStatsWeekStart]. *)
Definition prevWeek (currentStatsWeekStart : option Z) : option Z :=
  t ← currentStatsWeekStart; setDate t (getDate t - 7).

Definition nextWeek (currentStatsWeekStart : option Z) : option Z :=
  t ← currentStatsWeekStart; setDate t (getDate t + 7).

(** The two dates of [setHomeWeekTitle] and the text it sets:
    [`${fmtMDY(start)} – ${fmtMDY(end)}`]. *)
Definition homeWeekEnd (currentHomeWeekStart : option Z) : option Z :=
  t ← currentHomeWeekStart; setDate t (getDate t + 6).

Definition setHomeWeekTitle (currentHomeWeekStart : option Z) : ustring :=
  let start := currentHomeWeekStart in
  let end_ := homeWeekEnd currentHomeWeekStart in
  fmtMDY start ++ [32%N; 8211%N; 32%N] ++ fmtMDY end_.

(** [let currentMonth = new Date(); currentMonth.setDate(1);] and the click
    handlers of the month buttons, as functions of [currentMonth]. *)
Definition initialMonth (now : Z) : option Z := setDate now 1.

Definition prevMonth (currentMonth : option Z) : option Z :=
  t ← currentMonth; setMonth t (getMonth t - 1).

Definition nextMonth (currentMonth : option Z) : option Z :=
  t ← currentMonth; setMonth t (getMonth t + 1).

End Zone.

End zone.

(** * Properties *)

(** Linear arithmetic with division and remainder by constants, over [Z]
    and over [N]. *)
Ltac zdiv := Z.to_euclidean_division_equations; lia.
Ltac ndiv := zify; Z.to_euclidean_division_equations; lia.

(** Decides the comparisons of integer constants that stand in the tests of
    a goal. *)
Ltac decide_tests :=
  repeat
    (match goal with
     | |- context [?a <=? ?b] => destruct (Z.leb_spec a b); try lia
     | |- context [?a =? ?b] => destruct (Z.eqb_spec a b); try lia
     end; cbn [orb andb]).

(** ** The calendar *)

Lemma triple_eq {A B C} (a a' : A) (b b' : B) (c c' : C) :
  a = a' → b = b' → c = c' → (a, b, c) = (a', b', c').
Proof. congruence. Qed.

Lemma yoeOfDoe_range doe : 0 <= doe < 146097 → 0 <= yoeOfDoe doe <= 399.
Proof. unfold yoeOfDoe. intros. zdiv. Qed.

(** The last day of an era year exists only before a leap year's March. *)
Lemma doyOfDoe_range doe :
  0 <= doe < 146097 →
  0 <= doyOfDoe doe <= 365 ∧
  (doyOfDoe doe = 365 →
   (yoeOfDoe doe + 1) mod 4 = 0 ∧
   ((yoeOfDoe doe + 1) mod 100 ≠ 0 ∨ (yoeOfDoe doe + 1) mod 400 = 0)).
Proof. unfold doyOfDoe, yoeOfDoe. intros. zdiv. Qed.

Lemma InLeapYear_true y :
  InLeapYear y = true ↔ y mod 4 = 0 ∧ (y mod 100 ≠ 0 ∨ y mod 400 = 0).
Proof.
  unfold InLeapYear. rewrite andb_true_iff, orb_true_iff, negb_true_iff.
  rewrite !Z.eqb_eq, Z.eqb_neq. tauto.
Qed.

(** Every day number has a valid civil date, and that date has this day
    number. *)
Lemma civilFromDays_spec day :
  let '(y, m, d) := civilFromDays day in
  daysFromCivil y m d = day ∧ 0 <= m <= 11 ∧ 1 <= d <= DaysInMonth y m.
Proof.
  unfold civilFromDays.
  set (z := day + 719468). set (era := z / 146097). set (doe := z mod 146097).
  assert (Hdoe : 0 <= doe < 146097) by (subst doe; apply Z.mod_pos_bound; lia).
  assert (Hz : z = 146097 * era + doe) by (subst era doe; apply Z.div_mod; lia).
  destruct (doyOfDoe_range doe Hdoe) as [Hd Hleap].
  pose proof (yoeOfDoe_range doe Hdoe) as Hy.
  assert (Hdoy : doyOfDoe doe
                 = doe - (365 * yoeOfDoe doe + yoeOfDoe doe / 4
                          - yoeOfDoe doe / 100)) by reflexivity.
  set (yoe := yoeOfDoe doe) in *. set (doy := doyOfDoe doe) in *.
  set (mp := (5 * doy + 2) / 153).
  assert (Hmp : 0 <= mp <= 11) by (subst mp; zdiv).
  unfold daysFromCivil.
  destruct (mp <? 10) eqn:E.
  - apply Z.ltb_lt in E.
    destruct (mp + 2 <=? 1) eqn:E2; [apply Z.leb_le in E2; lia|].
    replace ((yoe + 400 * era) / 400) with era by zdiv.
    replace ((yoe + 400 * era) mod 400) with yoe by zdiv.
    replace (mp + 2 - 2) with mp by lia.
    split; [subst z; lia|]. split; [lia|].
    unfold DaysInMonth.
    assert (Hc : mp = 0 ∨ mp = 1 ∨ mp = 2 ∨ mp = 3 ∨ mp = 4 ∨ mp = 5 ∨
                 mp = 6 ∨ mp = 7 ∨ mp = 8 ∨ mp = 9) by lia.
    destruct Hc as [Hc|[Hc|[Hc|[Hc|[Hc|[Hc|[Hc|[Hc|[Hc|Hc]]]]]]]]];
      rewrite Hc; simpl; subst mp; zdiv.
  - apply Z.ltb_ge in E.
    destruct (mp - 10 <=? 1) eqn:E2; [|apply Z.leb_gt in E2; lia].
    replace (yoe + 1 + 400 * era - 1) with (yoe + 400 * era) by lia.
    replace ((yoe + 400 * era) / 400) with era by zdiv.
    replace ((yoe + 400 * era) mod 400) with yoe by zdiv.
    replace (mp - 10 + 10) with mp by lia.
    split; [subst z; lia|]. split; [lia|].
    unfold DaysInMonth.
    assert (Hc : mp = 10 ∨ mp = 11) by lia.
    destruct Hc as [Hc|Hc]; rewrite Hc; simpl.
    + subst mp; zdiv.
    + destruct (InLeapYear (yoe + 1 + 400 * era)) eqn:L.
      * subst mp; zdiv.
      * assert (doy ≠ 365).
        { intros H365. destruct (Hleap H365) as [H4 H100].
          assert (InLeapYear (yoe + 1 + 400 * era) = true); [|congruence].
          apply InLeapYear_true. zdiv. }
        subst mp; zdiv.
Qed.

Lemma era_parts y' doy :
  0 <= doy <= 365 →
  (doy = 365 →
   (y' mod 400 + 1) mod 4 = 0 ∧
   ((y' mod 400 + 1) mod 100 ≠ 0 ∨ (y' mod 400 + 1) mod 400 = 0)) →
  let yoe := y' mod 400 in
  let z := y' / 400 * 146097 + (yoe * 365 + yoe / 4 - yoe / 100 + doy)
           - 719468 + 719468 in
  z / 146097 = y' / 400 ∧ yoeOfDoe (z mod 146097) = yoe ∧
  doyOfDoe (z mod 146097) = doy.
Proof.
  intros Hdoy Hleap yoe z.
  set (doe := yoe * 365 + yoe / 4 - yoe / 100 + doy).
  assert (Hyoe : 0 <= yoe < 400) by (subst yoe; apply Z.mod_pos_bound; lia).
  assert (Hdoe : 0 <= doe < 146097) by (subst doe; fold yoe in Hleap; zdiv).
  assert (Hz : z = doe + y' / 400 * 146097) by (subst z doe; lia).
  rewrite Hz, Z.div_add, Z.mod_add by lia.
  rewrite (Z.div_small doe), (Z.mod_small doe) by lia.
  assert (Hyoe' : yoeOfDoe doe = yoe)
    by (unfold yoeOfDoe; subst doe; fold yoe in Hleap; zdiv).
  split; [lia|]. split; [exact Hyoe'|].
  unfold doyOfDoe. rewrite Hyoe'. subst doe. lia.
Qed.

Lemma civilFromDays_parts y' mp d :
  0 <= mp <= 11 →
  (5 * ((153 * mp + 2) / 5 + d - 1) + 2) / 153 = mp →
  0 <= (153 * mp + 2) / 5 + d - 1 <= 365 →
  ((153 * mp + 2) / 5 + d - 1 = 365 →
   (y' mod 400 + 1) mod 4 = 0 ∧
   ((y' mod 400 + 1) mod 100 ≠ 0 ∨ (y' mod 400 + 1) mod 400 = 0)) →
  civilFromDays
    (y' / 400 * 146097
     + (y' mod 400 * 365 + y' mod 400 / 4 - y' mod 400 / 100
        + ((153 * mp + 2) / 5 + d - 1)) - 719468)
  = (if mp <? 10 then (y', mp + 2, d) else (y' + 1, mp - 10, d)).
Proof.
  intros Hmp Hmp' Hdoy Hleap.
  destruct (era_parts y' _ Hdoy Hleap) as (Hq & Hyoe & Hdoy').
  cbv zeta in Hq, Hyoe, Hdoy'.
  unfold civilFromDays. cbv zeta.
  rewrite Hq, Hyoe, Hdoy', Hmp'.
  pose proof (Z.div_mod y' 400 ltac:(lia)) as Hy.
  destruct (mp <? 10) eqn:E.
  - apply Z.ltb_lt in E.
    destruct (mp + 2 <=? 1) eqn:E1; [apply Z.leb_le in E1; lia|].
    apply triple_eq; lia.
  - apply Z.ltb_ge in E.
    destruct (mp - 10 <=? 1) eqn:E1; [|apply Z.leb_gt in E1; lia].
    apply triple_eq; lia.
Qed.

(** A valid civil date is the civil date of its day number. *)
Lemma civilFromDays_daysFromCivil y m d :
  0 <= m <= 11 → 1 <= d <= DaysInMonth y m →
  civilFromDays (daysFromCivil y m d) = (y, m, d).
Proof.
  intros Hm Hd. unfold DaysInMonth in Hd.
  unfold daysFromCivil. destruct (m <=? 1) eqn:E.
  - apply Z.leb_le in E.
    assert (Hc : m = 0 ∨ m = 1) by lia.
    rewrite civilFromDays_parts.
    + destruct (m + 10 <? 10) eqn:E1; [apply Z.ltb_lt in E1; lia|].
      apply triple_eq; lia.
    + lia.
    + destruct Hc; subst m; simpl in Hd; [zdiv|].
      destruct (InLeapYear y); zdiv.
    + destruct Hc; subst m; simpl in Hd; [zdiv|].
      destruct (InLeapYear y); zdiv.
    + destruct Hc; subst m; simpl in Hd; [zdiv|].
      destruct (InLeapYear y) eqn:L; [|zdiv].
      apply InLeapYear_true in L. intros _. zdiv.
  - apply Z.leb_gt in E.
    assert (Hc : m = 2 ∨ m = 3 ∨ m = 4 ∨ m = 5 ∨ m = 6 ∨
                 m = 7 ∨ m = 8 ∨ m = 9 ∨ m = 10 ∨ m = 11) by lia.
    rewrite civilFromDays_parts.
    + destruct (m - 2 <? 10) eqn:E1; [|apply Z.ltb_ge in E1; lia].
      apply triple_eq; lia.
    + lia.
    + destruct Hc as [Hc|[Hc|[Hc|[Hc|[Hc|[Hc|[Hc|[Hc|[Hc|Hc]]]]]]]]];
        subst m; simpl in Hd; zdiv.
    + destruct Hc as [Hc|[Hc|[Hc|[Hc|[Hc|[Hc|[Hc|[Hc|[Hc|Hc]]]]]]]]];
        subst m; simpl in Hd; zdiv.
    + destruct Hc as [Hc|[Hc|[Hc|[Hc|[Hc|[Hc|[Hc|[Hc|[Hc|Hc]]]]]]]]];
        subst m; simpl in Hd; zdiv.
Qed.

(** ** The calendar against the definitions of ECMA-262 *)

Lemma daysFromCivil_year_start y : daysFromCivil y 0 1 = DayFromYear y.
Proof. unfold daysFromCivil, DayFromYear. cbn [Z.leb Z.compare]. zdiv. Qed.

(** [YearFromTime t] is the year whose days contain the day of [t]. *)
Lemma YearFromTime_spec t :
  DayFromYear (YearFromTime t) <= Day t < DayFromYear (YearFromTime t + 1).
Proof.
  unfold YearFromTime. pose proof (civilFromDays_spec (Day t)) as H.
  destruct (civilFromDays (Day t)) as [[y m] d]. cbn [fst].
  destruct H as (H & Hm & Hd). rewrite <- H, <- !daysFromCivil_year_start.
  clear H. unfold DaysInMonth in Hd. unfold daysFromCivil.
  assert (Hc : m = 0 ∨ m = 1 ∨ m = 2 ∨ m = 3 ∨ m = 4 ∨ m = 5 ∨ m = 6 ∨
               m = 7 ∨ m = 8 ∨ m = 9 ∨ m = 10 ∨ m = 11) by lia.
  destruct Hc as [Hc|[Hc|[Hc|[Hc|[Hc|[Hc|[Hc|[Hc|[Hc|[Hc|[Hc|Hc]]]]]]]]]]];
    subst m; decide_tests; cbn [Z.eqb Pos.eqb orb] in Hd;
    try (destruct (InLeapYear y)); zdiv.
Qed.

(** 1 January 1970 is day 0, a Thursday. *)
Lemma epoch_day : civilFromDays 0 = (1970, 0, 1) ∧ WeekDay 0 = 4.
Proof. split; reflexivity. Qed.

(** ** Date methods *)

Lemma MakeDay_civil y m d x :
  0 <= m <= 11 → MakeDay y m x = daysFromCivil y m d + x - d.
Proof.
  intros Hm. unfold MakeDay.
  rewrite (Z.div_small m 12), (Z.mod_small m 12), Z.add_0_r by lia.
  unfold daysFromCivil. lia.
Qed.

Lemma MakeDay_of_time t x :
  MakeDay (YearFromTime t) (MonthFromTime t) x = Day t + x - DateFromTime t.
Proof.
  unfold YearFromTime, MonthFromTime, DateFromTime.
  pose proof (civilFromDays_spec (Day t)) as H.
  destruct (civilFromDays (Day t)) as [[y m] d]. simpl.
  destruct H as (H & Hm & _). rewrite (MakeDay_civil y m d) by lia. lia.
Qed.

Lemma Day_MakeDate day time :
  0 <= time < msPerDay → Day (MakeDate day time) = day.
Proof. unfold Day, MakeDate, msPerDay. intros. zdiv. Qed.

Lemma TimeWithinDay_range t : 0 <= TimeWithinDay t < msPerDay.
Proof. unfold TimeWithinDay, msPerDay. apply Z.mod_pos_bound. lia. Qed.

Lemma WeekDay_range t : 0 <= WeekDay t <= 6.
Proof. unfold WeekDay. zdiv. Qed.

(** [setDate] moves the local day and keeps the time of day. *)
Lemma setDate_eq tz t dt :
  setDate tz t dt
  = t + (dt - getDate tz t) * msPerDay.
Proof.
  unfold setDate, getDate, UTC, LocalTime, MakeDate.
  rewrite MakeDay_of_time. unfold Day, TimeWithinDay, msPerDay. zdiv.
Qed.

(** [startOfWeek] is local midnight of the Sunday on or before the date. *)
Lemma startOfWeek_eq tz d :
  startOfWeek tz d
  = (Day (LocalTime tz d) - WeekDay (LocalTime tz d)) * msPerDay - tz.
Proof.
  unfold startOfWeek, setHours. rewrite setDate_eq.
  unfold getDay, UTC, MakeDate, MakeTime.
  pose proof (WeekDay_range (LocalTime tz d)) as Hw.
  set (w := WeekDay (LocalTime tz d)) in *.
  replace (getDate tz d - w - getDate tz d) with (- w) by lia.
  unfold LocalTime, Day, msPerDay, msPerHour, msPerMinute, msPerSecond. zdiv.
Qed.

Lemma LocalTime_startOfWeek tz d :
  LocalTime tz (startOfWeek tz d)
  = (Day (LocalTime tz d) - WeekDay (LocalTime tz d)) * msPerDay.
Proof. rewrite startOfWeek_eq. unfold LocalTime. lia. Qed.

Lemma WeekDay_startOfWeek tz d : WeekDay (LocalTime tz (startOfWeek tz d)) = 0.
Proof.
  rewrite LocalTime_startOfWeek. unfold WeekDay, Day, msPerDay. zdiv.
Qed.

Lemma Day_startOfWeek tz d :
  Day (LocalTime tz (startOfWeek tz d))
  = Day (LocalTime tz d) - WeekDay (LocalTime tz d).
Proof. rewrite LocalTime_startOfWeek. unfold Day, msPerDay. zdiv. Qed.

Lemma startOfWeek_idempotent tz d :
  startOfWeek tz (startOfWeek tz d) = startOfWeek tz d.
Proof.
  rewrite (startOfWeek_eq tz (startOfWeek tz d)).
  rewrite WeekDay_startOfWeek, Day_startOfWeek, startOfWeek_eq. lia.
Qed.


(** ** The range of Date *)

Lemma TimeClip_Some t s :
  zone.TimeClip t = Some s ↔ s = t ∧ - zone.maxTime <= t <= zone.maxTime.
Proof.
  unfold zone.TimeClip. destruct (Z.leb_spec (Z.abs t) zone.maxTime) as [H|H].
  - split; [intros [= <-]; lia|by intros [-> _]].
  - split; [done|lia].
Qed.

Lemma TimeClip_None t :
  zone.TimeClip t = None ↔ t < - zone.maxTime ∨ zone.maxTime < t.
Proof.
  unfold zone.TimeClip. destruct (Z.leb_spec (Z.abs t) zone.maxTime) as [H|H].
  - split; [done|lia].
  - split; [lia|done].
Qed.

Lemma TimeClip_valid t :
  - zone.maxTime <= t <= zone.maxTime → zone.TimeClip t = Some t.
Proof. intros H. by apply TimeClip_Some. Qed.

(** In a zone with one offset the methods hold the time values of the
    other sections, clipped. *)
Lemma zone_getDay_fixed tz t : zone.getDay (zone.fixed tz) t = getDay tz t.
Proof. reflexivity. Qed.

Lemma zone_getDate_fixed tz t : zone.getDate (zone.fixed tz) t = getDate tz t.
Proof. reflexivity. Qed.

Lemma zone_getMonth_fixed tz t : zone.getMonth (zone.fixed tz) t = getMonth tz t.
Proof. reflexivity. Qed.

Lemma zone_getFullYear_fixed tz t :
  zone.getFullYear (zone.fixed tz) t = getFullYear tz t.
Proof. reflexivity. Qed.

Lemma zone_setDate_fixed tz t dt :
  zone.setDate (zone.fixed tz) t dt = zone.TimeClip (setDate tz t dt).
Proof. reflexivity. Qed.

Lemma zone_setHours_fixed tz t h m s ms :
  zone.setHours (zone.fixed tz) t h m s ms
  = zone.TimeClip (setHours tz t h m s ms).
Proof. reflexivity. Qed.

Lemma zone_setMonth_fixed tz t m :
  zone.setMonth (zone.fixed tz) t m = zone.TimeClip (setMonth tz t m).
Proof. reflexivity. Qed.


Lemma zone_startOfWeek_unfold tz d :
  zone.startOfWeek (zone.fixed tz) d
  = zone.TimeClip (setDate tz d (getDate tz d - getDay tz d))
      ≫= λ x, zone.TimeClip (setHours tz x 0 0 0 0).
Proof. reflexivity. Qed.

Lemma startOfWeek_unfold tz d :
  startOfWeek tz d
  = setHours tz (setDate tz d (getDate tz d - getDay tz d)) 0 0 0 0.
Proof. reflexivity. Qed.

Lemma startOfWeek_le tz d :
  startOfWeek tz d <= setDate tz d (getDate tz d - getDay tz d) <= d.
Proof.
  rewrite startOfWeek_eq, setDate_eq. unfold getDay.
  pose proof (WeekDay_range (LocalTime tz d)) as Hw.
  set (w := WeekDay (LocalTime tz d)) in *.
  unfold LocalTime, Day, msPerDay. zdiv.
Qed.

(** The week start of a date that is a time value some Date can hold or
    an earlier one: the week start of the other sections when a Date can
    hold it, and an Invalid Date when it is too early. *)
Lemma zone_startOfWeek_fixed tz d :
  d <= zone.maxTime →
  zone.startOfWeek (zone.fixed tz) d = zone.TimeClip (startOfWeek tz d).
Proof.
  intros Hd. rewrite zone_startOfWeek_unfold.
  pose proof (startOfWeek_le tz d) as Hle.
  rewrite (startOfWeek_unfold tz d) in Hle |- *.
  set (x := setDate tz d (getDate tz d - getDay tz d)) in *.
  destruct (zone.TimeClip x) as [x'|] eqn:Ex.
  - apply TimeClip_Some in Ex as [-> _]. reflexivity.
  - apply TimeClip_None in Ex. cbn [mbind option_bind].
    symmetry. apply TimeClip_None. lia.
Qed.

Lemma zone_startOfWeek_Some tz d s :
  zone.startOfWeek (zone.fixed tz) d = Some s →
  s = startOfWeek tz d ∧ - zone.maxTime <= s <= zone.maxTime.
Proof.
  rewrite zone_startOfWeek_unfold. intros H.
  apply bind_Some in H as (x & Hx & Hs).
  apply TimeClip_Some in Hx as [-> _].
  apply TimeClip_Some in Hs as [-> Hr]. by rewrite startOfWeek_unfold.
Qed.

Lemma zone_startOfWeek_idem tz d s :
  zone.startOfWeek (zone.fixed tz) d = Some s →
  zone.startOfWeek (zone.fixed tz) s = Some s.
Proof.
  intros H. apply zone_startOfWeek_Some in H as [E Hr].
  rewrite (zone_startOfWeek_fixed tz s) by lia.
  rewrite E, startOfWeek_idempotent, <- E. by apply TimeClip_valid.
Qed.




(** ** Week keys *)

Lemma sameWeekSpan_startOfWeek tz d1 d2 :
  sameWeekSpan tz d1 d2 ↔ startOfWeek tz d1 = startOfWeek tz d2.
Proof.
  rewrite !startOfWeek_eq. unfold sameWeekSpan, WeekDay.
  set (D1 := Day (LocalTime tz d1)). set (D2 := Day (LocalTime tz d2)).
  split.
  - intros (sun & Hs & H1 & H2). unfold msPerDay. zdiv.
  - intros H. exists (D1 - (D1 + 4) mod 7). unfold msPerDay in H. zdiv.
Qed.

Lemma isDigit_digit n : isDigit (digit n) = true.
Proof.
  unfold isDigit, digit. apply andb_true_iff.
  split; apply N.leb_le; zdiv.
Qed.

Lemma digitVal_digit n : digitVal (digit n) = n mod 10.
Proof. unfold digitVal, digit. zdiv. Qed.

Lemma toISOString_take10 t :
  0 <= YearFromTime t <= 9999 → take 10 (toISOString t) = isoDate t.
Proof.
  unfold YearFromTime, toISOString, isoDate, isoYear.
  destruct (civilFromDays (Day t)) as [[y m] d]. simpl fst.
  intros Hy.
  destruct (Z.leb_spec 0 y); [|lia]. destruct (Z.leb_spec y 9999); [|lia].
  reflexivity.
Qed.

Lemma parseYMD_isoDate t :
  0 <= YearFromTime t <= 9999 →
  parseYMD (isoDate t)
  = Some (YearFromTime t, MonthFromTime t + 1, DateFromTime t).
Proof.
  unfold YearFromTime, MonthFromTime, DateFromTime, isoDate.
  pose proof (civilFromDays_spec (Day t)) as H.
  destruct (civilFromDays (Day t)) as [[y m] d]. simpl fst; simpl snd.
  destruct H as (_ & Hm & Hd). intros Hy.
  assert (Hd31 : d <= 31).
  { unfold DaysInMonth in Hd.
    destruct (m =? 1); [destruct (InLeapYear y); lia|].
    destruct ((m =? 3) || (m =? 5) || (m =? 8) || (m =? 10)); lia. }
  cbn [padDigits app parseYMD forallb].
  rewrite !isDigit_digit, !N.eqb_refl. cbn [andb].
  rewrite !digitVal_digit. f_equal. apply triple_eq; zdiv.
Qed.

(** Within the four-digit years the ISO date determines the day. *)
Lemma isoDate_inj t1 t2 :
  0 <= YearFromTime t1 <= 9999 → 0 <= YearFromTime t2 <= 9999 →
  isoDate t1 = isoDate t2 → Day t1 = Day t2.
Proof.
  intros H1 H2 E.
  pose proof (parseYMD_isoDate t1 H1) as P1.
  pose proof (parseYMD_isoDate t2 H2) as P2.
  rewrite E, P2 in P1. injection P1 as Ey Em Ed.
  unfold YearFromTime, MonthFromTime, DateFromTime in *.
  pose proof (civilFromDays_spec (Day t1)) as S1.
  pose proof (civilFromDays_spec (Day t2)) as S2.
  destruct (civilFromDays (Day t1)) as [[y1 m1] dd1].
  destruct (civilFromDays (Day t2)) as [[y2 m2] dd2].
  cbn [fst snd] in *. destruct S1 as (S1 & _), S2 as (S2 & _).
  assert (m1 = m2) by lia. congruence.
Qed.

Lemma weekKey_sameWeekSpan tz d1 d2 :
  sameWeekSpan tz d1 d2 → weekKey tz d1 = weekKey tz d2.
Proof.
  intros H. apply sameWeekSpan_startOfWeek in H. unfold weekKey. by rewrite H.
Qed.

Lemma weekKey_isoDate tz d :
  0 <= YearFromTime (startOfWeek tz d) <= 9999 →
  weekKey tz d = isoDate (startOfWeek tz d).
Proof. intros H. unfold weekKey. by apply toISOString_take10. Qed.

Lemma weekKey_inj tz d1 d2 :
  0 <= YearFromTime (startOfWeek tz d1) <= 9999 →
  0 <= YearFromTime (startOfWeek tz d2) <= 9999 →
  weekKey tz d1 = weekKey tz d2 → sameWeekSpan tz d1 d2.
Proof.
  intros H1 H2 E. rewrite !weekKey_isoDate in E by done.
  apply isoDate_inj in E; [|done..].
  apply sameWeekSpan_startOfWeek.
  rewrite !startOfWeek_eq in *.
  set (K1 := Day (LocalTime tz d1) - WeekDay (LocalTime tz d1)) in *.
  set (K2 := Day (LocalTime tz d2) - WeekDay (LocalTime tz d2)) in *.
  unfold Day, msPerDay in *. zdiv.
Qed.

(** Week keys and week spans, with a fixed UTC offset: two dates in the
    same Sunday-to-Saturday span have the same week key; when the week
    starts of both dates lie in the years 0000 to 9999 of UTC the converse
    holds too, and the week key is the UTC date of [startOfWeek]. *)
Theorem weekKey_same_span (tz d1 d2 : Z) :
  (sameWeekSpan tz d1 d2 → weekKey tz d1 = weekKey tz d2) ∧
  (0 <= YearFromTime (startOfWeek tz d1) <= 9999 →
   0 <= YearFromTime (startOfWeek tz d2) <= 9999 →
   weekKey tz d1 = weekKey tz d2 → sameWeekSpan tz d1 d2) ∧
  (0 <= YearFromTime (startOfWeek tz d1) <= 9999 →
   weekKey tz d1 = isoDate (startOfWeek tz d1)).
Proof.
  split; [|split].
  - apply weekKey_sameWeekSpan.
  - apply weekKey_inj.
  - apply weekKey_isoDate.
Qed.

(** Two days of January 10000, a week apart, share the week key
    [+010000-01]. *)
Lemma weekKey_collision_year_10000 :
  weekKey 0 (newDate 0 10000 0 5) = weekKey 0 (newDate 0 10000 0 12) ∧
  ¬ sameWeekSpan 0 (newDate 0 10000 0 5) (newDate 0 10000 0 12).
Proof.
  split; [vm_compute; reflexivity|].
  intros (sun & _ & H1 & H2).
  assert (E1 : Day (LocalTime 0 (newDate 0 10000 0 5)) = 2932901)
    by (vm_compute; reflexivity).
  assert (E2 : Day (LocalTime 0 (newDate 0 10000 0 12)) = 2932908)
    by (vm_compute; reflexivity).
  rewrite E1 in H1. rewrite E2 in H2. lia.
Qed.

(** Wednesday 3 and Saturday 6 January 2024, one hour east of Greenwich. *)
Lemma weekKey_same_span_witness :
  sameWeekSpan utcPlus1 (newDate utcPlus1 2024 0 3) (newDate utcPlus1 2024 0 6)
  ∧ weekKey utcPlus1 (newDate utcPlus1 2024 0 3)
    = isoDate (startOfWeek utcPlus1 (newDate utcPlus1 2024 0 3)).
Proof.
  pose proof (weekKey_same_span utcPlus1 (newDate utcPlus1 2024 0 3)
                (newDate utcPlus1 2024 0 6)) as (_ & Hconv & Hiso).
  assert (E1 : YearFromTime (startOfWeek utcPlus1 (newDate utcPlus1 2024 0 3))
               = 2023) by (vm_compute; reflexivity).
  assert (E2 : YearFromTime (startOfWeek utcPlus1 (newDate utcPlus1 2024 0 6))
               = 2023) by (vm_compute; reflexivity).
  split.
  - apply Hconv; [rewrite E1; lia|rewrite E2; lia|vm_compute; reflexivity].
  - apply Hiso. rewrite E1. lia.
Defined.

(** C2 (the code departs from it): one hour east of Greenwich, the week of
    Wednesday 3 January 2024 starts on Sunday 31 December 2023 at local
    midnight, and its week key is [2023-12-30], the date of the Saturday
    before: [toISOString] writes the UTC date of the week start, which is
    not the date of the Sunday that [startOfWeek] returns. *)
Theorem weekKey_saturday_east_of_Greenwich :
  let d := newDate utcPlus1 2024 0 3 in
  let s := startOfWeek utcPlus1 d in
  zone.startOfWeek (zone.fixed utcPlus1) d = Some s ∧
  getDay utcPlus1 s = 0 ∧
  (getFullYear utcPlus1 s, getMonth utcPlus1 s, getDate utcPlus1 s)
  = (2023, 11, 31) ∧
  localDate utcPlus1 s = str "2023-12-31" ∧
  weekKey utcPlus1 d = str "2023-12-30" ∧
  zone.weekKey (zone.fixed utcPlus1) d = Some (str "2023-12-30") ∧
  weekKey utcPlus1 d ≠ localDate utcPlus1 s.
Proof.
  cbv zeta. repeat split; try (vm_compute; reflexivity).
  vm_compute. discriminate.
Qed.

(** ** Counting *)

Lemma filter_ext_in_bool {A} (f g : A → bool) (l : list A) :
  (∀ x, x ∈ l → f x = g x) → List.filter f l = List.filter g l.
Proof.
  induction l as [|x l IH]; intros H; [done|].
  cbn [List.filter]. rewrite (H x) by left.
  rewrite IH; [done|]. intros y Hy. apply H. by right.
Qed.

(** The loop of [dayCounts] started from any counters. *)
Lemma dayCounts_foldl tz po state date (l : list Habit) (c0 : Counts) :
  foldl
    (λ (c : Counts) (h : Habit),
       let created := Date_parse po (createdAt h) in
       if dateLe created date then
         {| total := S (total c);
            done :=
              match checkAt (checks state) (id h) (weekKey tz date)
                            (numberKey (getDay tz date)) with
              | Some true => S (done c)
              | _ => done c
              end |}
       else c)
    c0 l
  = {| done :=
         (done c0
          + length (List.filter
                      (λ h, isActive po h date && isChecked tz state h date) l))%nat;
       total := (total c0 + length (List.filter (λ h, isActive po h date) l))%nat |}.
Proof.
  revert c0. induction l as [|h l IH]; intros c0.
  - destruct c0. simpl. f_equal; lia.
  - cbn [foldl List.filter]. rewrite IH. unfold isActive, isChecked.
    destruct (dateLe (Date_parse po (createdAt h)) date);
      [destruct (checkAt (checks state) (id h) (weekKey tz date)
                   (numberKey (getDay tz date))) as [[|]|]|];
      cbn [andb done total length]; f_equal; lia.
Qed.

(** [dayCounts] counts the habits that pass its test [created <= date], and
    among them those whose check entry for the date is true. *)
Lemma dayCounts_counts tz po state date :
  dayCounts tz po state date
  = {| done :=
         length (List.filter
                   (λ h, isActive po h date && isChecked tz state h date)
                   (habits state));
       total := length (List.filter (λ h, isActive po h date) (habits state)) |}.
Proof. unfold dayCounts. cbv zeta. by rewrite dayCounts_foldl. Qed.

Lemma dayCounts_done_le_total tz po state date :
  (done (dayCounts tz po state date) <= total (dayCounts tz po state date))%nat.
Proof.
  rewrite dayCounts_counts. cbn [done total].
  induction (habits state) as [|h l IH]; [done|].
  cbn [List.filter]. destruct (isActive po h date); cbn [andb]; [|done].
  destruct (isChecked tz state h date); cbn [length]; lia.
Qed.

(** A habit that fails the test contributes to neither counter. *)
Lemma dayCounts_skip tz po (h : Habit) hs cs date :
  isActive po h date = false →
  dayCounts tz po {| habits := h :: hs; checks := cs |} date
  = dayCounts tz po {| habits := hs; checks := cs |} date.
Proof.
  intros H. rewrite !dayCounts_counts. cbn [habits List.filter].
  by rewrite H.
Qed.

(** At or west of Greenwich (and less than a day away from it) the test of
    [dayCounts] on a query at local midnight compares calendar days. *)
Lemma isActive_calendar tz po h date :
  - msPerDay < tz <= 0 →
  TimeWithinDay (LocalTime tz date) = 0 →
  is_Some (createdDay h) →
  isActive po h date = createdOnOrBefore tz h date.
Proof.
  unfold isActive, createdOnOrBefore, createdDay, Date_parse, calendarDay.
  intros Htz Hmid [c Hc].
  destruct (parseYMD (createdAt h)) as [[[y m] d]|]; [|done].
  destruct ((1 <=? m) && (m <=? 12) && (1 <=? d) && (d <=? DaysInMonth y (m - 1)))
    eqn:Hv; [|done].
  assert (Hm : 0 <= m - 1 <= 11).
  { rewrite !andb_true_iff, !Z.leb_le in Hv. lia. }
  unfold dateLe. rewrite (MakeDay_civil y (m - 1) d d Hm).
  unfold MakeDate, LocalTime, TimeWithinDay, Day, msPerDay in *.
  set (k := daysFromCivil y (m - 1) d).
  apply eq_true_iff_eq. rewrite !Z.leb_le. zdiv.
Qed.

(** East or west of Greenwich by less than a day, a habit whose calendar
    day comes after the one of a local-midnight query fails the test. *)
Lemma isActive_false_calendar tz po h date c :
  - msPerDay < tz < msPerDay →
  TimeWithinDay (LocalTime tz date) = 0 →
  createdDay h = Some c → calendarDay tz date < c →
  isActive po h date = false.
Proof.
  unfold isActive, createdDay, Date_parse, calendarDay.
  intros Htz Hmid Hc Hlt.
  destruct (parseYMD (createdAt h)) as [[[y m] d]|]; [|done].
  destruct ((1 <=? m) && (m <=? 12) && (1 <=? d) && (d <=? DaysInMonth y (m - 1)))
    eqn:Hv; [|done].
  assert (Hm : 0 <= m - 1 <= 11).
  { rewrite !andb_true_iff, !Z.leb_le in Hv. lia. }
  injection Hc as <-.
  unfold dateLe. rewrite (MakeDay_civil y (m - 1) d d Hm).
  unfold MakeDate, LocalTime, TimeWithinDay, Day, msPerDay in *.
  set (k := daysFromCivil y (m - 1) d) in *.
  apply Z.leb_gt. zdiv.
Qed.

(** Where the claim of C1 holds: at or west of Greenwich, for a query at
    local midnight and habits whose [createdAt] is a calendar date,
    [dayCounts] counts the habits created on or before the calendar day of
    the query, and among them the checked ones. *)
Lemma dayCounts_calendar tz po state date :
  - msPerDay < tz <= 0 →
  TimeWithinDay (LocalTime tz date) = 0 →
  (∀ h, h ∈ habits state → is_Some (createdDay h)) →
  dayCounts tz po state date
  = {| done :=
         length (List.filter
                   (λ h, createdOnOrBefore tz h date
                         && isChecked tz state h date)
                   (habits state));
       total :=
         length (List.filter (λ h, createdOnOrBefore tz h date)
                   (habits state)) |}.
Proof.
  intros Htz Hmid Hvalid. rewrite dayCounts_counts.
  rewrite (filter_ext_in_bool
             (λ h, isActive po h date && isChecked tz state h date)
             (λ h, createdOnOrBefore tz h date && isChecked tz state h date)).
  - rewrite (filter_ext_in_bool (λ h, isActive po h date)
               (λ h, createdOnOrBefore tz h date)); [done|].
    intros h Hh. by apply isActive_calendar; [| |apply Hvalid].
  - intros h Hh. f_equal. by apply isActive_calendar; [| |apply Hvalid].
Qed.

(** C1 (the code departs from it): one hour east of Greenwich the habit
    created on 2024-01-03 exists by the calendar day of the query for
    3 January 2024, and [dayCounts] counts no habit for that day; with the
    check of that day set it still reports nothing done. *)
Theorem dayCounts_creation_day_east_of_Greenwich (po : ustring → option Z) :
  let date := newDate utcPlus1 2024 0 3 in
  let checked :=
    toggleCheck docRead (id habitRead) (weekKey utcPlus1 date)
                (getDay utcPlus1 date) true in
  createdOnOrBefore utcPlus1 habitRead date = true ∧
  dayCounts utcPlus1 po docRead date = {| done := 0; total := 0 |} ∧
  isChecked utcPlus1 checked habitRead date = true ∧
  dayCounts utcPlus1 po checked date = {| done := 0; total := 0 |}.
Proof. repeat split; vm_compute; reflexivity. Qed.

(** ** Deleting a habit *)

Lemma checkAt_delete_ne cs (i j wk k : ustring) :
  j ≠ i → checkAt (delete i cs) j wk k = checkAt cs j wk k.
Proof. intros H. unfold checkAt. by rewrite lookup_delete_ne. Qed.

Lemma filter_ne_bool (i : ustring) (f : Habit → bool) (l : list Habit) :
  List.filter f (filter (λ h, id h ≠ i) l)
  = List.filter (λ h, bool_decide (id h ≠ i) && f h) l.
Proof.
  induction l as [|h l IH]; [done|].
  rewrite filter_cons. cbn [List.filter].
  destruct (decide (id h ≠ i)) as [Hn|Hn].
  - rewrite (bool_decide_eq_true_2 _ Hn). cbn [List.filter andb].
    by rewrite IH.
  - by rewrite (bool_decide_eq_false_2 _ Hn).
Qed.

(** C7: deleting a habit removes every habit with that id from [habits]
    (the others stay, in order) and the whole subtree of that id from
    [checks], and every later [dayCounts] counts the remaining habits only,
    with their own check entries. *)
Theorem deleteHabit_removes (tz : Z) (po : ustring → option Z)
  (state : Document) (i : ustring) :
  habits (deleteHabit state i) = filter (λ h, id h ≠ i) (habits state) ∧
  (i ∉ habitIds (deleteHabit state i)) ∧
  (checks (deleteHabit state i)) !! i = None ∧
  (∀ wk k, checkAt (checks (deleteHabit state i)) i wk k = None) ∧
  (∀ j wk k, j ≠ i →
     checkAt (checks (deleteHabit state i)) j wk k
     = checkAt (checks state) j wk k) ∧
  ∀ date,
    dayCounts tz po (deleteHabit state i) date
    = {| done :=
           length (List.filter
                     (λ h, bool_decide (id h ≠ i)
                           && (isActive po h date && isChecked tz state h date))
                     (habits state));
         total :=
           length (List.filter
                     (λ h, bool_decide (id h ≠ i) && isActive po h date)
                     (habits state)) |}.
Proof.
  split; [done|]. split; [|split; [|split; [|split]]].
  - unfold habitIds, deleteHabit. cbn [habits].
    intros (h & Hi & Hh)%list_elem_of_fmap.
    apply list_elem_of_filter in Hh as [Hne _]. by apply Hne.
  - apply lookup_delete_eq.
  - intros wk k. unfold checkAt, deleteHabit. cbn [checks].
    by rewrite lookup_delete_eq.
  - intros j wk k Hj. by apply checkAt_delete_ne.
  - intros date. rewrite dayCounts_counts.
    change (habits (deleteHabit state i))
      with (filter (λ h, id h ≠ i) (habits state)).
    rewrite !filter_ne_bool. f_equal. f_equal.
    apply filter_ext_in_bool. intros h _.
    destruct (decide (id h ≠ i)) as [Hn|Hn].
    + rewrite (bool_decide_eq_true_2 _ Hn). cbn [andb]. f_equal.
      unfold isChecked, deleteHabit. cbn [checks].
      by rewrite checkAt_delete_ne.
    + by rewrite (bool_decide_eq_false_2 _ Hn).
Qed.

(** ** No active habit *)

(** C8: when no habit is active on the date, [dayCounts] returns no habit
    done out of none, and the percentage derived from it is the number 0.
    "No habit is active" is read in both ways: no habit passes the test
    [created <= date] of the code; or, for a query at local midnight less
    than a day away from UTC, every habit was created on a calendar day
    after the one of the query. *)
Theorem dayCounts_none_active (tz : Z) (po : ustring → option Z)
  (state : Document) (date : Z) :
  ((∀ h, h ∈ habits state → isActive po h date = false) →
   dayCounts tz po state date = {| done := 0; total := 0 |} ∧
   ratio (dayCounts tz po state date) = 0%Q) ∧
  (- msPerDay < tz < msPerDay →
   TimeWithinDay (LocalTime tz date) = 0 →
   (∀ h, h ∈ habits state →
      ∃ c, createdDay h = Some c ∧ calendarDay tz date < c) →
   dayCounts tz po state date = {| done := 0; total := 0 |} ∧
   ratio (dayCounts tz po state date) = 0%Q).
Proof.
  assert (Hcode : (∀ h, h ∈ habits state → isActive po h date = false) →
                  dayCounts tz po state date = {| done := 0; total := 0 |} ∧
                  ratio (dayCounts tz po state date) = 0%Q).
  { intros H.
    assert (E : dayCounts tz po state date = {| done := 0; total := 0 |}).
    { rewrite dayCounts_counts.
      assert (Hnil : ∀ l : list Habit, List.filter (λ _, false) l = []).
      { intros l. induction l; [done|]. by cbn [List.filter]. }
      rewrite (filter_ext_in_bool _ (λ _, false)).
      - rewrite (filter_ext_in_bool (λ h, isActive po h date) (λ _, false))
          by done.
        by rewrite Hnil.
      - intros h Hh. by rewrite (H h Hh). }
    split; [exact E|]. by rewrite E. }
  split; [exact Hcode|].
  intros Htz Hmid Hafter. apply Hcode. intros h Hh.
  destruct (Hafter h Hh) as (c & Hc & Hlt).
  by apply (isActive_false_calendar tz po h date c).
Qed.

(** Monday 1 January 2024, two days before the habit was created. *)
Lemma dayCounts_none_active_witness :
  dayCounts utcPlus1 noOtherFormats docRead (newDate utcPlus1 2024 0 1)
  = {| done := 0; total := 0 |} ∧
  ratio (dayCounts utcPlus1 noOtherFormats docRead (newDate utcPlus1 2024 0 1))
  = 0%Q.
Proof.
  destruct (dayCounts_none_active utcPlus1 noOtherFormats docRead
              (newDate utcPlus1 2024 0 1)) as [_ H].
  apply H.
  - vm_compute. split; reflexivity.
  - vm_compute. reflexivity.
  - intros h Hh. apply list_elem_of_singleton in Hh. subst h.
    exists 19725. split; vm_compute; reflexivity.
Defined.

(** The scenario of the specification, at Greenwich and five hours west of
    it: nothing is counted two days before the habit was created; on the
    day it was created it counts as not done; once its check for that day
    is set it counts as done, and the percentage is 1. *)
Lemma scenario_read_habit (tz : Z) :
  tz = 0 ∨ tz = -18000000 →
  let day3 := newDate tz 2024 0 3 in
  let checked :=
    toggleCheck docRead (id habitRead) (weekKey tz day3) (getDay tz day3) true in
  dayCounts tz noOtherFormats docRead (newDate tz 2024 0 1)
  = {| done := 0; total := 0 |} ∧
  dayCounts tz noOtherFormats docRead day3 = {| done := 0; total := 1 |} ∧
  dayCounts tz noOtherFormats checked day3 = {| done := 1; total := 1 |} ∧
  ratio (dayCounts tz noOtherFormats checked day3) = 1%Q.
Proof. intros [-> | ->]; repeat split; vm_compute; reflexivity. Qed.

(** ** Toggling a check *)

Lemma numberKey_digit d : 0 <= d <= 9 → numberKey d = [digit d].
Proof.
  intros H. unfold numberKey.
  destruct (Z.ltb_spec d 0); [lia|].
  cbn [decDigits]. by rewrite (Z.div_small d 10), Z.eqb_refl by lia.
Qed.

(** Distinct day indices (0..6) are distinct property keys. *)
Lemma numberKey_inj_day d1 d2 :
  0 <= d1 <= 6 → 0 <= d2 <= 6 → numberKey d1 = numberKey d2 → d1 = d2.
Proof.
  intros H1 H2. rewrite !numberKey_digit by lia. unfold digit.
  intros [= E]. zdiv.
Qed.

Lemma Document_eq (a b : Document) :
  habits a = habits b → checks a = checks b → a = b.
Proof. destruct a, b. cbn. by intros -> ->. Qed.

Lemma inherited_spec (k : ustring) :
  inherited k = true ↔ k ∈ objectPrototypeNames.
Proof. unfold inherited. apply bool_decide_eq_true. Qed.

(** A name of [Object.prototype] begins with a letter or an underscore. *)
Lemma inherited_head (c : N) (r : ustring) :
  (isDigit c || (c =? 43) || (c =? 45))%N = true → inherited (c :: r) = false.
Proof.
  intros H. apply bool_decide_eq_false. intros Hin.
  unfold objectPrototypeNames in Hin.
  repeat (apply elem_of_cons in Hin as [Hin|Hin];
          [cbv in Hin; injection Hin as -> _; discriminate H|]).
  by apply elem_of_nil in Hin.
Qed.

Lemma isoYear_head y :
  ∃ c r, isoYear y = c :: r ∧ (isDigit c || (c =? 43) || (c =? 45))%N = true.
Proof.
  unfold isoYear. destruct ((0 <=? y) && (y <=? 9999)).
  - cbn [padDigits app]. eexists _, _. split; [reflexivity|].
    by rewrite isDigit_digit.
  - destruct (y <? 0); eexists _, _; (split; [reflexivity|done]).
Qed.

(** A week key begins with a digit or a sign: no week key is a name of
    [Object.prototype]. *)
Lemma weekKey_not_inherited tz d : inherited (weekKey tz d) = false.
Proof.
  unfold weekKey, toISOString.
  destruct (civilFromDays (Day (startOfWeek tz d))) as [[y m] dd].
  destruct (isoYear_head y) as (c & r & -> & Hc). cbn [app take].
  by apply inherited_head.
Qed.

Lemma toggleCheck_habits state (i wk : ustring) day b :
  habits (toggleCheck state i wk day b) = habits state.
Proof.
  unfold toggleCheck.
  destruct (checks state !! i) as [bw|] eqn:Ei; cbv beta iota zeta.
  - rewrite ?Ei. by destruct (bw !! wk), (inherited wk).
  - destruct (inherited i); [done|].
    rewrite lookup_insert_eq, lookup_empty. by destruct (inherited wk).
Qed.

(** The document a toggle leaves when both reads find own properties or
    nothing, from the maps there were under its keys. *)
Lemma toggleCheck_plain state (i wk : ustring) day b :
  plainId state i → inherited wk = false →
  toggleCheck state i wk day b
  = {| habits := habits state;
       checks :=
         let byWeek :=
           match checks state !! i with Some m => m | None => ∅ end in
         let byDay := match byWeek !! wk with Some m => m | None => ∅ end in
         <[i := <[wk := <[numberKey day := b]> byDay]> byWeek]> (checks state) |}.
Proof.
  intros Hi Hw. unfold toggleCheck.
  destruct (checks state !! i) as [bw|] eqn:Ei; cbv beta iota zeta.
  - rewrite ?Ei. destruct (bw !! wk) as [bd|] eqn:Ew; cbv beta iota zeta.
    + rewrite ?Ew. reflexivity.
    + rewrite Hw, lookup_insert_eq. rewrite insert_insert_eq. reflexivity.
  - destruct Hi as [[bw Hbw]|Hi]; [congruence|]. rewrite Hi.
    rewrite lookup_insert_eq, lookup_empty, Hw, lookup_insert_eq.
    rewrite !insert_insert_eq. reflexivity.
Qed.

Lemma toggleCheck_checks state (i wk : ustring) d b :
  plainId state i → inherited wk = false →
  checks (toggleCheck state i wk d b)
  = let byWeek := match checks state !! i with Some m => m | None => ∅ end in
    let byDay := match byWeek !! wk with Some m => m | None => ∅ end in
    <[i := <[wk := <[numberKey d := b]> byDay]> byWeek]> (checks state).
Proof. intros Hi Hw. by rewrite (toggleCheck_plain state i wk d b Hi Hw). Qed.

(** The id of a toggle that found or made its entry has an entry. *)
Lemma toggleCheck_plainId state (i wk : ustring) d b (j : ustring) :
  plainId state j → plainId (toggleCheck state i wk d b) j.
Proof.
  intros [[bw Hj]|Hj]; [|by right]. left.
  unfold toggleCheck.
  destruct (checks state !! i) as [bwi|] eqn:Ei; cbv beta iota zeta.
  - rewrite ?Ei.
    assert (H : ∀ m, is_Some (<[i := m]> (checks state) !! j)).
    { intros m. destruct (decide (i = j)) as [->|Hne].
      - rewrite lookup_insert_eq. by eexists.
      - rewrite lookup_insert_ne by done. by eexists. }
    destruct (bwi !! wk), (inherited wk); cbn [checks]; try apply H.
    by eexists.
  - destruct (inherited i); [by eexists|].
    assert (H : ∀ m m', is_Some (<[i := m]> (<[i := m']> (checks state)) !! j)).
    { intros m m'. destruct (decide (i = j)) as [->|Hne].
      - rewrite lookup_insert_eq. by eexists.
      - rewrite !lookup_insert_ne by done. by eexists. }
    rewrite lookup_insert_eq, lookup_empty.
    destruct (inherited wk); cbn [checks]; [|apply H].
    destruct (decide (i = j)) as [->|Hne].
    + rewrite lookup_insert_eq. by eexists.
    + rewrite lookup_insert_ne by done. by eexists.
Qed.

Lemma toggleCheck_at state i wk day b :
  plainId state i → inherited wk = false →
  checkAt (checks (toggleCheck state i wk day b)) i wk (numberKey day) = Some b.
Proof.
  intros Hi Hw. rewrite (toggleCheck_checks state i wk day b Hi Hw).
  unfold checkAt. cbv zeta. by rewrite !lookup_insert_eq.
Qed.

(** With an id that [Object.prototype] provides and that has no entry in
    [checks], the toggle leaves the document as it is. *)
Lemma toggleCheck_inherited state (i wk : ustring) day b :
  checks state !! i = None → inherited i = true →
  toggleCheck state i wk day b = state.
Proof. intros Hi Hn. unfold toggleCheck. by rewrite Hi, Hn. Qed.

Lemma checkAt_insert_empty cs (i i' wk' k' : ustring) :
  cs !! i = None → checkAt (<[i := ∅]> cs) i' wk' k' = checkAt cs i' wk' k'.
Proof.
  intros Hi. unfold checkAt. destruct (decide (i' = i)) as [->|Hne].
  - by rewrite lookup_insert_eq, lookup_empty, Hi.
  - by rewrite lookup_insert_ne.
Qed.

Lemma toggleCheck_other state i wk day b (i' wk' k' : ustring) :
  (i', wk', k') ≠ (i, wk, numberKey day) →
  checkAt (checks (toggleCheck state i wk day b)) i' wk' k'
  = checkAt (checks state) i' wk' k'.
Proof.
  intros Hne. unfold toggleCheck.
  destruct (checks state !! i) as [bw|] eqn:Ei; cbv beta iota zeta.
  - rewrite ?Ei. destruct (bw !! wk) as [bd|] eqn:Ew; cbv beta iota zeta.
    + rewrite ?Ew. cbn [checks]. unfold checkAt.
      destruct (decide (i' = i)) as [->|Hi]; [|by rewrite lookup_insert_ne].
      rewrite lookup_insert_eq, ?Ei.
      destruct (decide (wk' = wk)) as [->|Hw]; [|by rewrite lookup_insert_ne].
      rewrite lookup_insert_eq, ?Ew.
      rewrite lookup_insert_ne by congruence. done.
    + destruct (inherited wk); [done|].
      rewrite lookup_insert_eq. cbn [checks]. unfold checkAt.
      destruct (decide (i' = i)) as [->|Hi]; [|by rewrite lookup_insert_ne].
      rewrite lookup_insert_eq, ?Ei.
      destruct (decide (wk' = wk)) as [->|Hw].
      * rewrite lookup_insert_eq, ?Ew.
        rewrite lookup_insert_ne by congruence. done.
      * by rewrite !lookup_insert_ne.
  - destruct (inherited i); [done|].
    rewrite lookup_insert_eq, lookup_empty.
    destruct (inherited wk); cbn [checks].
    + by apply checkAt_insert_empty.
    + rewrite lookup_insert_eq. unfold checkAt.
      destruct (decide (i' = i)) as [->|Hi].
      * rewrite lookup_insert_eq, ?Ei.
        destruct (decide (wk' = wk)) as [->|Hw].
        -- rewrite lookup_insert_eq. rewrite lookup_insert_ne by congruence.
           done.
        -- by rewrite !lookup_insert_ne.
      * by rewrite !lookup_insert_ne.
Qed.

(** On a page whose built-in objects are as the browser made them, the
    reads of the code find what the document holds. *)
Lemma page_read_clean state (i wk k : ustring) :
  page.read (page.clean state) i wk k = checkAt (checks state) i wk k.
Proof.
  unfold page.read, page.readId, page.clean, checkAt.
  cbn [page.document page.prototypeProps page.functionProps].
  destruct (checks state !! i) as [bw|].
  - cbn [page.ownWeek]. destruct (bw !! wk); [done|]. by rewrite lookup_empty.
  - destruct (decide (i = str "__proto__")).
    + cbn [page.ownWeek]. by rewrite lookup_empty.
    + destruct (inherited i).
      * cbn [page.ownWeek page.functionProps]. rewrite lookup_empty.
        cbn. by rewrite lookup_empty.
      * by rewrite lookup_empty.
Qed.

(** There, the assignments of a toggle that finds own properties or nothing
    change the document as [toggleCheck] says and no other object. *)
Lemma page_assign_clean state (i wk : ustring) day b :
  plainId state i → inherited wk = false →
  page.assign (page.clean state) i wk (numberKey day) b
  = page.clean (toggleCheck state i wk day b).
Proof.
  intros Hi Hw. rewrite (toggleCheck_plain state i wk day b Hi Hw).
  unfold page.assign, page.readId, page.clean. cbv zeta.
  cbn [page.document page.prototypeProps page.functionProps].
  destruct (checks state !! i) as [bw|] eqn:Ei.
  - cbn [page.ownWeek]. destruct (bw !! wk) as [bd|] eqn:Ew.
    + reflexivity.
    + rewrite lookup_empty. cbn [page.setOwnWeek page.document
        page.prototypeProps page.functionProps].
      by rewrite insert_empty.
  - destruct Hi as [[bw Hbw]|Hi]; [congruence|].
    assert (Hp : i ≠ str "__proto__").
    { intros ->. vm_compute in Hi. discriminate Hi. }
    destruct (decide (i = str "__proto__")); [done|]. rewrite Hi.
    rewrite !lookup_empty. cbn [page.ownWeek]. rewrite ?lookup_empty.
    cbn [page.setOwnWeek page.document page.prototypeProps
         page.functionProps].
    by rewrite !insert_empty.
Qed.

(** With an id that [Object.prototype] provides and that has no entry in
    [checks], the assignments leave the document as it is and put the check
    on the built-in object, where a read with that id finds it. *)
Lemma page_assign_inherited state (i wk k : ustring) b :
  checks state !! i = None → inherited i = true →
  page.document (page.assign (page.clean state) i wk k b) = state ∧
  page.read (page.assign (page.clean state) i wk k b) i wk k = Some b.
Proof.
  intros Hi Hn. unfold page.assign, page.read, page.readId, page.clean.
  cbv zeta. cbn [page.document page.prototypeProps page.functionProps].
  rewrite Hi, Hn.
  destruct (decide (i = str "__proto__")) as [->|Hp].
  - cbn [page.ownWeek]. rewrite lookup_empty.
    cbn [page.setOwnWeek page.document page.prototypeProps
         page.functionProps].
    rewrite Hi. 
    cbn [page.ownWeek]. rewrite lookup_insert_eq. cbn [page.days].
    by rewrite lookup_singleton_eq.
  - cbn [page.ownWeek page.functionProps]. rewrite lookup_empty.
    cbn [mbind option_bind]. rewrite lookup_empty.
    cbn [page.setOwnWeek page.document page.prototypeProps
         page.functionProps].
    rewrite Hi. 
    cbn [page.ownWeek page.functionProps].
    rewrite lookup_insert_eq. cbn [mbind option_bind].
    rewrite lookup_insert_eq. by rewrite lookup_singleton_eq.
Qed.

(** C10, as amended: a check-toggle whose id has an entry in [checks] or is
    not a name that [Object.prototype] provides, in a week whose key is not
    such a name (no key that [weekKey] makes is one), changes the document
    and no other object of the page; it leaves the habits as they are, sets
    the entry of its own triple, and leaves the entry of every other triple
    of keys as it was, absent ones absent, also as the code reads them;
    distinct day indices are distinct keys. *)
Theorem toggleCheck_frame (state : Document) (i wk : ustring) (day : Z)
  (b : bool) :
  plainId state i → inherited wk = false →
  let state' := toggleCheck state i wk day b in
  page.assign (page.clean state) i wk (numberKey day) b = page.clean state' ∧
  habits state' = habits state ∧
  checkAt (checks state') i wk (numberKey day) = Some b ∧
  (∀ i' wk' k',
     (i', wk', k') ≠ (i, wk, numberKey day) →
     checkAt (checks state') i' wk' k' = checkAt (checks state) i' wk' k') ∧
  (∀ i' tz' d' k',
     (i', weekKey tz' d', k') ≠ (i, wk, numberKey day) →
     page.read (page.clean state') i' (weekKey tz' d') k'
     = page.read (page.clean state) i' (weekKey tz' d') k') ∧
  (∀ i' wk' day',
     0 <= day <= 6 → 0 <= day' <= 6 → (i', wk', day') ≠ (i, wk, day) →
     checkAt (checks state') i' wk' (numberKey day')
     = checkAt (checks state) i' wk' (numberKey day')) ∧
  (∀ tz d, inherited (weekKey tz d) = false).
Proof.
  intros Hi Hw. cbv zeta.
  split; [by apply page_assign_clean|].
  split; [apply toggleCheck_habits|].
  split; [by apply toggleCheck_at|]. split; [|split; [|split]].
  - intros i' wk' k' Hne. by apply toggleCheck_other.
  - intros i' tz' d' k' Hne. rewrite !page_read_clean.
    by apply toggleCheck_other.
  - intros i' wk' day' Hd Hd' Hne. apply toggleCheck_other.
    intros [= -> -> Hk]. apply Hne.
    by rewrite (numberKey_inj_day day' day Hd' Hd Hk).
  - apply weekKey_not_inherited.
Qed.

(** A toggle with the id [__proto__], which the page offers once a stored
    document has a habit of that id, leaves the document as it is and turns
    the entry of another habit for the same week and day from absent to
    true, as [dayCounts] reads it: the check lands on [Object.prototype],
    where the read for every id with an entry in [checks] finds it. *)
Lemma toggle_proto_changes_other_ids :
  let state :=
    {| habits := [habitRead]; checks := {[id habitRead := ∅]} |} in
  let before := page.clean state in
  let after :=
    (page.onCheckboxChange 0 before ∅ 1704240000000 (str "__proto__") 3
       true).1 in
  id habitRead ≠ str "__proto__" ∧
  page.document after = state ∧
  page.read before (id habitRead) (weekKey 0 1704240000000) (numberKey 3)
  = None ∧
  page.read after (id habitRead) (weekKey 0 1704240000000) (numberKey 3)
  = Some true ∧
  page.isChecked 0 before habitRead 1704240000000 = false ∧
  page.isChecked 0 after habitRead 1704240000000 = true.
Proof.
  cbv zeta. split; [discriminate|]. repeat split; vm_compute; reflexivity.
Qed.

(** The toggle of Wednesday of the habit of the sample document. *)
Lemma toggleCheck_frame_witness :
  checkAt (checks (toggleCheck docRead (id habitRead) (str "2023-12-31") 3
                     true))
          (id habitRead) (str "2023-12-31") (numberKey 3)
  = Some true.
Proof.
  destruct (toggleCheck_frame docRead (id habitRead) (str "2023-12-31") 3 true)
    as (_ & _ & H & _).
  - right. vm_compute. reflexivity.
  - vm_compute. reflexivity.
  - exact H.
Defined.

(** ** Ids that are not in the habits list *)

(** C6, as amended: for an id that is not in the habits list, a delete
    leaves the habits as they are and removes only what [checks] holds
    under that id, so the document is unchanged when [checks] holds nothing
    under it; a check-toggle leaves the habits as they are; it does record
    the check under that id when the id has an entry in [checks] or is not
    a name that [Object.prototype] provides; with such a name and no entry
    it leaves the document unchanged and puts the check on the built-in
    object of that name. *)
Theorem absent_id_operations (state : Document) (i : ustring) :
  i ∉ habitIds state →
  habits (deleteHabit state i) = habits state ∧
  checks (deleteHabit state i) = delete i (checks state) ∧
  ((checks state) !! i = None → deleteHabit state i = state) ∧
  (∀ wk day b,
     habits (toggleCheck state i wk day b) = habits state ∧
     (plainId state i → inherited wk = false →
      checkAt (checks (toggleCheck state i wk day b)) i wk (numberKey day)
      = Some b ∧
      page.assign (page.clean state) i wk (numberKey day) b
      = page.clean (toggleCheck state i wk day b)) ∧
     (checks state !! i = None → inherited i = true →
      toggleCheck state i wk day b = state)) ∧
  (∀ tz ws day b,
     checks state !! i = None → inherited i = true →
     let after :=
       (page.onCheckboxChange tz (page.clean state) ∅ ws i day b).1 in
     page.document after = state ∧
     page.read after i (weekKey tz ws) (numberKey day) = Some b).
Proof.
  intros Hi.
  assert (Hf : filter (λ h, id h ≠ i) (habits state) = habits state).
  { unfold habitIds in Hi. induction (habits state) as [|h l IH]; [done|].
    rewrite filter_cons. cbn [map] in Hi.
    apply not_elem_of_cons in Hi as [Hh Hl].
    destruct (decide (id h ≠ i)) as [_|Hn]; [by rewrite IH|].
    by destruct Hn. }
  split; [exact Hf|]. split; [done|]. split; [|split].
  - intros Hc. unfold deleteHabit. rewrite Hf, delete_id by done.
    by destruct state.
  - intros wk day b. split; [apply toggleCheck_habits|]. split.
    + intros Hp Hw. split; [by apply toggleCheck_at|].
      by apply page_assign_clean.
    + intros Hc Hn. by apply toggleCheck_inherited.
  - intros tz ws day b Hc Hn. cbv zeta.
    unfold page.onCheckboxChange. cbv zeta. cbn [fst].
    by apply page_assign_inherited.
Qed.

(** A toggle with an id that is in no habit changes the empty document. *)
Lemma toggleCheck_absent_id_changes :
  (str "ghost" ∉ habitIds emptyDocument) ∧
  toggleCheck emptyDocument (str "ghost") (str "2023-12-31") 0 true
  ≠ emptyDocument.
Proof.
  split.
  - unfold habitIds, emptyDocument. cbn [habits map]. apply not_elem_of_nil.
  - intros H.
    pose proof (toggleCheck_at emptyDocument (str "ghost") (str "2023-12-31")
                  0 true) as Hat.
    rewrite H in Hat. unfold checkAt, emptyDocument in Hat. cbn [checks] in Hat.
    rewrite lookup_empty in Hat.
    by discriminate Hat; [right; vm_compute|vm_compute].
Qed.

Lemma absent_id_operations_witness :
  habits (deleteHabit docRead (str "ghost")) = habits docRead ∧
  checkAt (checks (toggleCheck docRead (str "ghost") (str "2023-12-31") 3
                     true))
          (str "ghost") (str "2023-12-31") (numberKey 3)
  = Some true.
Proof.
  destruct (absent_id_operations docRead (str "ghost"))
    as (Hd & _ & _ & Ht & _).
  - unfold habitIds, docRead. cbn [habits map].
    intros H. apply list_elem_of_singleton in H. vm_compute in H.
    discriminate H.
  - split; [exact Hd|].
    destruct (Ht (str "2023-12-31") 3 true) as (_ & Hp & _).
    apply Hp; [right|]; vm_compute; reflexivity.
Defined.

(** ** The month calendar *)

(** The year a [Date] constructor call denotes. *)
Lemma newDate_eq tz y m d :
  newDate tz y m d
  = MakeDay (if (0 <=? y) && (y <=? 99) then 1900 + y else y) m d * msPerDay
    - tz.
Proof. unfold newDate, UTC, MakeDate, MakeTime. lia. Qed.

Lemma MakeDay_month yr m d :
  0 <= m <= 11 → MakeDay yr m d = daysFromCivil yr m d.
Proof. intros Hm. rewrite (MakeDay_civil yr m d d Hm). lia. Qed.

(** The day before the first of the next month is the last of this one. *)
Lemma MakeDay_next_month_0 yr m :
  0 <= m <= 11 →
  MakeDay yr (m + 1) 0 = daysFromCivil yr m (DaysInMonth yr m).
Proof.
  intros Hm. unfold MakeDay, DaysInMonth, daysFromCivil.
  assert (Hc : m = 0 ∨ m = 1 ∨ m = 2 ∨ m = 3 ∨ m = 4 ∨ m = 5 ∨ m = 6 ∨
               m = 7 ∨ m = 8 ∨ m = 9 ∨ m = 10 ∨ m = 11) by lia.
  destruct Hc as [Hc|[Hc|[Hc|[Hc|[Hc|[Hc|[Hc|[Hc|[Hc|[Hc|[Hc|Hc]]]]]]]]]]];
    subst m;
    match goal with
    | |- context [(?a + 1) / 12] =>
        let q := eval vm_compute in ((a + 1) / 12) in
        let r := eval vm_compute in ((a + 1) mod 12) in
        change ((a + 1) / 12) with q; change ((a + 1) mod 12) with r
    end;
    decide_tests; try zdiv.
  destruct (InLeapYear yr) eqn:L.
  - apply InLeapYear_true in L. zdiv.
  - assert (L' : ¬ (yr mod 4 = 0 ∧ (yr mod 100 ≠ 0 ∨ yr mod 400 = 0))).
    { rewrite <- InLeapYear_true. congruence. }
    zdiv.
Qed.

Lemma DaysInMonth_pos yr m : 28 <= DaysInMonth yr m <= 31.
Proof.
  unfold DaysInMonth. destruct (m =? 1); [destruct (InLeapYear yr); lia|].
  destruct ((m =? 3) || (m =? 5) || (m =? 8) || (m =? 10)); lia.
Qed.


(** The loop bound of [renderCalendar] is the length of the month. *)
Lemma daysInMonth_eq tz y m :
  0 <= m <= 11 →
  getDate tz (newDate tz y (m + 1) 0)
  = DaysInMonth (if (0 <=? y) && (y <=? 99) then 1900 + y else y) m.
Proof.
  intros Hm. unfold getDate, DateFromTime, LocalTime. rewrite newDate_eq.
  set (yr := if (0 <=? y) && (y <=? 99) then 1900 + y else y).
  rewrite MakeDay_next_month_0 by done.
  set (k := daysFromCivil yr m (DaysInMonth yr m)).
  replace (Day (k * msPerDay - tz + tz)) with k
    by (unfold Day, msPerDay; zdiv).
  subst k. pose proof (DaysInMonth_pos yr m).
  by rewrite civilFromDays_daysFromCivil by lia.
Qed.

Lemma ratio_bounds (c : Counts) :
  (done c <= total c)%nat → (0 <= ratio c)%Q ∧ (ratio c <= 1)%Q.
Proof.
  intros H. unfold ratio. destruct (total c) as [|n] eqn:E.
  - split; [apply Qle_refl|]. unfold Qle. simpl. lia.
  - unfold Qle. cbn [Qnum Qden]. lia.
Qed.

Lemma monthGrid_unfold tz po state y m :
  monthGrid tz po state y m
  = map (dayCell tz po state y m) (seqZ 1 (getDate tz (newDate tz y (m + 1) 0))).
Proof. reflexivity. Qed.

(** The cells of [monthGrid], for the year [yr] that [new Date] reads [y]
    as: one cell for each day of the month, in order. *)
Lemma monthGrid_cells tz po state y m :
  let yr := if (0 <=? y) && (y <=? 99) then 1900 + y else y in
  0 <= m <= 11 →
  length (monthGrid tz po state y m) = Z.to_nat (DaysInMonth yr m) ∧
  ∀ d, 1 <= d <= DaysInMonth yr m →
    monthGrid tz po state y m !! Z.to_nat (d - 1)
    = Some (dayCell tz po state y m d).
Proof.
  intros yr Hm. rewrite monthGrid_unfold.
  rewrite daysInMonth_eq by done. fold yr. split.
  - by rewrite length_map, length_seqZ.
  - intros d Hd. rewrite list_lookup_fmap.
    rewrite (lookup_seqZ_lt 1 (DaysInMonth yr m) (Z.to_nat (d - 1))) by lia.
    cbn [fmap option_fmap option_map].
    by replace (1 + Z.of_nat (Z.to_nat (d - 1))) with d by lia.
Qed.


Lemma lookup_map_seqZ {A} (f : Z → A) (len : Z) (i : nat) (x : A) :
  map f (seqZ 1 len) !! i = Some x → x = f (1 + Z.of_nat i).
Proof.
  rewrite list_lookup_fmap.
  intros H. apply fmap_Some in H as (d & Hd & ->).
  apply lookup_seqZ in Hd as [-> _]. reflexivity.
Qed.

Lemma monthGrid_lookup tz po state y m (i : nat) cell :
  monthGrid tz po state y m !! i = Some cell →
  cell = dayCell tz po state y m (1 + Z.of_nat i).
Proof. rewrite monthGrid_unfold. apply lookup_map_seqZ. Qed.







(** ** JSON strings *)

Lemma hexVal_hexDigit n : hexVal (hexDigit n) = Some (n mod 16)%N.
Proof.
  unfold hexVal, hexDigit.
  assert (H : (n mod 16 < 16)%N) by (apply N.mod_lt; lia).
  set (d := (n mod 16)%N) in *.
  destruct (N.ltb_spec d 10).
  - destruct (N.leb_spec 48 (48 + d)); [|lia].
    destruct (N.leb_spec (48 + d) 57); [|lia].
    cbn [andb]. f_equal. lia.
  - destruct (N.leb_spec 48 (87 + d)); [|lia].
    destruct (N.leb_spec (87 + d) 57); [lia|]. cbn [andb].
    destruct (N.leb_spec 97 (87 + d)); [|lia].
    destruct (N.leb_spec (87 + d) 102); [|lia].
    cbn [andb]. f_equal. lia.
Qed.

Lemma parseStringBody_escape c r :
  (c < 65536)%N →
  parseStringBody (unicodeEscape c ++ r)
  = match parseStringBody r with
    | Some (t, r') => Some (c :: t, r')
    | None => None
    end.
Proof.
  intros Hc. unfold unicodeEscape.
  cbn [app parseStringBody N.eqb Pos.eqb].
  rewrite !hexVal_hexDigit.
  replace ((((c / 4096) mod 16 * 16 + (c / 256) mod 16) * 16
            + (c / 16) mod 16) * 16 + c mod 16)%N with c by ndiv.
  reflexivity.
Qed.

Lemma parseStringBody_literal c r :
  c ≠ 34%N → c ≠ 92%N → (32 <= c)%N →
  parseStringBody (c :: r)
  = match parseStringBody r with
    | Some (t, r') => Some (c :: t, r')
    | None => None
    end.
Proof.
  intros H1 H2 H3. cbn [parseStringBody].
  destruct (N.eqb_spec c 34); [done|]. destruct (N.eqb_spec c 92); [done|].
  destruct (N.ltb_spec c 32); [lia|]. reflexivity.
Qed.

(** Reading back what [quoteBody] wrote, up to the closing quote. *)
Lemma parseStringBody_quoteBody_le (n : nat) :
  ∀ s r, (length s <= n)%nat →
    parseStringBody (quoteBody s ++ 34%N :: r) = Some (s, r).
Proof.
  induction n as [|n IH]; intros s r Hlen.
  - destruct s; [reflexivity|simpl in Hlen; lia].
  - destruct s as [|c s]; [reflexivity|].
    cbn [length] in Hlen.
    assert (IHs : ∀ r, parseStringBody (quoteBody s ++ 34%N :: r) = Some (s, r))
      by (intros; apply IH; lia).
    cbn [quoteBody].
    destruct (N.eqb_spec c 8) as [->|]; [cbn; by rewrite IHs|].
    destruct (N.eqb_spec c 9) as [->|]; [cbn; by rewrite IHs|].
    destruct (N.eqb_spec c 10) as [->|]; [cbn; by rewrite IHs|].
    destruct (N.eqb_spec c 12) as [->|]; [cbn; by rewrite IHs|].
    destruct (N.eqb_spec c 13) as [->|]; [cbn; by rewrite IHs|].
    destruct (N.eqb_spec c 34) as [->|]; [cbn; by rewrite IHs|].
    destruct (N.eqb_spec c 92) as [->|]; [cbn; by rewrite IHs|].
    destruct (N.ltb_spec c 32).
    { rewrite <- app_assoc, parseStringBody_escape by lia. by rewrite IHs. }
    unfold isLeadSurrogate, isTrailSurrogate.
    destruct (N.leb_spec 55296 c); cbn [andb].
    + destruct (N.leb_spec c 56319); cbn [andb].
      * destruct s as [|c2 s2].
        { rewrite parseStringBody_escape by lia. reflexivity. }
        destruct (N.leb_spec 56320 c2); cbn [andb].
        -- destruct (N.leb_spec c2 57343); cbn [andb].
           ++ cbn [app]. rewrite !parseStringBody_literal by lia.
              rewrite IH by (cbn [length] in Hlen; lia). reflexivity.
           ++ rewrite <- app_assoc, parseStringBody_escape by lia.
              by rewrite IHs.
        -- rewrite <- app_assoc, parseStringBody_escape by lia.
           by rewrite IHs.
      * destruct (N.leb_spec 56320 c); cbn [andb].
        -- destruct (N.leb_spec c 57343); cbn [andb].
           ++ rewrite <- app_assoc, parseStringBody_escape by lia.
              by rewrite IHs.
           ++ cbn [app]. rewrite parseStringBody_literal by lia.
              by rewrite IHs.
        -- lia.
    + destruct (N.leb_spec 56320 c); cbn [andb]; [lia|].
      cbn [app]. rewrite parseStringBody_literal by lia. by rewrite IHs.
Qed.

Lemma parseStringBody_quoteBody s r :
  parseStringBody (quoteBody s ++ 34%N :: r) = Some (s, r).
Proof. by apply (parseStringBody_quoteBody_le (length s)). Qed.

(** ** JSON values *)

(** Induction over values, with the hypothesis for every element of an
    array and every member of an object. *)
Lemma jsval_ind_nested (P : jsval → Prop) :
  P JNull → (∀ b, P (JBool b)) → (∀ n, P (JNum n)) → (∀ s, P (JStr s)) →
  (∀ l, Forall P l → P (JArr l)) →
  (∀ ps, Forall (λ kv, P kv.2) ps → P (JObj ps)) →
  ∀ v, P v.
Proof.
  intros Hnull Hbool Hnum Hstr Harr Hobj.
  fix IH 1. intros [| b | n | s | l | ps].
  - exact Hnull.
  - apply Hbool.
  - apply Hnum.
  - apply Hstr.
  - apply Harr. induction l as [|x l IHl]; constructor; [apply IH|exact IHl].
  - apply Hobj. induction ps as [|[k x] ps IHps]; constructor;
      [apply IH|exact IHps].
Qed.

Lemma JSON_stringify_arr l :
  JSON_stringify (JArr l) = [91%N] ++ stringifyItems l ++ [93%N].
Proof. reflexivity. Qed.

Lemma JSON_stringify_obj ps :
  JSON_stringify (JObj ps) = [123%N] ++ stringifyMembers ps ++ [125%N].
Proof. reflexivity. Qed.

Lemma jsize_arr l : jsize (JArr l) = S (itemsSize l).
Proof. reflexivity. Qed.

Lemma jsize_obj ps : jsize (JObj ps) = S (membersSize ps).
Proof. reflexivity. Qed.

Lemma JSON_stringify_head v :
  plain v → ∃ c t, JSON_stringify v = c :: t ∧ opensValue c.
Proof.
  unfold opensValue. intros [ | b | s | l _ | ps _ _ ]; [ | destruct b | | | ]; cbn; eauto 10.
Qed.

Lemma skipWS_opens c t : opensValue c → skipWS (c :: t) = c :: t.
Proof.
  unfold opensValue. intros H. cbn [skipWS].
  by destruct H as [-> | [-> | [-> | [-> | [-> | ->]]]]].
Qed.

Lemma parseValue_string f s r :
  parseValue (S f) (quoteJSONString s ++ r) = Some (JStr s, r).
Proof.
  unfold quoteJSONString.
  cbn [app parseValue parseScalar skipWS isWS N.eqb Pos.eqb orb].
  rewrite <- app_assoc. cbn [app].
  by rewrite parseStringBody_quoteBody.
Qed.

Lemma parseValue_array f c t :
  opensValue c →
  parseValue (S f) (91%N :: c :: t) = parseElems f (c :: t) [].
Proof.
  unfold opensValue. by intros [-> | [-> | [-> | [-> | [-> | ->]]]]].
Qed.

Lemma parseValue_object f t :
  parseValue (S f) (123%N :: 34%N :: t) = parseMembers f (34%N :: t) [].
Proof. reflexivity. Qed.

Lemma parseElems_S f s acc :
  parseElems (S f) s acc
  = match parseValue f s with
    | None => None
    | Some (v, r) =>
        match skipWS r with
        | [] => None
        | c :: r' =>
            if (c =? 44)%N then parseElems f r' (acc ++ [v])
            else if (c =? 93)%N then Some (JArr (acc ++ [v]), r')
            else None
        end
    end.
Proof. reflexivity. Qed.

Lemma parseMembers_S f k t acc :
  parseMembers (S f) (quoteJSONString k ++ 58%N :: t) acc
  = match parseValue f t with
    | None => None
    | Some (v, r3) =>
        match skipWS r3 with
        | [] => None
        | c :: r' =>
            if (c =? 44)%N then parseMembers f r' (objSet acc k v)
            else if (c =? 125)%N then Some (JObj (objSet acc k v), r')
            else None
        end
    end.
Proof.
  unfold quoteJSONString.
  cbn [app parseMembers skipWS isWS N.eqb Pos.eqb orb].
  rewrite <- app_assoc. cbn [app]. rewrite parseStringBody_quoteBody.
  reflexivity.
Qed.

Lemma Forall_mp {A} (P Q : A → Prop) (l : list A) :
  Forall (λ x, P x → Q x) l → Forall P l → Forall Q l.
Proof. induction 1; inversion 1; subst; constructor; auto. Qed.

Lemma stringifyItems_cons2 x y l :
  stringifyItems (x :: y :: l)
  = JSON_stringify x ++ 44%N :: stringifyItems (y :: l).
Proof. reflexivity. Qed.

Lemma stringifyMembers_cons2 k x kv l :
  stringifyMembers ((k, x) :: kv :: l)
  = quoteJSONString k ++ 58%N :: JSON_stringify x
      ++ 44%N :: stringifyMembers (kv :: l).
Proof. destruct kv. reflexivity. Qed.

Lemma parseElems_items l :
  l ≠ [] → Forall reads l →
  ∀ f acc r, (itemsSize l <= f)%nat →
    parseElems f (stringifyItems l ++ 93%N :: r) acc
    = Some (JArr (acc ++ l), r).
Proof.
  induction l as [|x l IH]; [done|]. intros _ Hall f acc r Hf.
  apply Forall_cons in Hall as [Hx Hl].
  cbn [itemsSize] in Hf. destruct f as [|f]; [lia|].
  rewrite parseElems_S. destruct l as [|y l].
  - cbn [stringifyItems]. rewrite Hx by (cbn [itemsSize] in Hf; lia).
    reflexivity.
  - rewrite stringifyItems_cons2, <- app_assoc. cbn [app].
    rewrite Hx by lia. cbn [skipWS isWS N.eqb Pos.eqb orb].
    rewrite IH by (done || lia). by rewrite <- app_assoc.
Qed.

Lemma objSet_fresh acc k v : k ∉ acc.*1 → objSet acc k v = acc ++ [(k, v)].
Proof.
  induction acc as [|[k' v'] acc IH]; intros H; [done|].
  cbn [fmap list_fmap fst] in H. apply not_elem_of_cons in H as [Hk Hacc].
  cbn [objSet app]. destruct (decide (k' = k)); [congruence|].
  by rewrite IH.
Qed.

Lemma parseMembers_members ps :
  ps ≠ [] → Forall (λ kv, reads kv.2) ps →
  ∀ f acc r, (membersSize ps <= f)%nat → NoDup (acc.*1 ++ ps.*1) →
    parseMembers f (stringifyMembers ps ++ 125%N :: r) acc
    = Some (JObj (acc ++ ps), r).
Proof.
  induction ps as [|[k x] ps IH]; [done|]. intros _ Hall f acc r Hf Hnd.
  apply Forall_cons in Hall as [Hx Hps]. cbn [snd] in Hx.
  cbn [membersSize] in Hf. destruct f as [|f]; [lia|].
  assert (Hk : k ∉ acc.*1).
  { apply NoDup_app in Hnd as (_ & Hd & _). intros Hin.
    apply (Hd k Hin). cbn [fmap list_fmap fst]. left. }
  assert (Hnd' : NoDup ((acc ++ [(k, x)]).*1 ++ ps.*1)).
  { rewrite fmap_app, <- app_assoc. exact Hnd. }
  destruct ps as [|kv ps].
  - cbn [stringifyMembers]. rewrite <- !app_assoc. cbn [app].
    rewrite parseMembers_S, Hx by lia. cbn [skipWS isWS N.eqb Pos.eqb orb].
    by rewrite objSet_fresh.
  - rewrite stringifyMembers_cons2, <- !app_assoc. cbn [app].
    rewrite parseMembers_S, <- app_assoc. cbn [app].
    rewrite Hx by lia. cbn [skipWS isWS N.eqb Pos.eqb orb].
    rewrite objSet_fresh by done.
    rewrite IH by (done || lia). by rewrite <- app_assoc.
Qed.

Lemma stringifyItems_head x l :
  plain x → ∃ c t, stringifyItems (x :: l) = c :: t ∧ opensValue c.
Proof.
  intros Hx. destruct (JSON_stringify_head x Hx) as (c & t & E & Hc).
  destruct l as [|y l].
  - exists c, t. by cbn [stringifyItems].
  - exists c, (t ++ 44%N :: stringifyItems (y :: l)).
    by rewrite stringifyItems_cons2, E.
Qed.

Lemma stringifyMembers_head k x l :
  ∃ t, stringifyMembers ((k, x) :: l) = 34%N :: t.
Proof.
  destruct l as [|kv l].
  - eexists. reflexivity.
  - rewrite stringifyMembers_cons2. eexists. reflexivity.
Qed.

(** What [JSON.stringify] writes for a plain value is read back as it. *)
Lemma parseValue_stringify v : plain v → reads v.
Proof.
  induction v as [| b | n | s | l IH | ps IH] using jsval_ind_nested;
    intros Hp f r Hf.
  - destruct f as [|f]; [cbn in Hf; lia|]. reflexivity.
  - destruct f as [|f]; [cbn in Hf; lia|]. by destruct b.
  - inversion Hp.
  - destruct f as [|f]; [cbn in Hf; lia|].
    cbn [JSON_stringify]. apply parseValue_string.
  - inversion Hp as [| | | l' Hl |]; subst.
    rewrite jsize_arr in Hf. destruct f as [|f]; [lia|].
    rewrite JSON_stringify_arr. destruct l as [|x l]; [reflexivity|].
    assert (Hreads : Forall reads (x :: l)) by apply (Forall_mp _ _ _ IH Hl).
    apply Forall_cons in Hl as [Hpx _].
    destruct (stringifyItems_head x l Hpx) as (c & t & E & Hc).
    rewrite <- !app_assoc. cbn [app]. rewrite E. cbn [app].
    rewrite parseValue_array by done.
    change (c :: t ++ 93%N :: r) with ((c :: t) ++ 93%N :: r).
    rewrite <- E. by rewrite parseElems_items by (done || lia).
  - inversion Hp as [| | | | ps' Hnd Hl]; subst.
    rewrite jsize_obj in Hf. destruct f as [|f]; [lia|].
    rewrite JSON_stringify_obj. destruct ps as [|[k x] ps]; [reflexivity|].
    assert (Hreads : Forall (λ kv, reads kv.2) ((k, x) :: ps))
      by apply (Forall_mp _ _ _ IH Hl).
    destruct (stringifyMembers_head k x ps) as (t & E).
    rewrite <- !app_assoc. cbn [app]. rewrite E. cbn [app].
    rewrite parseValue_object.
    change (34%N :: t ++ 125%N :: r) with ((34%N :: t) ++ 125%N :: r).
    rewrite <- E. by rewrite parseMembers_members by (done || lia).
Qed.

Lemma itemsSize_le l :
  Forall (λ x, (jsize x <= length (JSON_stringify x))%nat) l →
  (itemsSize l <= S (length (stringifyItems l)))%nat.
Proof.
  induction l as [|x l IH]; intros H; [cbn; lia|].
  apply Forall_cons in H as [Hx Hl]. specialize (IH Hl).
  destruct l as [|y l].
  - cbn [itemsSize stringifyItems]. lia.
  - rewrite stringifyItems_cons2. cbn [itemsSize] in *.
    rewrite length_app. cbn [length]. lia.
Qed.

Lemma membersSize_le ps :
  Forall (λ kv, (jsize kv.2 <= length (JSON_stringify kv.2))%nat) ps →
  (membersSize ps <= S (length (stringifyMembers ps)))%nat.
Proof.
  induction ps as [|[k x] ps IH]; intros H; [cbn; lia|].
  apply Forall_cons in H as [Hx Hl]. specialize (IH Hl). cbn [snd] in Hx.
  destruct ps as [|kv ps].
  - cbn [membersSize stringifyMembers]. rewrite !length_app. cbn [length]. lia.
  - rewrite stringifyMembers_cons2. cbn [membersSize] in *.
    rewrite !length_app. cbn [length]. rewrite length_app. cbn [length]. lia.
Qed.

(** The text of a plain value is at least as long as the fuel it needs. *)
Lemma jsize_le_length v :
  plain v → (jsize v <= length (JSON_stringify v))%nat.
Proof.
  induction v as [| b | n | s | l IH | ps IH] using jsval_ind_nested;
    intros Hp.
  - cbn. lia.
  - destruct b; cbn; lia.
  - inversion Hp.
  - cbn [jsize JSON_stringify]. unfold quoteJSONString. cbn [app length]. lia.
  - inversion Hp as [| | | l' Hl |]; subst.
    rewrite jsize_arr, JSON_stringify_arr. cbn [app length].
    rewrite length_app. cbn [length].
    pose proof (itemsSize_le l (Forall_mp _ _ _ IH Hl)). lia.
  - inversion Hp as [| | | | ps' Hnd Hl]; subst.
    rewrite jsize_obj, JSON_stringify_obj. cbn [app length].
    rewrite length_app. cbn [length].
    pose proof (membersSize_le ps (Forall_mp _ _ _ IH Hl)). lia.
Qed.

(** [JSON.parse] inverts [JSON.stringify] on plain values. *)
Lemma JSON_parse_stringify v :
  plain v → JSON_parse (JSON_stringify v) = Some v.
Proof.
  intros Hp. unfold JSON_parse.
  pose proof (parseValue_stringify v Hp (S (length (JSON_stringify v))) []) as H.
  rewrite app_nil_r in H. rewrite H; [done|].
  pose proof (jsize_le_length v Hp). lia.
Qed.

(** ** The fuel of the parser *)

Lemma skipWS_length s : (length (skipWS s) <= length s)%nat.
Proof.
  induction s as [|c s IH]; [done|]. cbn [skipWS].
  destruct (isWS c); cbn [length]; lia.
Qed.

Lemma parseStringBody_length_le (n : nat) :
  ∀ s t r, (length s <= n)%nat →
    parseStringBody s = Some (t, r) → (length r < length s)%nat.
Proof.
  induction n as [|n IH]; intros s t r Hn H.
  - destruct s; [discriminate H|cbn [length] in Hn; lia].
  - destruct s as [|c s]; [discriminate H|]. cbn [length] in Hn.
    cbn [parseStringBody] in H.
    destruct (c =? 34)%N; [injection H as _ <-; cbn [length]; lia|].
    destruct (c =? 92)%N.
    + destruct s as [|e s1]; [discriminate H|]. cbn [length] in Hn.
      assert (Hsimple : ∀ x,
                match parseStringBody s1 with
                | Some (t, r') => Some (x :: t, r')
                | None => None
                end = Some (t, r) →
                (length r < length (c :: e :: s1))%nat).
      { intros x Hx. destruct (parseStringBody s1) as [[t' r']|] eqn:E;
          [|discriminate Hx].
        injection Hx as _ <-. apply IH in E; [|lia]. cbn [length]. lia. }
      repeat (match type of H with
              | (if ?b then _ else _) = _ => destruct b; [by eapply Hsimple|]
              end).
      destruct (e =? 117)%N; [|discriminate H].
      destruct s1 as [|h1 [|h2 [|h3 [|h4 s2]]]]; try discriminate H.
      destruct (hexVal h1), (hexVal h2), (hexVal h3), (hexVal h4);
        try discriminate H.
      destruct (parseStringBody s2) as [[t' r']|] eqn:E; [|discriminate H].
      injection H as _ <-. apply IH in E; [|cbn [length] in Hn; lia].
      cbn [length]. lia.
    + destruct (c <? 32)%N; [discriminate H|].
      destruct (parseStringBody s) as [[t' r']|] eqn:E; [|discriminate H].
      injection H as _ <-. apply IH in E; [|lia]. cbn [length]. lia.
Qed.

Lemma parseStringBody_length s t r :
  parseStringBody s = Some (t, r) → (length r < length s)%nat.
Proof. by apply (parseStringBody_length_le (length s)). Qed.

Lemma spanDigits_length s ds r :
  spanDigits s = (ds, r) → (length r <= length s)%nat.
Proof.
  revert ds r. induction s as [|c s IH]; intros ds r H.
  - injection H as _ <-. done.
  - cbn [spanDigits] in H. destruct (isDigit c).
    + destruct (spanDigits s) as [ds' r'] eqn:E. injection H as _ <-.
      specialize (IH _ _ eq_refl). cbn [length]. lia.
    + injection H as _ <-. done.
Qed.

Lemma stripPrefix_length p s r :
  p ≠ [] → stripPrefix p s = Some r → (length r < length s)%nat.
Proof.
  revert s. induction p as [|a p IH]; intros s Hp H; [done|].
  destruct s as [|b s]; [discriminate H|]. cbn [stripPrefix] in H.
  destruct (a =? b)%N; [|discriminate H].
  destruct p as [|a' p].
  - injection H as <-. cbn [length]. lia.
  - apply IH in H; [|done]. cbn [length] in *. lia.
Qed.

Lemma parseSign_length s sign r :
  parseSign s = (sign, r) → (length r <= length s)%nat.
Proof.
  destruct s as [|c s]; cbn [parseSign]; [by intros [= _ <-]|].
  destruct (c =? 45)%N; intros [= _ <-]; cbn [length]; lia.
Qed.

Lemma parseInt_length s ip r :
  parseInt s = Some (ip, r) → (length r < length s)%nat.
Proof.
  destruct s as [|c s]; cbn [parseInt]; [done|].
  destruct (c =? 48)%N; [intros [= _ <-]; cbn [length]; lia|].
  destruct (isDigit c) eqn:Hc; [|done]. cbn [spanDigits]. rewrite Hc.
  destruct (spanDigits s) as [ds r'] eqn:E. intros [= _ <-].
  apply spanDigits_length in E. cbn [length]. lia.
Qed.

Lemma parseFrac_length s fp r :
  parseFrac s = Some (fp, r) → (length r <= length s)%nat.
Proof.
  destruct s as [|c s]; cbn [parseFrac]; [by intros [= _ <-]|].
  destruct (c =? 46)%N; [|by intros [= _ <-]].
  destruct (spanDigits s) as [[|d ds] r'] eqn:E; [done|]. intros [= _ <-].
  apply spanDigits_length in E. cbn [length]. lia.
Qed.

Lemma parseExp_length s ep r :
  parseExp s = Some (ep, r) → (length r <= length s)%nat.
Proof.
  destruct s as [|c s]; cbn [parseExp]; [by intros [= _ <-]|].
  destruct ((c =? 101) || (c =? 69))%N; [|by intros [= _ <-]].
  assert (H : ∀ r1, (length r1 <= length s)%nat →
                match spanDigits r1 with
                | ([], _) => None
                | (d :: ds, r') => Some (ep, r')
                end = Some (ep, r) → (length r <= length (c :: s))%nat).
  { intros r1 Hr1. destruct (spanDigits r1) as [[|d ds] r'] eqn:E; [done|].
    intros [= <-]. apply spanDigits_length in E. cbn [length]. lia. }
  destruct s as [|c1 s0].
  - destruct (spanDigits []) as [[|d ds] r'] eqn:E; [done|].
    cbn [spanDigits] in E. discriminate E.
  - destruct ((c1 =? 43) || (c1 =? 45))%N.
    + destruct (spanDigits s0) as [[|d ds] r'] eqn:E; [done|].
      intros [= _ <-]. apply spanDigits_length in E. cbn [length]. lia.
    + destruct (spanDigits (c1 :: s0)) as [[|d ds] r'] eqn:E; [done|].
      intros [= _ <-]. apply spanDigits_length in E. cbn [length] in *. lia.
Qed.

Lemma parseNumber_length s lexeme r :
  parseNumber s = Some (lexeme, r) → (length r < length s)%nat.
Proof.
  unfold parseNumber. destruct (parseSign s) as [sign s1] eqn:E1.
  destruct (parseInt s1) as [[ip s2]|] eqn:E2; [|done].
  destruct (parseFrac s2) as [[fp s3]|] eqn:E3; [|done].
  destruct (parseExp s3) as [[ep s4]|] eqn:E4; [|done].
  intros [= _ <-].
  apply parseSign_length in E1. apply parseInt_length in E2.
  apply parseFrac_length in E3. apply parseExp_length in E4. lia.
Qed.

Lemma parseScalar_length s v r :
  parseScalar s = Some (v, r) → (length r < length s)%nat.
Proof.
  destruct s as [|c s]; cbn [parseScalar]; [done|].
  destruct (c =? 34)%N.
  { destruct (parseStringBody s) as [[t r']|] eqn:E; [|done].
    intros [= _ <-]. apply parseStringBody_length in E. cbn [length]. lia. }
  destruct (c =? 116)%N.
  { destruct (stripPrefix (str "true") (c :: s)) as [r'|] eqn:E; [|done].
    intros [= _ <-]. by apply stripPrefix_length in E. }
  destruct (c =? 102)%N.
  { destruct (stripPrefix (str "false") (c :: s)) as [r'|] eqn:E; [|done].
    intros [= _ <-]. by apply stripPrefix_length in E. }
  destruct (c =? 110)%N.
  { destruct (stripPrefix (str "null") (c :: s)) as [r'|] eqn:E; [|done].
    intros [= _ <-]. by apply stripPrefix_length in E. }
  destruct (parseNumber (c :: s)) as [[l r']|] eqn:E; [|done].
  intros [= _ <-]. by apply parseNumber_length in E.
Qed.

Lemma parseValue_S f s :
  parseValue (S f) s
  = match skipWS s with
    | [] => None
    | c :: r =>
        if (c =? 91)%N then
          match skipWS r with
          | [] => None
          | c1 :: r1 =>
              if (c1 =? 93)%N then Some (JArr [], r1)
              else parseElems f (c1 :: r1) []
          end
        else if (c =? 123)%N then
          match skipWS r with
          | [] => None
          | c1 :: r1 =>
              if (c1 =? 125)%N then Some (JObj [], r1)
              else parseMembers f (c1 :: r1) []
          end
        else parseScalar (c :: r)
    end.
Proof. reflexivity. Qed.

Lemma parseMembers_S_any f s acc :
  parseMembers (S f) s acc
  = match skipWS s with
    | [] => None
    | q :: r0 =>
        if (q =? 34)%N then
          match parseStringBody r0 with
          | None => None
          | Some (k, r1) =>
              match skipWS r1 with
              | [] => None
              | colon :: r2 =>
                  if (colon =? 58)%N then
                    match parseValue f r2 with
                    | None => None
                    | Some (v, r3) =>
                        match skipWS r3 with
                        | [] => None
                        | c :: r' =>
                            if (c =? 44)%N
                            then parseMembers f r' (objSet acc k v)
                            else if (c =? 125)%N
                            then Some (JObj (objSet acc k v), r')
                            else None
                        end
                    end
                  else None
              end
          end
        else None
    end.
Proof. reflexivity. Qed.

Lemma parse_fuelFree f :
  fuelFree (λ f s (_ : unit), parseValue f s) f ∧
  fuelFree parseElems f ∧ fuelFree parseMembers f.
Proof.
  induction f as [|f (IHv & IHe & IHm)]; [by repeat split|].
  unfold fuelFree in *. split; [|split].
  - intros s _ v r. rewrite parseValue_S.
    pose proof (skipWS_length s) as Hs.
    destruct (skipWS s) as [|c r0] eqn:Es; [done|].
    destruct (c =? 91)%N eqn:Ec.
    { pose proof (skipWS_length r0) as Hr0.
      destruct (skipWS r0) as [|c1 r1] eqn:Er; [done|].
      destruct (c1 =? 93)%N eqn:Ec1.
      - intros [= <- <-]. cbn [length] in *. split; [lia|].
        intros [|f'] Hf'; [lia|].
        by rewrite parseValue_S, Es, Ec, Er, Ec1.
      - intros H. apply IHe in H as [Hlen Hfuel]. cbn [length] in *.
        split; [lia|]. intros [|f'] Hf'; [lia|].
        rewrite parseValue_S, Es, Ec, Er, Ec1. apply Hfuel.
        cbn [length]. lia. }
    destruct (c =? 123)%N eqn:Ec'.
    { pose proof (skipWS_length r0) as Hr0.
      destruct (skipWS r0) as [|c1 r1] eqn:Er; [done|].
      destruct (c1 =? 125)%N eqn:Ec1.
      - intros [= <- <-]. cbn [length] in *. split; [lia|].
        intros [|f'] Hf'; [lia|].
        by rewrite parseValue_S, Es, Ec, Ec', Er, Ec1.
      - intros H. apply IHm in H as [Hlen Hfuel]. cbn [length] in *.
        split; [lia|]. intros [|f'] Hf'; [lia|].
        rewrite parseValue_S, Es, Ec, Ec', Er, Ec1. apply Hfuel.
        cbn [length]. lia. }
    intros H. pose proof (parseScalar_length _ _ _ H) as Hlen.
    split; [lia|]. intros [|f'] Hf'; [lia|].
    by rewrite parseValue_S, Es, Ec, Ec'.
  - intros s acc v r. rewrite parseElems_S.
    destruct (parseValue f s) as [[x r1]|] eqn:Ex; [|done].
    apply (IHv s tt) in Ex as [Hlen1 Hfuel1].
    pose proof (skipWS_length r1) as Hr1.
    destruct (skipWS r1) as [|c r2] eqn:Er; [done|]. cbn [length] in Hr1.
    destruct (c =? 44)%N eqn:Ec.
    + intros H. apply IHe in H as [Hlen2 Hfuel2]. split; [lia|].
      intros [|f'] Hf'; [lia|].
      rewrite parseElems_S, Hfuel1, Er, Ec by lia. apply Hfuel2. lia.
    + destruct (c =? 93)%N eqn:Ec'; [|done]. intros [= <- <-].
      split; [lia|]. intros [|f'] Hf'; [lia|].
      by rewrite parseElems_S, Hfuel1, Er, Ec, Ec' by lia.
  - intros s acc v r. rewrite parseMembers_S_any.
    pose proof (skipWS_length s) as Hs.
    destruct (skipWS s) as [|q r0] eqn:Es; [done|]. cbn [length] in Hs.
    destruct (q =? 34)%N eqn:Eq; [|done].
    destruct (parseStringBody r0) as [[k r1]|] eqn:Ek; [|done].
    pose proof (parseStringBody_length _ _ _ Ek) as Hk.
    pose proof (skipWS_length r1) as Hr1.
    destruct (skipWS r1) as [|colon r2] eqn:Er1; [done|]. cbn [length] in Hr1.
    destruct (colon =? 58)%N eqn:Ecolon; [|done].
    destruct (parseValue f r2) as [[x r3]|] eqn:Ex; [|done].
    apply (IHv r2 tt) in Ex as [Hlen1 Hfuel1].
    pose proof (skipWS_length r3) as Hr3.
    destruct (skipWS r3) as [|c r4] eqn:Er3; [done|]. cbn [length] in Hr3.
    destruct (c =? 44)%N eqn:Ec.
    + intros H. apply IHm in H as [Hlen2 Hfuel2]. split; [lia|].
      intros [|f'] Hf'; [lia|].
      rewrite parseMembers_S_any, Es, Eq, Ek, Er1, Ecolon, Hfuel1, Er3, Ec
        by lia.
      apply Hfuel2. lia.
    + destruct (c =? 125)%N eqn:Ec'; [|done]. intros [= <- <-].
      split; [lia|]. intros [|f'] Hf'; [lia|].
      by rewrite parseMembers_S_any, Es, Eq, Ek, Er1, Ecolon, Hfuel1, Er3,
        Ec, Ec' by lia.
Qed.

(** The fuel of [JSON_parse] loses no parse: a text that some fuel reads to
    its end as [v] is parsed as [v]. *)
Lemma JSON_parse_any_fuel f s v r :
  parseValue f s = Some (v, r) → skipWS r = [] → JSON_parse s = Some v.
Proof.
  intros H Hr. destruct (parse_fuelFree f) as (Hv & _).
  apply (Hv s tt) in H as [Hlen Hfuel]. unfold JSON_parse.
  rewrite Hfuel by lia. by rewrite Hr.
Qed.

(** [JSON_parse] throws exactly on the texts that no fuel reads to their
    end. *)
Lemma JSON_parse_None_iff s :
  JSON_parse s = None
  ↔ ∀ f v r, parseValue f s = Some (v, r) → skipWS r ≠ [].
Proof.
  split.
  - intros Hnone f v r H Hr.
    by rewrite (JSON_parse_any_fuel f s v r H Hr) in Hnone.
  - intros H. unfold JSON_parse.
    destruct (parseValue (S (length s)) s) as [[v r]|] eqn:E; [|done].
    specialize (H _ _ _ E). by destruct (skipWS r).
Qed.

(** ** Documents as JSON values *)

Lemma plain_mapToJs {A} (f : A → jsval) (m : gmap ustring A) :
  (∀ x, plain (f x)) → plain (mapToJs f m).
Proof.
  intros Hf. unfold mapToJs. constructor.
  - replace ((map (λ kv, (kv.1, f kv.2)) (map_to_list m)).*1)
      with ((map_to_list m).*1); [apply NoDup_fst_map_to_list|].
    induction (map_to_list m) as [|[k x] l IH]; [done|].
    cbn [fmap list_fmap map fst]. by rewrite IH.
  - induction (map_to_list m) as [|[k x] l IH]; constructor; [apply Hf|done].
Qed.

Lemma plain_habitToJs h : plain (habitToJs h).
Proof.
  unfold habitToJs. constructor.
  - apply (bool_decide_unpack (NoDup _)). vm_compute. exact I.
  - repeat constructor.
Qed.

Lemma plain_docToJs doc : plain (docToJs doc).
Proof.
  unfold docToJs. constructor.
  - apply (bool_decide_unpack (NoDup _)). vm_compute. exact I.
  - constructor; [|constructor; [|constructor]]; cbn [snd].
    + constructor. induction (habits doc) as [|h l IH]; constructor;
        [apply plain_habitToJs|done].
    + apply plain_mapToJs. intros byWeek. apply plain_mapToJs.
      intros byDay. apply plain_mapToJs. intros b. constructor.
Qed.

Lemma asHabit_habitToJs h : asHabit (habitToJs h) = Some h.
Proof. by destruct h. Qed.

Lemma asMap_mapToJs {A} (f : jsval → option A) (g : A → jsval)
  (m : gmap ustring A) :
  (∀ x, f (g x) = Some x) → asMap f (mapToJs g m) = Some m.
Proof.
  intros Hfg. unfold asMap, mapToJs.
  assert (H : mapM (λ kv : ustring * jsval, x ← f kv.2; Some (kv.1, x))
                (map (λ kv : ustring * A, (kv.1, g kv.2)) (map_to_list m))
              = Some (map_to_list m)).
  { induction (map_to_list m) as [|[k x] l IH]; [done|].
    cbn [map mapM fst snd]. rewrite Hfg. cbn. rewrite IH. reflexivity. }
  rewrite H. cbn. by rewrite list_to_map_to_list.
Qed.

(** The document read off the JavaScript object of a document is that
    document. *)
Lemma asDocument_docToJs doc : asDocument (docToJs doc) = Some doc.
Proof.
  unfold asDocument, docToJs.
  change (getProp _ (str "habits"))
    with (Some (JArr (map habitToJs (habits doc)))).
  change (getProp _ (str "checks"))
    with (Some (mapToJs (mapToJs (mapToJs JBool)) (checks doc))).
  cbn [mbind option_bind].
  assert (Hh : mapM asHabit (map habitToJs (habits doc)) = Some (habits doc)).
  { induction (habits doc) as [|h l IH]; [done|].
    cbn [map mapM]. rewrite asHabit_habitToJs. cbn. by rewrite IH. }
  rewrite Hh. cbn [mbind option_bind].
  rewrite (asMap_mapToJs (asMap (asMap asBool)) (mapToJs (mapToJs JBool))).
  - by destruct doc.
  - intros byWeek. apply asMap_mapToJs. intros byDay. by apply asMap_mapToJs.
Qed.

Lemma getItem_save state st :
  getItem (save state st) STORAGE_KEY = Some (JSON_stringify state).
Proof. unfold getItem, save, setItem. apply lookup_insert_eq. Qed.

(** What [load] returns from the store [save] wrote a document to. *)
Lemma load_save doc st : load (save (docToJs doc) st) = docToJs doc.
Proof.
  unfold load. rewrite getItem_save. cbn [textOf].
  by rewrite JSON_parse_stringify by apply plain_docToJs.
Qed.

(** C4: loading after saving a document yields the JavaScript object of
    that document, and the document read off it is that document. *)
Theorem save_load_roundtrip (doc : Document) (st : gmap ustring ustring) :
  load (save (docToJs doc) st) = docToJs doc ∧
  asDocument (load (save (docToJs doc) st)) = Some doc.
Proof.
  split; [apply load_save|]. rewrite load_save. apply asDocument_docToJs.
Qed.

(** Each handler stores the document it leaves: loading from the store it
    wrote yields that document. *)
Lemma handlers_save tz state st ws i day b :
  (let '(state', st') := onCheckboxChange tz state st ws i day b in
   state' = toggleCheck state i (weekKey tz ws) day b ∧
   asDocument (load st') = Some state') ∧
  (let '(state', st') := onDeleteClick state st i in
   state' = deleteHabit state i ∧ asDocument (load st') = Some state').
Proof.
  unfold onCheckboxChange, onDeleteClick. cbv zeta.
  split; (split; [done|]); rewrite load_save; apply asDocument_docToJs.
Qed.

(** ** Loading *)



(** Number tokens that are zero as doubles, and the least ones that are
    not: [2^-1075] lies between the last two. *)
Lemma roundsToZero_examples :
  map roundsToZero
    [str "0"; str "-0.00"; str "0e5"; str "1e-400";
     str "2.4703282292062327e-324"; str "2.4703282292062328e-324";
     str "5e-324"; str "0.1"; str "1E5"; str "-12.5e+3"]
  = [true; true; true; true; true; false; false; false; false; false].
Proof. vm_compute. reflexivity. Qed.




(** * Properties of the pages *)

(** ** Trimming the name of a new habit *)

Lemma trimStart_blank s :
  forallb isTrimSpace s = true → trimStart s = [].
Proof.
  induction s as [|c s IH]; [done|]. cbn [forallb trimStart].
  intros [Hc Hs]%andb_true_iff. rewrite Hc. by apply IH.
Qed.

(** [trimStart] removes a run of white space and stops at the first other
    code unit. *)
Lemma trimStart_spec s :
  ∃ l, s = l ++ trimStart s ∧ forallb isTrimSpace l = true ∧
       match trimStart s with [] => True | c :: _ => isTrimSpace c = false end.
Proof.
  induction s as [|c s (l & E & Hl & Hh)].
  - by exists [].
  - cbn [trimStart]. destruct (isTrimSpace c) eqn:Hc.
    + exists (c :: l). cbn [forallb app]. rewrite Hc, Hl. by rewrite <- E.
    + by exists [].
Qed.

Lemma forallb_rev {A} (f : A → bool) l : forallb f (rev l) = forallb f l.
Proof.
  induction l as [|x l IH]; [done|].
  cbn [rev]. rewrite forallb_app, IH. cbn [forallb].
  destruct (f x), (forallb f l); reflexivity.
Qed.

(** What [trim] leaves: the part of the string between a run of white
    space at each end; it neither starts nor ends with white space, and it
    is empty exactly when the string is all white space. *)
Lemma trim_spec s :
  ∃ l r, s = l ++ trim s ++ r ∧
    forallb isTrimSpace l = true ∧ forallb isTrimSpace r = true ∧
    match trim s with [] => True | c :: _ => isTrimSpace c = false end ∧
    match rev (trim s) with [] => True | c :: _ => isTrimSpace c = false end ∧
    (trim s = [] ↔ forallb isTrimSpace s = true).
Proof.
  destruct (trimStart_spec s) as (l & E & Hl & Hh).
  destruct (trimStart_spec (rev (trimStart s))) as (r & Er & Hr & Hhr).
  unfold trim, trimEnd. set (t := trimStart s) in *.
  set (u := trimStart (rev t)) in *.
  assert (Et : t = rev u ++ rev r).
  { rewrite <- rev_app_distr, <- Er. by rewrite rev_involutive. }
  exists l, (rev r). split; [by rewrite <- Et|].
  split; [done|]. split; [by rewrite forallb_rev|].
  rewrite rev_involutive. split; [|split; [done|]].
  - destruct (rev u) as [|c v] eqn:Eu; [done|].
    rewrite Et in Hh. cbn in Hh. exact Hh.
  - split.
    + intros Hu. rewrite Hu in Et. cbn [app] in Et.
      assert (Hall : forallb isTrimSpace t = true).
      { by rewrite Et, forallb_rev. }
      destruct t as [|c t']; [|cbn [forallb] in Hall].
      * rewrite E, forallb_app, Hl. reflexivity.
      * rewrite Hh in Hall. discriminate Hall.
    + intros Hs. subst t u.
      rewrite (trimStart_blank s Hs). reflexivity.
Qed.

(** ** Adding a habit *)

(** The time value [new Date(createdAt)] has for the [createdAt] the form
    writes: midnight UTC of the day of the call. *)
Lemma Date_parse_createdAt po now :
  0 <= YearFromTime now <= 9999 →
  Date_parse po (take 10 (toISOString now)) = Some (Day now * msPerDay).
Proof.
  intros Hy. rewrite toISOString_take10 by done.
  unfold Date_parse. rewrite parseYMD_isoDate by done.
  pose proof (civilFromDays_spec (Day now)) as Hc.
  unfold YearFromTime, MonthFromTime, DateFromTime in *.
  destruct (civilFromDays (Day now)) as [[y m] d]. cbn [fst snd] in *.
  destruct Hc as (Hday & Hm & Hd).
  replace (m + 1 - 1) with m by lia.
  replace ((1 <=? m + 1) && (m + 1 <=? 12) && (1 <=? d)
           && (d <=? DaysInMonth y m)) with true.
  - rewrite MakeDay_month by done. rewrite Hday.
    unfold MakeDate. f_equal. lia.
  - symmetry. rewrite !andb_true_iff, !Z.leb_le. lia.
Qed.

Lemma trim_nonblank value :
  forallb isTrimSpace value = false → trim value ≠ [].
Proof.
  intros Hv Ht. destruct (trim_spec value) as (_ & _ & _ & _ & _ & _ & _ & [H _]).
  rewrite (H Ht) in Hv. discriminate Hv.
Qed.

(** X1: the form adds nothing for a name that is empty or all white space:
    the state and the store stay as they are. *)
Theorem onAddSubmit_blank (state : Document) (st : gmap ustring ustring)
  (value random36 : ustring) (now : Z) :
  forallb isTrimSpace value = true →
  onAddSubmit state st value random36 now = (state, st).
Proof.
  intros Hv. unfold onAddSubmit. cbv zeta.
  destruct (trim_spec value) as (_ & _ & _ & _ & _ & _ & _ & [_ H]).
  by rewrite (H Hv).
Qed.

Lemma onAddSubmit_blank_witness :
  onAddSubmit docRead ∅ (str "  ") (str "0.4fzyo82mvyr") 1704240000000
  = (docRead, ∅).
Proof. apply onAddSubmit_blank. vm_compute. reflexivity. Defined.

(** X2: for any other name the form appends one habit after the habits
    there are and leaves the checks alone; the habit has the id [uid] made,
    the first ten characters of [toISOString] as [createdAt], and as name
    the text of the input without the white space at its two ends; the new
    state is what the store then holds. *)
Theorem onAddSubmit_appends (state : Document) (st : gmap ustring ustring)
  (value random36 : ustring) (now : Z) :
  forallb isTrimSpace value = false →
  ∃ (h : Habit) (l r : ustring),
    let state' := {| habits := habits state ++ [h]; checks := checks state |} in
    onAddSubmit state st value random36 now
    = (state', save (docToJs state') st) ∧
    asDocument (load (save (docToJs state') st)) = Some state' ∧
    id h = uid random36 ∧ createdAt h = take 10 (toISOString now) ∧
    value = l ++ name h ++ r ∧
    forallb isTrimSpace l = true ∧ forallb isTrimSpace r = true ∧
    (∃ c t, name h = c :: t ∧ isTrimSpace c = false) ∧
    (∃ t c, name h = t ++ [c] ∧ isTrimSpace c = false).
Proof.
  intros Hv. pose proof (trim_nonblank value Hv) as Hne.
  destruct (trim_spec value) as (l & r & E & Hl & Hr & Hh & Ht & _).
  exists {| id := uid random36; name := trim value;
            createdAt := take 10 (toISOString now) |}, l, r.
  cbv zeta. cbn [id name createdAt].
  split; [|split; [by rewrite load_save, asDocument_docToJs|]].
  - unfold onAddSubmit. cbv zeta. by destruct (trim value).
  - do 5 (split; [done|]). split.
    + destruct (trim value) as [|c t]; [done|]. by exists c, t.
    + destruct (rev (trim value)) as [|c t] eqn:Er.
      * apply (f_equal (@rev N)) in Er. rewrite rev_involutive in Er.
        by destruct Hne.
      * exists (rev t), c. split; [|done].
        apply (f_equal (@rev N)) in Er. by rewrite rev_involutive in Er.
Qed.

Lemma onAddSubmit_appends_witness :
  ∃ (h : Habit) (l r : ustring),
    let state' := {| habits := habits docRead ++ [h];
                     checks := checks docRead |} in
    onAddSubmit docRead ∅ (str " Run ") (str "0.4fzyo82mvyr") 1704240000000
    = (state', save (docToJs state') ∅) ∧
    asDocument (load (save (docToJs state') ∅)) = Some state' ∧
    id h = uid (str "0.4fzyo82mvyr") ∧
    createdAt h = take 10 (toISOString 1704240000000) ∧
    str " Run " = l ++ name h ++ r ∧
    forallb isTrimSpace l = true ∧ forallb isTrimSpace r = true ∧
    (∃ c t, name h = c :: t ∧ isTrimSpace c = false) ∧
    (∃ t c, name h = t ++ [c] ∧ isTrimSpace c = false).
Proof.
  apply (onAddSubmit_appends docRead ∅ (str " Run ") (str "0.4fzyo82mvyr")
           1704240000000).
  vm_compute. reflexivity.
Defined.

(** The counts over a list of habits with one more at its end. *)
Lemma dayCounts_snoc tz po hs cs (h : Habit) date :
  dayCounts tz po {| habits := hs ++ [h]; checks := cs |} date
  = {| done :=
         (done (dayCounts tz po {| habits := hs; checks := cs |} date)
          + (if isActive po h date
                && isChecked tz {| habits := hs; checks := cs |} h date
             then 1 else 0))%nat;
       total :=
         (total (dayCounts tz po {| habits := hs; checks := cs |} date)
          + (if isActive po h date then 1 else 0))%nat |}.
Proof.
  rewrite !dayCounts_counts. cbn [habits done total].
  rewrite !List.filter_app, !length_app. cbn [List.filter].
  unfold isChecked. cbn [checks].
  destruct (isActive po h date); cbn [andb]; [|done].
  by destruct (match checkAt cs (id h) (weekKey tz date)
                       (numberKey (getDay tz date)) with
               | Some true => true | _ => false end).
Qed.

(** X3: a habit the form adds at time [now] is counted by [dayCounts] for
    the dates from midnight UTC of the day of [now] on, so for every date
    from [now] on, and for no earlier date: [total] grows by one on those
    dates; [done] is as before when [checks] holds nothing under the new
    id. *)
Theorem onAddSubmit_dayCounts (tz : Z) (po : ustring → option Z)
  (state : Document) (st : gmap ustring ustring) (value random36 : ustring)
  (now date : Z) :
  forallb isTrimSpace value = false →
  0 <= YearFromTime now <= 9999 →
  let state' := (onAddSubmit state st value random36 now).1 in
  let c := dayCounts tz po state date in
  total (dayCounts tz po state' date)
  = (total c + (if (Day now * msPerDay <=? date)%Z then 1 else 0))%nat ∧
  (now <= date → total (dayCounts tz po state' date) = S (total c)) ∧
  ((checks state) !! (uid random36) = None →
   done (dayCounts tz po state' date) = done c).
Proof.
  intros Hv Hy. cbv zeta.
  pose proof (trim_nonblank value Hv) as Hne.
  unfold onAddSubmit. cbv zeta.
  destruct (trim value) as [|c0 t] eqn:Et; [done|]. cbn [fst].
  rewrite dayCounts_snoc. cbn [done total].
  unfold isActive at 1 2 3. cbn [createdAt].
  rewrite (Date_parse_createdAt po now Hy). cbn [dateLe].
  replace {| habits := habits state; checks := checks state |} with state
    by by destruct state.
  split; [done|]. split.
  - intros Hle.
    assert (H : Day now * msPerDay <= date).
    { unfold Day, msPerDay in *. zdiv. }
    apply Z.leb_le in H. rewrite H. lia.
  - intros Hc. unfold isChecked, checkAt. cbn [id]. rewrite Hc.
    rewrite andb_false_r. lia.
Qed.

Lemma onAddSubmit_dayCounts_witness :
  total (dayCounts utcPlus1 noOtherFormats
           (onAddSubmit docRead ∅ (str "Run") (str "0.4fzyo82mvyr")
              1704240000000).1
           1704240000000)
  = 2%nat.
Proof.
  destruct (onAddSubmit_dayCounts utcPlus1 noOtherFormats docRead ∅
              (str "Run") (str "0.4fzyo82mvyr") 1704240000000 1704240000000)
    as (_ & H & _).
  - vm_compute. reflexivity.
  - vm_compute. split; discriminate.
  - rewrite H by lia. vm_compute. reflexivity.
Defined.

(** X4: deleting the habit the form has just added gives back the document
    there was, when the new id is the id of no other habit and [checks]
    holds nothing under it. *)
Theorem onAddSubmit_deleteHabit (state : Document) (st : gmap ustring ustring)
  (value random36 : ustring) (now : Z) :
  uid random36 ∉ habitIds state →
  (checks state) !! (uid random36) = None →
  deleteHabit (onAddSubmit state st value random36 now).1 (uid random36)
  = state.
Proof.
  intros Hid Hc.
  assert (Hf : filter (λ h, id h ≠ uid random36) (habits state) = habits state).
  { unfold habitIds in Hid. induction (habits state) as [|h l IH]; [done|].
    rewrite filter_cons. cbn [map] in Hid.
    apply not_elem_of_cons in Hid as [Hh Hl].
    destruct (decide (id h ≠ uid random36)) as [_|Hn]; [by rewrite IH|].
    by destruct Hn. }
  unfold onAddSubmit. cbv zeta.
  destruct (trim value) as [|c t]; cbn [fst]; unfold deleteHabit;
    cbn [habits checks].
  - rewrite Hf, delete_id by done. by destruct state.
  - rewrite filter_app, Hf, filter_cons, filter_nil. cbn [id].
    destruct (decide (uid random36 ≠ uid random36)) as [Hn|_]; [done|].
    rewrite app_nil_r, delete_id by done. by destruct state.
Qed.

Lemma onAddSubmit_deleteHabit_witness :
  deleteHabit
    (onAddSubmit docRead ∅ (str "Run") (str "0.4fzyo82mvyr") 1704240000000).1
    (uid (str "0.4fzyo82mvyr"))
  = docRead.
Proof.
  apply onAddSubmit_deleteHabit.
  - unfold habitIds, docRead. cbn [habits map].
    intros H. apply list_elem_of_singleton in H. vm_compute in H.
    discriminate H.
  - reflexivity.
Defined.

(** ** Resetting a week *)

(** The loop of the reset button, seen from one id. *)
Lemma resetWeek_foldl (wk : ustring) (l : list Habit)
  (cs : gmap ustring (gmap ustring (gmap ustring bool))) (i : ustring) :
  foldl
    (λ (cs : gmap ustring (gmap ustring (gmap ustring bool))) (h : Habit),
       match cs !! id h with
       | Some byWeek => <[id h := delete wk byWeek]> cs
       | None => cs
       end)
    cs l !! i
  = if decide (i ∈ map id l) then delete wk <$> cs !! i else cs !! i.
Proof.
  revert cs. induction l as [|h l IH]; intros cs.
  - cbn [foldl map]. destruct (decide (i ∈ [])) as [H|_]; [|done].
    by apply elem_of_nil in H.
  - cbn [foldl map]. rewrite IH.
    assert (Hstep :
      (match cs !! id h with
       | Some byWeek => <[id h := delete wk byWeek]> cs
       | None => cs
       end) !! i
      = if decide (i = id h) then delete wk <$> cs !! i else cs !! i).
    { destruct (decide (i = id h)) as [->|Hne].
      - destruct (cs !! id h) as [bw|] eqn:E.
        + by rewrite lookup_insert_eq.
        + by rewrite E.
      - destruct (cs !! id h); [by rewrite lookup_insert_ne|done]. }
    rewrite Hstep.
    destruct (decide (i = id h)) as [->|Hne].
    + destruct (decide (id h ∈ id h :: map id l)) as [_|Hn];
        [|destruct Hn; left].
      destruct (decide (id h ∈ map id l)); [|done].
      destruct (cs !! id h) as [bw|]; [|done].
      cbn. by rewrite delete_delete_eq.
    + destruct (decide (i ∈ map id l)) as [Hin|Hnin].
      * destruct (decide (i ∈ id h :: map id l)) as [_|Hn]; [done|].
        destruct Hn. by right.
      * destruct (decide (i ∈ id h :: map id l)) as [Hin|_]; [|done].
        apply elem_of_cons in Hin as [?|?]; done.
Qed.

Lemma resetWeek_lookup state (wk i : ustring) :
  checks (resetWeek state wk) !! i
  = if decide (i ∈ habitIds state) then delete wk <$> checks state !! i
    else checks state !! i.
Proof. unfold resetWeek, habitIds. cbn [checks]. apply resetWeek_foldl. Qed.

(** What the reset of a week leaves of the check entries. *)
Lemma resetWeek_checkAt state (wk : ustring) :
  (∀ h k, h ∈ habits state →
     checkAt (checks (resetWeek state wk)) (id h) wk k = None) ∧
  (∀ i wk' k, wk' ≠ wk ∨ i ∉ habitIds state →
     checkAt (checks (resetWeek state wk)) i wk' k
     = checkAt (checks state) i wk' k).
Proof.
  split.
  - intros h k Hh. unfold checkAt. rewrite resetWeek_lookup.
    destruct (decide (id h ∈ habitIds state)) as [_|Hn].
    + destruct (checks state !! id h) as [bw|]; [|done].
      cbn. by rewrite lookup_delete_eq.
    + destruct Hn. unfold habitIds. apply list_elem_of_fmap. by exists h.
  - intros i wk' k H. unfold checkAt. rewrite resetWeek_lookup.
    destruct (decide (i ∈ habitIds state)) as [Hin|_]; [|done].
    destruct H as [Hw|Hn]; [|done].
    destruct (checks state !! i) as [bw|]; [|done].
    cbn. by rewrite lookup_delete_ne.
Qed.

(** X5: the reset of a week leaves the habits as they are, leaves no check
    entry in that week for any habit of the list, and leaves every entry of
    another week, and every entry under an id that is in no habit, as it
    was. *)
Theorem resetWeek_clears_week (state : Document) (wk : ustring) :
  habits (resetWeek state wk) = habits state ∧
  (∀ h k, h ∈ habits state →
     checkAt (checks (resetWeek state wk)) (id h) wk k = None) ∧
  (∀ i wk' k, wk' ≠ wk ∨ i ∉ habitIds state →
     checkAt (checks (resetWeek state wk)) i wk' k
     = checkAt (checks state) i wk' k).
Proof. split; [done|apply resetWeek_checkAt]. Qed.

(** X6: after the reset of the week of a date, [dayCounts] reports nothing
    done on that date and the same total; on a date with another week key
    it reports what it did before. *)
Theorem resetWeek_dayCounts (tz : Z) (po : ustring → option Z)
  (state : Document) (wk : ustring) (date : Z) :
  (weekKey tz date = wk →
   dayCounts tz po (resetWeek state wk) date
   = {| done := 0; total := total (dayCounts tz po state date) |}) ∧
  (weekKey tz date ≠ wk →
   dayCounts tz po (resetWeek state wk) date = dayCounts tz po state date).
Proof.
  destruct (resetWeek_checkAt state wk) as (Hclear & Hframe).
  split; intros Hwk; rewrite !dayCounts_counts;
    change (habits (resetWeek state wk)) with (habits state);
    cbn [done total]; f_equal.
  - rewrite (filter_ext_in_bool _ (λ _, false)); [by rewrite filter_false|].
    intros h Hin. unfold isChecked. rewrite Hwk, Hclear by done.
    apply andb_false_r.
  - f_equal. apply filter_ext_in_bool. intros h Hin. f_equal.
    unfold isChecked. rewrite Hframe; [done|]. left. done.
Qed.

Lemma resetWeek_dayCounts_witness :
  let state :=
    toggleCheck docRead (id habitRead) (weekKey 0 1704240000000) 3 true in
  dayCounts 0 noOtherFormats state 1704240000000 = {| done := 1; total := 1 |} ∧
  dayCounts 0 noOtherFormats (resetWeek state (weekKey 0 1704240000000))
    1704240000000
  = {| done := 0; total := 1 |}.
Proof.
  cbv zeta. split; [vm_compute; reflexivity|].
  destruct (resetWeek_dayCounts 0 noOtherFormats
              (toggleCheck docRead (id habitRead) (weekKey 0 1704240000000)
                 3 true)
              (weekKey 0 1704240000000) 1704240000000) as [H _].
  rewrite H by reflexivity. vm_compute. reflexivity.
Defined.

Lemma resetWeek_clears_week_witness :
  let state :=
    toggleCheck docRead (id habitRead) (str "2023-12-31") 3 true in
  checkAt (checks state) (id habitRead) (str "2023-12-31") (numberKey 3)
  = Some true ∧
  checkAt (checks (resetWeek state (str "2023-12-31"))) (id habitRead)
          (str "2023-12-31") (numberKey 3)
  = None.
Proof.
  cbv zeta.
  split; [apply toggleCheck_at; [right|]; vm_compute; reflexivity|].
  destruct (resetWeek_clears_week
              (toggleCheck docRead (id habitRead) (str "2023-12-31") 3 true)
              (str "2023-12-31")) as (_ & H & _).
  apply H. rewrite toggleCheck_habits. apply list_elem_of_singleton.
  reflexivity.
Defined.

(** X7: resetting a week twice is resetting it once, and the resets of two
    weeks can be done in either order. *)
Theorem resetWeek_idempotent_commute (state : Document) (wk wk' : ustring) :
  resetWeek (resetWeek state wk) wk = resetWeek state wk ∧
  resetWeek (resetWeek state wk) wk' = resetWeek (resetWeek state wk') wk.
Proof.
  split; apply Document_eq; try done; apply map_eq; intros i;
    rewrite (resetWeek_lookup (resetWeek state wk)),
            ?(resetWeek_lookup (resetWeek state wk')), !resetWeek_lookup;
    change (habitIds (resetWeek state wk)) with (habitIds state);
    change (habitIds (resetWeek state wk')) with (habitIds state);
    destruct (decide (i ∈ habitIds state)); try done;
    destruct (checks state !! i) as [bw|]; try done; cbn.
  - by rewrite delete_delete_eq.
  - by rewrite delete_delete.
Qed.

(** ** Toggles, one after another *)

Lemma toggleCheck_twice state (i wk : ustring) d b b' :
  plainId state i → inherited wk = false →
  toggleCheck (toggleCheck state i wk d b) i wk d b' = toggleCheck state i wk d b'.
Proof.
  intros Hi Hw.
  pose proof (toggleCheck_plainId state i wk d b i Hi) as Hi'.
  apply Document_eq; [by rewrite !toggleCheck_habits|].
  rewrite (toggleCheck_checks (toggleCheck state i wk d b) i wk d b' Hi' Hw).
  cbv zeta.
  rewrite (toggleCheck_checks state i wk d b Hi Hw),
          (toggleCheck_checks state i wk d b' Hi Hw). cbv zeta.
  rewrite !lookup_insert_eq, !insert_insert_eq. reflexivity.
Qed.

Lemma toggleCheck_commute state (i wk : ustring) d b (i' wk' : ustring) d' b' :
  plainId state i → plainId state i' →
  inherited wk = false → inherited wk' = false →
  (i, wk, numberKey d) ≠ (i', wk', numberKey d') →
  toggleCheck (toggleCheck state i wk d b) i' wk' d' b'
  = toggleCheck (toggleCheck state i' wk' d' b') i wk d b.
Proof.
  intros Hi Hi' Hw Hw' Hne.
  pose proof (toggleCheck_plainId state i wk d b i' Hi') as Hi2'.
  pose proof (toggleCheck_plainId state i' wk' d' b' i Hi) as Hi2.
  apply Document_eq; [by rewrite !toggleCheck_habits|].
  rewrite (toggleCheck_checks (toggleCheck state i wk d b) i' wk' d' b' Hi2' Hw').
  rewrite (toggleCheck_checks (toggleCheck state i' wk' d' b') i wk d b Hi2 Hw).
  cbv zeta.
  rewrite (toggleCheck_checks state i wk d b Hi Hw),
          (toggleCheck_checks state i' wk' d' b' Hi' Hw'). cbv zeta.
  destruct (decide (i' = i)) as [->|Hn].
  - rewrite !lookup_insert_eq, !insert_insert_eq. f_equal.
    set (bw := match checks state !! i with Some m => m | None => ∅ end).
    destruct (decide (wk' = wk)) as [->|Hnw].
    + rewrite !lookup_insert_eq, !insert_insert_eq.
      f_equal. apply insert_insert_ne. congruence.
    + rewrite !lookup_insert_ne by done. by apply insert_insert_ne.
  - rewrite !lookup_insert_ne by done. by apply insert_insert_ne.
Qed.

(** X8: on a page whose built-in objects are as the browser made them, for
    toggles whose ids have an entry in [checks] or are not names that
    [Object.prototype] provides: the toggles change the document alone, as
    [toggleCheck] says; of two toggles of one box the later one counts; and
    the toggles of two different boxes can be done in either order, the
    objects they leave are the same. *)
Theorem toggleCheck_compose (state : Document) (i wk : ustring) (d : Z)
  (b : bool) (i' wk' : ustring) (d' : Z) (b' : bool) :
  plainId state i → plainId state i' →
  inherited wk = false → inherited wk' = false →
  let h := page.clean state in
  let k := numberKey d in
  let k' := numberKey d' in
  page.assign h i wk k b = page.clean (toggleCheck state i wk d b) ∧
  page.assign (page.assign h i wk k b) i' wk' k' b'
  = page.clean (toggleCheck (toggleCheck state i wk d b) i' wk' d' b') ∧
  page.assign (page.assign h i wk k b) i wk k b' = page.assign h i wk k b' ∧
  ((i, wk, k) ≠ (i', wk', k') →
   page.assign (page.assign h i wk k b) i' wk' k' b'
   = page.assign (page.assign h i' wk' k' b') i wk k b) ∧
  (0 <= d <= 6 → 0 <= d' <= 6 → (i, wk, d) ≠ (i', wk', d') →
   page.assign (page.assign h i wk k b) i' wk' k' b'
   = page.assign (page.assign h i' wk' k' b') i wk k b).
Proof.
  intros Hi Hi' Hw Hw'. cbv zeta.
  pose proof (toggleCheck_plainId state i wk d b i' Hi') as Hi2'.
  pose proof (toggleCheck_plainId state i' wk' d' b' i Hi) as Hi2.
  pose proof (toggleCheck_plainId state i wk d b i Hi) as Hi3.
  assert (Hc : (i, wk, numberKey d) ≠ (i', wk', numberKey d') →
               page.assign (page.assign (page.clean state) i wk (numberKey d) b)
                 i' wk' (numberKey d') b'
               = page.assign
                   (page.assign (page.clean state) i' wk' (numberKey d') b')
                   i wk (numberKey d) b).
  { intros Hne.
    rewrite (page_assign_clean state i wk d b Hi Hw).
    rewrite (page_assign_clean state i' wk' d' b' Hi' Hw').
    rewrite (page_assign_clean _ i' wk' d' b' Hi2' Hw').
    rewrite (page_assign_clean _ i wk d b Hi2 Hw).
    f_equal. by apply toggleCheck_commute. }
  split; [by apply page_assign_clean|]. split; [|split; [|split]].
  - rewrite (page_assign_clean state i wk d b Hi Hw).
    by apply page_assign_clean.
  - rewrite (page_assign_clean state i wk d b Hi Hw).
    rewrite (page_assign_clean _ i wk d b' Hi3 Hw).
    rewrite (page_assign_clean state i wk d b' Hi Hw).
    f_equal. by apply toggleCheck_twice.
  - exact Hc.
  - intros Hd Hd' Hne. apply Hc.
    intros [= -> -> Hk]. apply Hne.
    by rewrite (numberKey_inj_day d d' Hd Hd' Hk).
Qed.

(** With the id [__proto__] the order of two toggles does matter: after
    the toggle of [__proto__] the week is found on [Object.prototype], and
    the toggle of the habit writes there, not into the document. *)
Lemma toggles_with_proto_do_not_commute :
  let state :=
    {| habits := [habitRead]; checks := {[id habitRead := ∅]} |} in
  let h := page.clean state in
  let wk := str "2023-12-31" in
  page.document
    (page.assign (page.assign h (str "__proto__") wk (numberKey 1) true)
       (id habitRead) wk (numberKey 2) true)
  = state ∧
  page.document
    (page.assign (page.assign h (id habitRead) wk (numberKey 2) true)
       (str "__proto__") wk (numberKey 1) true)
  = toggleCheck state (id habitRead) wk 2 true ∧
  toggleCheck state (id habitRead) wk 2 true ≠ state.
Proof.
  cbv zeta. split; [vm_compute; reflexivity|].
  split; [vm_compute; reflexivity|].
  intros H.
  pose proof (toggleCheck_at
                {| habits := [habitRead]; checks := {[id habitRead := ∅]} |}
                (id habitRead) (str "2023-12-31") 2 true) as Hat.
  rewrite H in Hat. vm_compute in Hat.
  by discriminate Hat; [right; vm_compute|vm_compute].
Qed.

Lemma toggleCheck_compose_witness :
  page.assign
    (page.assign (page.clean docRead) (id habitRead) (str "2023-12-31")
       (numberKey 1) true)
    (id habitRead) (str "2023-12-31") (numberKey 2) true
  = page.assign
      (page.assign (page.clean docRead) (id habitRead) (str "2023-12-31")
         (numberKey 2) true)
      (id habitRead) (str "2023-12-31") (numberKey 1) true.
Proof.
  assert (Hi : plainId docRead (id habitRead))
    by (right; vm_compute; reflexivity).
  assert (Hw : inherited (str "2023-12-31") = false)
    by (vm_compute; reflexivity).
  destruct (toggleCheck_compose docRead (id habitRead) (str "2023-12-31") 1
              true (id habitRead) (str "2023-12-31") 2 true Hi Hi Hw Hw)
    as (_ & _ & _ & _ & H).
  apply H; [lia|lia|]. intros [= E].
Defined.

(** ** Toggles and the counts *)

(** Counting with a test that was changed on one id only, in a list whose
    ids are distinct. *)
Lemma count_changed_at (l : list Habit) (h : Habit) (f f' : Habit → bool) :
  NoDup (map id l) → h ∈ l →
  (∀ x, x ∈ l → id x ≠ id h → f' x = f x) →
  (length (List.filter f' l) + (if f h then 1 else 0)
   = length (List.filter f l) + (if f' h then 1 else 0))%nat.
Proof.
  induction l as [|x l IH]; intros Hnd Hin Hf.
  - by apply elem_of_nil in Hin.
  - cbn [map] in Hnd. apply NoDup_cons in Hnd as [Hx Hnd].
    cbn [List.filter]. apply elem_of_cons in Hin as [->|Hin].
    + rewrite (filter_ext_in_bool f' f l).
      * destruct (f' x), (f x); cbn [length]; lia.
      * intros y Hy. apply Hf; [by right|].
        intros E. apply Hx. rewrite <- E. apply list_elem_of_fmap. by exists y.
    + assert (Hne : id x ≠ id h).
      { intros E. apply Hx. rewrite E. apply list_elem_of_fmap. by exists h. }
      rewrite (Hf x) by (done || by left).
      assert (Hf' : ∀ y, y ∈ l → id y ≠ id h → f' y = f y)
        by (intros y Hy; apply Hf; by right).
      specialize (IH Hnd Hin Hf').
      destruct (f x); cbn [length]; lia.
Qed.

(** X9: on a page whose built-in objects are as the browser made them and
    in a document whose habit ids are distinct, the toggle of the box of a
    counted habit for the day of a date, when the id of the habit has an
    entry in [checks] or is not a name that [Object.prototype] provides,
    changes the document alone and changes [done] for that date by that one
    habit and nothing else: [total] stays, and [done] loses the habit if
    its box was checked and gains it if the box is checked now. *)
Theorem toggleCheck_dayCounts (tz : Z) (po : ustring → option Z)
  (state : Document) (h : Habit) (date : Z) (b : bool) :
  NoDup (habitIds state) → h ∈ habits state → isActive po h date = true →
  plainId state (id h) →
  let state' :=
    toggleCheck state (id h) (weekKey tz date) (getDay tz date) b in
  page.assign (page.clean state) (id h) (weekKey tz date)
    (numberKey (getDay tz date)) b
  = page.clean state' ∧
  total (dayCounts tz po state' date) = total (dayCounts tz po state date) ∧
  (done (dayCounts tz po state' date)
   + (if isChecked tz state h date then 1 else 0)
   = done (dayCounts tz po state date) + (if b then 1 else 0))%nat.
Proof.
  intros Hnd Hin Hact Hp. cbv zeta.
  pose proof (weekKey_not_inherited tz date) as Hw.
  split; [by apply page_assign_clean|].
  rewrite !dayCounts_counts.
  rewrite (toggleCheck_habits state (id h) (weekKey tz date) (getDay tz date) b).
  cbn [done total]. split; [done|].
  pose proof (count_changed_at (habits state) h
                (λ x, isActive po x date && isChecked tz state x date)
                (λ x, isActive po x date
                      && isChecked tz
                           (toggleCheck state (id h) (weekKey tz date)
                              (getDay tz date) b) x date)
                Hnd Hin) as Hc.
  cbv beta in Hc. rewrite Hact in Hc. cbn [andb] in Hc.
  assert (Hnow : isChecked tz
                   (toggleCheck state (id h) (weekKey tz date)
                      (getDay tz date) b) h date = b).
  { unfold isChecked. rewrite toggleCheck_at by done. by destruct b. }
  rewrite Hnow in Hc. apply Hc.
  intros x Hx Hne. f_equal. unfold isChecked.
  rewrite toggleCheck_other; [done|]. congruence.
Qed.

Lemma toggleCheck_dayCounts_witness :
  dayCounts 0 noOtherFormats
    (toggleCheck docRead (id habitRead) (weekKey 0 1704240000000)
       (getDay 0 1704240000000) true)
    1704240000000
  = {| done := 1; total := 1 |}.
Proof.
  destruct (toggleCheck_dayCounts 0 noOtherFormats docRead habitRead
              1704240000000 true) as (_ & Ht & Hd).
  - apply (bool_decide_unpack (NoDup _)). vm_compute. exact I.
  - apply list_elem_of_singleton. reflexivity.
  - vm_compute. reflexivity.
  - right. vm_compute. reflexivity.
  - cbv zeta in Ht, Hd.
    destruct (dayCounts 0 noOtherFormats
                (toggleCheck docRead (id habitRead) (weekKey 0 1704240000000)
                   (getDay 0 1704240000000) true) 1704240000000)
      as [dn tt].
    cbn [done total] in Ht, Hd.
    replace (total (dayCounts 0 noOtherFormats docRead 1704240000000))
      with 1%nat in Ht by (vm_compute; reflexivity).
    replace (done (dayCounts 0 noOtherFormats docRead 1704240000000))
      with 0%nat in Hd by (vm_compute; reflexivity).
    replace (isChecked 0 docRead habitRead 1704240000000)
      with false in Hd by (vm_compute; reflexivity).
    f_equal; lia.
Defined.

(** X10: on a page whose built-in objects are as the browser made them, a
    toggle whose id has an entry in [checks] or is not a name that
    [Object.prototype] provides, for another week, for another day of the
    week, or with an id that is in no habit, changes the document alone
    and leaves what [dayCounts] reports for a date as it was. *)
Theorem toggleCheck_dayCounts_elsewhere (tz : Z) (po : ustring → option Z)
  (state : Document) (i : ustring) (ws : Z) (day : Z) (b : bool) (date : Z) :
  0 <= day <= 6 → plainId state i →
  weekKey tz ws ≠ weekKey tz date ∨ day ≠ getDay tz date ∨ i ∉ habitIds state →
  let state' := toggleCheck state i (weekKey tz ws) day b in
  (page.onCheckboxChange tz (page.clean state) ∅ ws i day b).1
  = page.clean state' ∧
  dayCounts tz po state' date = dayCounts tz po state date.
Proof.
  intros Hday Hp Hne. cbv zeta.
  split.
  { unfold page.onCheckboxChange. cbv zeta. cbn [fst].
    apply page_assign_clean; [done|apply weekKey_not_inherited]. }
  rewrite !dayCounts_counts.
  rewrite (toggleCheck_habits state i (weekKey tz ws) day b).
  f_equal. apply f_equal. apply filter_ext_in_bool. intros h Hh. f_equal.
  unfold isChecked. rewrite toggleCheck_other; [done|].
  intros [= Hi Hw Hk].
  pose proof (WeekDay_range (LocalTime tz date)) as Hr.
  apply numberKey_inj_day in Hk; [|exact Hr|done].
  destruct Hne as [H|[H|H]].
  - apply H. symmetry. exact Hw.
  - apply H. symmetry. exact Hk.
  - apply H. rewrite <- Hi. unfold habitIds. apply list_elem_of_fmap.
    by exists h.
Qed.

Lemma toggleCheck_dayCounts_elsewhere_witness :
  dayCounts 0 noOtherFormats
    (toggleCheck docRead (id habitRead) (weekKey 0 1704240000000) 5 true)
    1704240000000
  = dayCounts 0 noOtherFormats docRead 1704240000000.
Proof.
  destruct (toggleCheck_dayCounts_elsewhere 0 noOtherFormats docRead
              (id habitRead) 1704240000000 5 true 1704240000000)
    as [_ H].
  - lia.
  - right. vm_compute. reflexivity.
  - right. left. vm_compute. discriminate.
  - exact H.
Defined.

(** ** What the handlers store *)

(** X11: each of the four handlers that change the state leaves it in the
    store: what [load] then reads is the state the handler left; the form
    does so for every name it accepts, and the change handler of the check
    boxes for every id that has an entry in [checks] or is not a name that
    [Object.prototype] provides, on a page whose built-in objects are as the
    browser made them: then it changes no object but the document. No
    handler touches another key of the store. *)
Theorem handlers_store_state (tz : Z) (state : Document)
  (st : gmap ustring ustring) (value random36 : ustring) (now ws : Z)
  (i : ustring) (day : Z) (b : bool) :
  let added := onAddSubmit state st value random36 now in
  let toggled := onCheckboxChange tz state st ws i day b in
  let deleted := onDeleteClick state st i in
  let reset := onResetClick tz state st ws in
  (forallb isTrimSpace value = false →
   asDocument (load added.2) = Some added.1) ∧
  (plainId state i →
   page.onCheckboxChange tz (page.clean state) st ws i day b
   = (page.clean toggled.1, toggled.2) ∧
   asDocument (load toggled.2) = Some toggled.1) ∧
  asDocument (load deleted.2) = Some deleted.1 ∧
  asDocument (load reset.2) = Some reset.1 ∧
  reset.1 = resetWeek state (weekKey tz ws) ∧
  ∀ k, k ≠ STORAGE_KEY →
    getItem added.2 k = getItem st k ∧ getItem toggled.2 k = getItem st k ∧
    getItem deleted.2 k = getItem st k ∧ getItem reset.2 k = getItem st k.
Proof.
  cbv zeta. unfold onCheckboxChange, onDeleteClick, onResetClick.
  cbv zeta. cbn [fst snd].
  split; [|split; [|split; [|split; [|split; [done|]]]]];
    try (rewrite load_save; apply asDocument_docToJs).
  - intros Hv. pose proof (trim_nonblank value Hv) as Hne.
    unfold onAddSubmit. cbv zeta. destruct (trim value); [done|].
    cbn [fst snd]. rewrite load_save. apply asDocument_docToJs.
  - intros Hp. split; [|rewrite load_save; apply asDocument_docToJs].
    unfold page.onCheckboxChange. cbv zeta.
    rewrite (page_assign_clean state i (weekKey tz ws) day b Hp
               (weekKey_not_inherited tz ws)).
    reflexivity.
  - intros k Hk.
    assert (Hs : ∀ v, getItem (save v st) k = getItem st k).
    { intros v. unfold getItem, save, setItem. by rewrite lookup_insert_ne. }
    rewrite !Hs. split; [|done].
    unfold onAddSubmit. cbv zeta. destruct (trim value); [done|].
    cbn [snd]. apply Hs.
Qed.

(** ** Bounds of the counts *)

(** X12: [dayCounts] never reports more done than counted, nor more
    counted than there are habits. *)
Theorem dayCounts_bounds (tz : Z) (po : ustring → option Z)
  (state : Document) (date : Z) :
  (done (dayCounts tz po state date) <= total (dayCounts tz po state date)
   <= length (habits state))%nat.
Proof.
  split; [apply dayCounts_done_le_total|].
  rewrite dayCounts_counts. cbn [total]. apply List.filter_length_le.
Qed.

(** X13: a habit that is counted for a date is counted for every later
    date: [total] never goes down as the date goes on. *)
Theorem dayCounts_total_monotone (tz : Z) (po : ustring → option Z)
  (state : Document) (date1 date2 : Z) :
  date1 <= date2 →
  (∀ h, isActive po h date1 = true → isActive po h date2 = true) ∧
  (total (dayCounts tz po state date1) <= total (dayCounts tz po state date2))%nat.
Proof.
  intros Hle.
  assert (Hact : ∀ h, isActive po h date1 = true → isActive po h date2 = true).
  { intros h. unfold isActive, dateLe.
    destruct (Date_parse po (createdAt h)); [|done].
    rewrite !Z.leb_le. lia. }
  split; [exact Hact|].
  rewrite !dayCounts_counts. cbn [total].
  induction (habits state) as [|h l IH]; [done|].
  cbn [List.filter]. specialize (Hact h).
  destruct (isActive po h date1).
  - rewrite Hact by done. cbn [length]. lia.
  - destruct (isActive po h date2); cbn [length]; lia.
Qed.

Lemma dayCounts_total_monotone_witness :
  (total (dayCounts utcPlus1 noOtherFormats docRead 1704000000000)
   <= total (dayCounts utcPlus1 noOtherFormats docRead 1704240000000))%nat.
Proof.
  apply (dayCounts_total_monotone utcPlus1 noOtherFormats docRead
           1704000000000 1704240000000).
  lia.
Defined.

(** X14: a habit whose [createdAt] gives an Invalid Date is never counted:
    for every date the counts are those of the document without such
    habits. *)
Theorem dayCounts_invalid_createdAt (tz : Z) (po : ustring → option Z)
  (state : Document) (date : Z) :
  (∀ h, Date_parse po (createdAt h) = None → isActive po h date = false) ∧
  dayCounts tz po state date
  = dayCounts tz po
      {| habits := filter (λ h, is_Some (Date_parse po (createdAt h)))
                     (habits state);
         checks := checks state |}
      date.
Proof.
  split; [intros h H; unfold isActive; by rewrite H|].
  rewrite !dayCounts_counts. cbn [habits].
  unfold isChecked. cbn [checks].
  induction (habits state) as [|h l IH]; [done|].
  rewrite filter_cons. cbn [List.filter].
  destruct (decide (is_Some (Date_parse po (createdAt h)))) as [Hs|Hn].
  - cbn [List.filter]. injection IH as Hd Ht.
    destruct (isActive po h date); cbn [andb]; [|by f_equal].
    destruct (match checkAt (checks state) (id h) (weekKey tz date)
                      (numberKey (getDay tz date)) with
              | Some true => true | _ => false end);
      cbn [length]; f_equal; congruence.
  - assert (Hf : isActive po h date = false).
    { unfold isActive. destruct (Date_parse po (createdAt h)); [|done].
      destruct Hn. by eexists. }
    rewrite Hf. cbn [andb]. exact IH.
Qed.

(** ** Moving from week to week *)

Lemma Day_shift t k : Day (t + k * msPerDay) = Day t + k.
Proof. unfold Day. apply Z.div_add. discriminate. Qed.

Lemma WeekDay_shift t k : WeekDay (t + k * msPerDay) = (WeekDay t + k) mod 7.
Proof. unfold WeekDay. rewrite Day_shift. zdiv. Qed.

(** The start of the week of a date a whole number of weeks away. *)
Lemma startOfWeek_shift tz d k :
  startOfWeek tz (d + 7 * k * msPerDay) = startOfWeek tz d + 7 * k * msPerDay.
Proof.
  rewrite !startOfWeek_eq. unfold LocalTime.
  replace (d + 7 * k * msPerDay + tz) with (d + tz + 7 * k * msPerDay) by ring.
  rewrite Day_shift, WeekDay_shift.
  pose proof (WeekDay_range (d + tz)) as Hr.
  replace ((WeekDay (d + tz) + 7 * k) mod 7) with (WeekDay (d + tz)) by zdiv.
  ring.
Qed.

Lemma startOfWeek_next tz d :
  startOfWeek tz (d + 7 * msPerDay) = startOfWeek tz d + 7 * msPerDay.
Proof.
  pose proof (startOfWeek_shift tz d 1) as H.
  rewrite Z.mul_1_r in H. exact H.
Qed.

Lemma startOfWeek_prev tz d :
  startOfWeek tz (d - 7 * msPerDay) = startOfWeek tz d - 7 * msPerDay.
Proof.
  pose proof (startOfWeek_shift tz (d - 7 * msPerDay) 1) as H.
  rewrite Z.mul_1_r in H.
  replace (d - 7 * msPerDay + 7 * msPerDay) with d in H by lia.
  rewrite H. lia.
Qed.

(** The days of the week that begins at a week start [ws]. *)
Lemma week_days tz ws i :
  startOfWeek tz ws = ws → 0 <= i <= 6 →
  startOfWeek tz (ws + i * msPerDay) = ws ∧ getDay tz (ws + i * msPerDay) = i.
Proof.
  intros Hws Hi.
  pose proof (WeekDay_startOfWeek tz ws) as Hw. rewrite Hws in Hw.
  pose proof (startOfWeek_eq tz ws) as He. rewrite Hws, Hw in He.
  unfold getDay. rewrite startOfWeek_eq. unfold LocalTime in *.
  replace (ws + i * msPerDay + tz) with (ws + tz + i * msPerDay) by ring.
  rewrite Day_shift, WeekDay_shift, Hw.
  replace ((0 + i) mod 7) with i by zdiv.
  split; [|done].
  transitivity ((Day (ws + tz) - 0) * msPerDay - tz); [ring|by symmetry].
Qed.

Lemma zone_homeNextWeek_fixed tz ws :
  zone.homeNextWeek (zone.fixed tz) (Some ws)
  = zone.TimeClip (ws + 7 * msPerDay).
Proof.
  unfold zone.homeNextWeek. cbn [mbind option_bind].
  rewrite zone_setDate_fixed, zone_getDate_fixed, setDate_eq. f_equal. lia.
Qed.

Lemma zone_homePrevWeek_fixed tz ws :
  zone.homePrevWeek (zone.fixed tz) (Some ws)
  = zone.TimeClip (ws - 7 * msPerDay).
Proof.
  unfold zone.homePrevWeek. cbn [mbind option_bind].
  rewrite zone_setDate_fixed, zone_getDate_fixed, setDate_eq. f_equal. lia.
Qed.

Lemma zone_homeWeekEnd_fixed tz ws :
  zone.homeWeekEnd (zone.fixed tz) (Some ws)
  = zone.TimeClip (ws + 6 * msPerDay).
Proof.
  unfold zone.homeWeekEnd. cbn [mbind option_bind].
  rewrite zone_setDate_fixed, zone_getDate_fixed, setDate_eq. f_equal. lia.
Qed.

Lemma zone_homeToday_eq z now :
  zone.homeToday z now = zone.startOfWeek z now.
Proof. unfold zone.homeToday. reflexivity. Qed.

(** X15: with a fixed UTC offset, from a valid date the week buttons of the
    two pages move the week shown by seven days, to an Invalid Date when
    that leaves the range of Date, and an Invalid Date stays one; where the
    date a button leads to is valid, the other button leads back, and the
    buttons commute with [startOfWeek]: from the start of a week they lead
    to the start of the week after or before, which is another week. The
    Today button leads to the start of a week. *)
Theorem week_buttons (tz ws now : Z) :
  zone.TimeClip ws = Some ws →
  let z := zone.fixed tz in
  zone.homeNextWeek z (Some ws) = zone.TimeClip (ws + 7 * msPerDay) ∧
  zone.homePrevWeek z (Some ws) = zone.TimeClip (ws - 7 * msPerDay) ∧
  zone.nextWeek z (Some ws) = zone.homeNextWeek z (Some ws) ∧
  zone.prevWeek z (Some ws) = zone.homePrevWeek z (Some ws) ∧
  zone.homeNextWeek z None = None ∧ zone.homePrevWeek z None = None ∧
  (∀ n, zone.homeNextWeek z (Some ws) = Some n →
     zone.homePrevWeek z (Some n) = Some ws ∧
     ∀ s, zone.startOfWeek z ws = Some s →
       zone.startOfWeek z n = zone.homeNextWeek z (Some s) ∧
       zone.startOfWeek z n ≠ Some s) ∧
  (∀ p, zone.homePrevWeek z (Some ws) = Some p →
     zone.homeNextWeek z (Some p) = Some ws ∧
     ∀ s, zone.startOfWeek z ws = Some s →
       zone.startOfWeek z p = zone.homePrevWeek z (Some s) ∧
       zone.startOfWeek z p ≠ Some s) ∧
  (∀ t, zone.homeToday z now = Some t → zone.startOfWeek z t = Some t).
Proof.
  intros Hws. cbv zeta.
  assert (Hday : msPerDay = 86400000) by reflexivity.
  apply TimeClip_Some in Hws as [_ Hws].
  split; [apply zone_homeNextWeek_fixed|].
  split; [apply zone_homePrevWeek_fixed|].
  split; [unfold zone.nextWeek, zone.homeNextWeek; reflexivity|].
  split; [unfold zone.prevWeek, zone.homePrevWeek; reflexivity|].
  split; [reflexivity|]. split; [reflexivity|].
  split; [|split].
  - intros n Hn. rewrite zone_homeNextWeek_fixed in Hn.
    apply TimeClip_Some in Hn as [-> Hn].
    split.
    + rewrite zone_homePrevWeek_fixed.
      replace (ws + 7 * msPerDay - 7 * msPerDay) with ws by lia.
      by apply TimeClip_valid.
    + intros s Hs. apply zone_startOfWeek_Some in Hs as [-> Hs].
      rewrite zone_startOfWeek_fixed by lia.
      rewrite zone_homeNextWeek_fixed, (startOfWeek_next tz ws).
      split; [reflexivity|].
      pose proof (startOfWeek_le tz ws) as Hle.
      rewrite TimeClip_valid by lia. intros [= E]. lia.
  - intros p Hp. rewrite zone_homePrevWeek_fixed in Hp.
    apply TimeClip_Some in Hp as [-> Hp].
    split.
    + rewrite zone_homeNextWeek_fixed.
      replace (ws - 7 * msPerDay + 7 * msPerDay) with ws by lia.
      by apply TimeClip_valid.
    + intros s Hs. apply zone_startOfWeek_Some in Hs as [-> Hs].
      rewrite zone_startOfWeek_fixed by lia.
      rewrite zone_homePrevWeek_fixed, (startOfWeek_prev tz ws).
      split; [reflexivity|].
      intros E. apply TimeClip_Some in E as [E _]. lia.
  - intros t Ht. rewrite zone_homeToday_eq in Ht.
    exact (zone_startOfWeek_idem tz now t Ht).
Qed.

(** From Sunday 31 December 2023, one hour east of Greenwich, to Sunday
    7 January 2024. *)
Lemma week_buttons_witness :
  zone.homeNextWeek (zone.fixed utcPlus1) (Some 1703977200000)
  = Some 1704582000000.
Proof.
  destruct (week_buttons utcPlus1 1703977200000 0) as (H & _).
  - vm_compute. reflexivity.
  - rewrite H. vm_compute. reflexivity.
Defined.

(** X16: with a fixed UTC offset, for a week shown from its start, the
    second date of the title of the home page is the Saturday of that week:
    six days on, day index 6, with the same week start and the same week
    key; in the last week of the range of Date it is an Invalid Date, and
    the title ends with [NaN/NaN/NaN]. *)
Theorem homeWeekEnd_saturday (tz ws : Z) :
  zone.startOfWeek (zone.fixed tz) ws = Some ws →
  let z := zone.fixed tz in
  zone.homeWeekEnd z (Some ws) = zone.TimeClip (ws + 6 * msPerDay) ∧
  (∀ e, zone.homeWeekEnd z (Some ws) = Some e →
     zone.getDay z e = 6 ∧ zone.startOfWeek z e = Some ws ∧
     zone.weekKey z e = zone.weekKey z ws) ∧
  zone.setHomeWeekTitle z (Some ws)
  = zone.fmtMDY z (Some ws) ++ [32%N; 8211%N; 32%N]
      ++ zone.fmtMDY z (zone.TimeClip (ws + 6 * msPerDay)) ∧
  (zone.maxTime < ws + 6 * msPerDay →
   zone.setHomeWeekTitle z (Some ws)
   = zone.fmtMDY z (Some ws) ++ [32%N; 8211%N; 32%N] ++ str "NaN/NaN/NaN").
Proof.
  intros Hws. cbv zeta.
  pose proof Hws as Hws'.
  apply zone_startOfWeek_Some in Hws' as [Hs Hr]. symmetry in Hs.
  destruct (week_days tz ws 6 Hs) as [Hs6 Hd6]; [lia|].
  pose proof (zone_homeWeekEnd_fixed tz ws) as He.
  split; [exact He|]. split; [|split].
  - intros e Hee. rewrite He in Hee. apply TimeClip_Some in Hee as [-> Hee].
    rewrite zone_getDay_fixed. split; [exact Hd6|].
    assert (Hsw : zone.startOfWeek (zone.fixed tz) (ws + 6 * msPerDay)
                  = Some ws).
    { rewrite zone_startOfWeek_fixed by lia. rewrite Hs6.
      by apply TimeClip_valid. }
    split; [exact Hsw|]. unfold zone.weekKey. by rewrite Hsw, Hws.
  - unfold zone.setHomeWeekTitle. cbv zeta. by rewrite He.
  - intros Hmax. unfold zone.setHomeWeekTitle. cbv zeta. rewrite He.
    replace (zone.TimeClip (ws + 6 * msPerDay)) with (@None Z); [done|].
    symmetry. apply TimeClip_None. lia.
Qed.

Lemma homeWeekEnd_saturday_witness :
  zone.homeWeekEnd (zone.fixed utcPlus1) (Some 1703977200000)
  = Some 1704495600000.
Proof.
  destruct (homeWeekEnd_saturday utcPlus1 1703977200000) as (H & _).
  - vm_compute. reflexivity.
  - rewrite H. vm_compute. reflexivity.
Defined.

(** ** The weekly chart *)

(** The data loop of [renderWeeklyChart] from any list of points and any
    maximum, over any list of day offsets. *)
Lemma weeklyChartData_foldl tz po state ws (l : list Z) (pts : list nat)
  (mx : nat) :
  foldl
    (λ '(points, maxY) i,
       let d := setDate tz ws (getDate tz ws + i) in
       let done := done (dayCounts tz po state d) in
       (points ++ [done], if (maxY <? done)%nat then done else maxY))
    (pts, mx) l
  = (pts ++ map (λ i, done (dayCounts tz po state (ws + i * msPerDay))) l,
     foldl Nat.max mx
       (map (λ i, done (dayCounts tz po state (ws + i * msPerDay))) l)).
Proof.
  revert pts mx. induction l as [|i l IH]; intros pts mx.
  - cbn. by rewrite app_nil_r.
  - cbn [foldl map]. rewrite IH. rewrite setDate_eq.
    replace (ws + (getDate tz ws + i - getDate tz ws) * msPerDay)
      with (ws + i * msPerDay) by lia.
    rewrite <- app_assoc. cbn [app]. f_equal. f_equal.
    destruct (Nat.ltb_spec mx (done (dayCounts tz po state (ws + i * msPerDay))));
      lia.
Qed.

Lemma foldl_max_spec (l : list nat) (mx : nat) :
  (mx <= foldl Nat.max mx l)%nat ∧
  (∀ p, p ∈ l → p <= foldl Nat.max mx l)%nat ∧
  (foldl Nat.max mx l = mx ∨ foldl Nat.max mx l ∈ l).
Proof.
  revert mx. induction l as [|x l IH]; intros mx.
  - cbn. split; [lia|]. split; [|by left]. intros p Hp.
    by apply elem_of_nil in Hp.
  - cbn [foldl]. destruct (IH (Nat.max mx x)) as (H1 & H2 & H3).
    split; [lia|]. split.
    + intros p [->|Hp]%elem_of_cons; [lia|by apply H2].
    + destruct H3 as [H3|H3]; [|right; by right].
      rewrite H3. destruct (Nat.max_spec mx x) as [[_ ->]|[_ ->]];
        [right; left|left]; done.
Qed.

Lemma weeklyChartData_eq tz po state ws :
  weeklyChartData tz po state ws
  = (map (λ i, done (dayCounts tz po state (ws + i * msPerDay))) (seqZ 0 7),
     Nat.max
       (foldl Nat.max 1%nat
          (map (λ i, done (dayCounts tz po state (ws + i * msPerDay)))
             (seqZ 0 7)))
       1).
Proof.
  unfold weeklyChartData. by rewrite weeklyChartData_foldl.
Qed.

(** X17: the chart has seven points, the [done] of [dayCounts] for the
    date [ws] and the six days after it; when [ws] is the start of a week,
    point [i] is the number of counted habits whose check entry for day
    index [i] of that week, the box of column [i] of the home page for that
    week, is true. *)
Theorem weeklyChartData_points (tz : Z) (po : ustring → option Z)
  (state : Document) (ws : Z) :
  let points := (weeklyChartData tz po state ws).1 in
  length points = 7%nat ∧
  (∀ i, 0 <= i <= 6 →
     points !! Z.to_nat i
     = Some (done (dayCounts tz po state (ws + i * msPerDay)))) ∧
  (startOfWeek tz ws = ws →
   ∀ i, 0 <= i <= 6 →
     points !! Z.to_nat i
     = Some (length
               (List.filter
                  (λ h, isActive po h (ws + i * msPerDay)
                        && match checkAt (checks state) (id h) (weekKey tz ws)
                                         (numberKey i) with
                           | Some true => true
                           | _ => false
                           end)
                  (habits state)))).
Proof.
  cbv zeta. rewrite weeklyChartData_eq. cbn [fst].
  assert (Hp : ∀ i, 0 <= i <= 6 →
            map (λ i, done (dayCounts tz po state (ws + i * msPerDay)))
                (seqZ 0 7) !! Z.to_nat i
            = Some (done (dayCounts tz po state (ws + i * msPerDay)))).
  { intros i Hi.
    change (map ?f ?l) with (f <$> l). rewrite list_lookup_fmap.
    rewrite lookup_seqZ_lt by lia. cbn.
    by replace (0 + Z.of_nat (Z.to_nat i)) with i by lia. }
  split; [done|]. split; [exact Hp|].
  intros Hws i Hi. rewrite Hp by done. f_equal.
  rewrite dayCounts_counts. cbn [done].
  destruct (week_days tz ws i Hws Hi) as [Hs Hd].
  unfold isChecked, weekKey. by rewrite Hs, Hd, Hws.
Qed.

Lemma weeklyChartData_points_witness :
  let state :=
    toggleCheck docRead (id habitRead) (weekKey 0 1704240000000) 3 true in
  (weeklyChartData 0 noOtherFormats state (startOfWeek 0 1704240000000)).1
  = [0; 0; 0; 1; 0; 0; 0]%nat.
Proof.
  cbv zeta.
  destruct (weeklyChartData_points 0 noOtherFormats
              (toggleCheck docRead (id habitRead) (weekKey 0 1704240000000)
                 3 true)
              (startOfWeek 0 1704240000000)) as (Hlen & Hp & _).
  cbv zeta in Hlen, Hp.
  apply list_eq. intros k.
  destruct (decide (k < 7)%nat) as [Hk|Hk].
  - replace k with (Z.to_nat (Z.of_nat k)) by lia.
    rewrite Hp by lia.
    do 7 (destruct k as [|k]; [vm_compute; reflexivity|]). lia.
  - rewrite !lookup_ge_None_2; [done|cbn; lia|lia].
Defined.

(** X18: [maxY] is at least 1 and at least every point, it is 1 or one of
    the points, and no point is more than the number of habits: the
    quotient [val / maxY] of each point lies between 0 and 1. The number
    of the summary line is the sum of the points. *)
Theorem weeklyChartData_maxY (tz : Z) (po : ustring → option Z)
  (state : Document) (ws : Z) :
  let '(points, maxY) := weeklyChartData tz po state ws in
  (1 <= maxY)%nat ∧
  (∀ p, p ∈ points → (p <= maxY)%nat ∧ (p <= length (habits state))%nat) ∧
  (maxY = 1%nat ∨ maxY ∈ points) ∧
  weeklySummary points = sum_list points.
Proof.
  rewrite weeklyChartData_eq.
  set (points := map _ _).
  destruct (foldl_max_spec points 1) as (H1 & H2 & H3).
  split; [lia|]. split; [|split].
  - intros p Hp. split; [specialize (H2 p Hp); lia|].
    unfold points in Hp. apply list_elem_of_fmap in Hp as (i & -> & _).
    pose proof (dayCounts_done_le_total tz po state (ws + i * msPerDay)).
    rewrite dayCounts_counts in *. cbn [done total] in *.
    pose proof (List.filter_length_le (λ h, isActive po h (ws + i * msPerDay))
                  (habits state)).
    lia.
  - destruct H3 as [->|H3]; [by left|].
    destruct (Nat.max_spec (foldl Nat.max 1%nat points) 1) as [[_ ->]|[_ ->]];
      [by left|by right].
  - unfold weeklySummary.
    assert (H : ∀ l a, foldl (λ a b : nat, (a + b)%nat) a l
                       = (a + sum_list l)%nat).
    { induction l as [|x l IH]; intros a; cbn; [lia|]. rewrite IH. lia. }
    by rewrite H.
Qed.

(** ** Moving from month to month *)

(** The local time of a date is the midnight of its day plus its time of
    day. *)
Lemma LocalTime_parts tz t :
  LocalTime tz t = Day (LocalTime tz t) * msPerDay + TimeWithinDay (LocalTime tz t).
Proof. unfold Day, TimeWithinDay, msPerDay. zdiv. Qed.

(** The fields [setMonth] leaves when the day of the month exists in every
    month: the month asked for, carried into the year, the same day and
    the same time of day. *)
Lemma setMonth_fields tz t m :
  1 <= getDate tz t <= 28 →
  getFullYear tz (setMonth tz t m) = getFullYear tz t + m / 12 ∧
  getMonth tz (setMonth tz t m) = m mod 12 ∧
  getDate tz (setMonth tz t m) = getDate tz t ∧
  TimeWithinDay (LocalTime tz (setMonth tz t m)) = TimeWithinDay (LocalTime tz t).
Proof.
  intros Hd. unfold getFullYear, getMonth, getDate, setMonth in *. cbv zeta.
  set (lt := LocalTime tz t) in *.
  pose proof (TimeWithinDay_range lt) as Hw.
  set (day := MakeDay (YearFromTime lt) m (DateFromTime lt)).
  assert (Hlt : LocalTime tz (UTC tz (MakeDate day (TimeWithinDay lt)))
                = MakeDate day (TimeWithinDay lt)).
  { unfold LocalTime, UTC. lia. }
  rewrite Hlt.
  assert (Hday : Day (MakeDate day (TimeWithinDay lt)) = day)
    by by apply Day_MakeDate.
  unfold YearFromTime, MonthFromTime, DateFromTime in *. rewrite Hday.
  assert (Hm : 0 <= m mod 12 <= 11) by zdiv.
  unfold day, MakeDay. cbv zeta.
  set (d := (civilFromDays (Day lt)).2) in *.
  set (y := (civilFromDays (Day lt)).1.1) in *.
  replace (daysFromCivil (y + m / 12) (m mod 12) 1 + d - 1)
    with (daysFromCivil (y + m / 12) (m mod 12) d).
  - rewrite civilFromDays_daysFromCivil; [|done|].
    + cbn [fst snd]. repeat split; try done.
      unfold MakeDate, TimeWithinDay, msPerDay in *. zdiv.
    + pose proof (DaysInMonth_pos (y + m / 12) (m mod 12)). lia.
  - unfold daysFromCivil. cbv zeta. lia.
Qed.

Lemma setMonth_same tz t :
  setMonth tz t (getMonth tz t) = t.
Proof.
  unfold setMonth, getMonth. cbv zeta. set (lt := LocalTime tz t).
  rewrite MakeDay_of_time.
  replace (Day lt + DateFromTime lt - DateFromTime lt) with (Day lt) by lia.
  pose proof (LocalTime_parts tz t) as H. fold lt in H.
  unfold UTC, MakeDate. unfold LocalTime in lt. lia.
Qed.

Lemma setMonth_eq tz t m :
  setMonth tz t m
  = MakeDay (getFullYear tz t) m (getDate tz t) * msPerDay
    + TimeWithinDay (LocalTime tz t) - tz.
Proof. reflexivity. Qed.

(** Setting the month twice is setting it once, when the day of the month
    exists in every month. *)
Lemma setMonth_setMonth tz t m m' :
  1 <= getDate tz t <= 28 →
  setMonth tz (setMonth tz t m) m' = setMonth tz t (m / 12 * 12 + m').
Proof.
  intros Hd. destruct (setMonth_fields tz t m Hd) as (Hy & Hm & Hdt & Hw).
  rewrite (setMonth_eq tz (setMonth tz t m) m'), Hy, Hdt, Hw.
  rewrite (setMonth_eq tz t (m / 12 * 12 + m')).
  assert (E : ∀ y d, MakeDay (y + m / 12) m' d
                     = MakeDay y (m / 12 * 12 + m') d).
  { intros y d. unfold MakeDay. cbv zeta.
    replace ((m / 12 * 12 + m') / 12) with (m / 12 + m' / 12) by zdiv.
    replace ((m / 12 * 12 + m') mod 12) with (m' mod 12) by zdiv.
    by rewrite Z.add_assoc. }
  by rewrite E.
Qed.

(** The first of the month of a date. *)
Lemma setDate_first tz now :
  getDate tz (setDate tz now 1) = 1 ∧
  getMonth tz (setDate tz now 1) = getMonth tz now ∧
  getFullYear tz (setDate tz now 1) = getFullYear tz now.
Proof.
  unfold getDate, getMonth, getFullYear.
  rewrite setDate_eq. unfold getDate.
  set (lt := LocalTime tz now).
  assert (Hlt : LocalTime tz (now + (1 - DateFromTime lt) * msPerDay)
                = lt + (1 - DateFromTime lt) * msPerDay).
  { unfold lt, LocalTime. lia. }
  rewrite Hlt. unfold DateFromTime, MonthFromTime, YearFromTime.
  rewrite Day_shift.
  pose proof (civilFromDays_spec (Day lt)) as Hc.
  destruct (civilFromDays (Day lt)) as [[y m] d] eqn:E. cbn [fst snd].
  destruct Hc as (Hday & Hm & Hd).
  replace (Day lt + (1 - d)) with (daysFromCivil y m 1).
  - rewrite civilFromDays_daysFromCivil; [done|done|].
    pose proof (DaysInMonth_pos y m). lia.
  - rewrite <- Hday. unfold daysFromCivil. cbv zeta. lia.
Qed.

(** From a first of a month, the month after and the month before, and the
    way back from each. *)
Lemma setMonth_step tz cm :
  getDate tz cm = 1 →
  let n := setMonth tz cm (getMonth tz cm + 1) in
  let p := setMonth tz cm (getMonth tz cm - 1) in
  (getDate tz n = 1 ∧
   getMonth tz n = (getMonth tz cm + 1) mod 12 ∧
   getFullYear tz n = getFullYear tz cm + (getMonth tz cm + 1) / 12 ∧
   setMonth tz n (getMonth tz n - 1) = cm) ∧
  (getDate tz p = 1 ∧
   getMonth tz p = (getMonth tz cm - 1) mod 12 ∧
   getFullYear tz p = getFullYear tz cm + (getMonth tz cm - 1) / 12 ∧
   setMonth tz p (getMonth tz p + 1) = cm).
Proof.
  intros H1. cbv zeta. assert (Hd : 1 <= getDate tz cm <= 28) by lia.
  destruct (setMonth_fields tz cm (getMonth tz cm + 1) Hd)
    as (Hny & Hnm & Hnd & _).
  destruct (setMonth_fields tz cm (getMonth tz cm - 1) Hd)
    as (Hpy & Hpm & Hpd & _).
  assert (Hm : 0 <= getMonth tz cm <= 11).
  { unfold getMonth, MonthFromTime.
    pose proof (civilFromDays_spec (Day (LocalTime tz cm))) as Hc.
    destruct (civilFromDays (Day (LocalTime tz cm))) as [[y m] d].
    cbn [fst snd]. lia. }
  rewrite Hny, Hnm, Hnd, Hpy, Hpm, Hpd.
  split.
  - do 3 (split; [done|]).
    rewrite (setMonth_setMonth tz cm (getMonth tz cm + 1)
               ((getMonth tz cm + 1) mod 12 - 1) Hd).
    replace ((getMonth tz cm + 1) / 12 * 12
             + ((getMonth tz cm + 1) mod 12 - 1))
      with (getMonth tz cm) by zdiv.
    apply setMonth_same.
  - do 3 (split; [done|]).
    rewrite (setMonth_setMonth tz cm (getMonth tz cm - 1)
               ((getMonth tz cm - 1) mod 12 + 1) Hd).
    replace ((getMonth tz cm - 1) / 12 * 12
             + ((getMonth tz cm - 1) mod 12 + 1))
      with (getMonth tz cm) by zdiv.
    apply setMonth_same.
Qed.

Lemma zone_nextMonth_fixed tz cm :
  zone.nextMonth (zone.fixed tz) (Some cm)
  = zone.TimeClip (setMonth tz cm (getMonth tz cm + 1)).
Proof.
  unfold zone.nextMonth. cbn [mbind option_bind].
  by rewrite zone_setMonth_fixed, zone_getMonth_fixed.
Qed.

Lemma zone_prevMonth_fixed tz cm :
  zone.prevMonth (zone.fixed tz) (Some cm)
  = zone.TimeClip (setMonth tz cm (getMonth tz cm - 1)).
Proof.
  unfold zone.prevMonth. cbn [mbind option_bind].
  by rewrite zone_setMonth_fixed, zone_getMonth_fixed.
Qed.

Lemma zone_initialMonth_fixed tz now :
  zone.initialMonth (zone.fixed tz) now = zone.TimeClip (setDate tz now 1).
Proof. unfold zone.initialMonth. by rewrite zone_setDate_fixed. Qed.

(** X19: with a fixed UTC offset, [currentMonth] starts on the first of the
    month of its date, and from a valid first of a month the month buttons
    lead to the first of the month after or before, into the next or the
    last year from December or January, or to an Invalid Date when that
    leaves the range of Date; from a valid date the other button leads
    back, and an Invalid Date stays one. *)
Theorem month_buttons (tz now cm : Z) :
  let z := zone.fixed tz in
  (∀ c, zone.initialMonth z now = Some c →
     zone.getDate z c = 1 ∧ zone.getMonth z c = zone.getMonth z now ∧
     zone.getFullYear z c = zone.getFullYear z now) ∧
  (zone.TimeClip cm = Some cm → zone.getDate z cm = 1 →
   (∀ n, zone.nextMonth z (Some cm) = Some n →
      zone.getDate z n = 1 ∧
      zone.getMonth z n = (zone.getMonth z cm + 1) mod 12 ∧
      zone.getFullYear z n
      = zone.getFullYear z cm + (zone.getMonth z cm + 1) / 12 ∧
      zone.prevMonth z (Some n) = Some cm) ∧
   (∀ p, zone.prevMonth z (Some cm) = Some p →
      zone.getDate z p = 1 ∧
      zone.getMonth z p = (zone.getMonth z cm - 1) mod 12 ∧
      zone.getFullYear z p
      = zone.getFullYear z cm + (zone.getMonth z cm - 1) / 12 ∧
      zone.nextMonth z (Some p) = Some cm)) ∧
  zone.nextMonth z None = None ∧ zone.prevMonth z None = None.
Proof.
  cbv zeta. split; [|split; [|split; reflexivity]].
  - intros c Hc. rewrite zone_initialMonth_fixed in Hc.
    apply TimeClip_Some in Hc as [-> _].
    rewrite !zone_getDate_fixed, !zone_getMonth_fixed, !zone_getFullYear_fixed.
    apply setDate_first.
  - intros Hv H1. rewrite zone_getDate_fixed in H1.
    destruct (setMonth_step tz cm H1) as [(Hnd & Hnm & Hny & Hnb)
                                            (Hpd & Hpm & Hpy & Hpb)].
    split.
    + intros n Hn. rewrite zone_nextMonth_fixed in Hn.
      apply TimeClip_Some in Hn as [-> _].
      rewrite !zone_getDate_fixed, !zone_getMonth_fixed,
        !zone_getFullYear_fixed.
      do 3 (split; [done|]).
      rewrite zone_prevMonth_fixed. by rewrite Hnb.
    + intros p Hp. rewrite zone_prevMonth_fixed in Hp.
      apply TimeClip_Some in Hp as [-> _].
      rewrite !zone_getDate_fixed, !zone_getMonth_fixed,
        !zone_getFullYear_fixed.
      do 3 (split; [done|]).
      rewrite zone_nextMonth_fixed. by rewrite Hpb.
Qed.

(** From December 2023 to January 2024, one hour east of Greenwich. *)
Lemma month_buttons_witness :
  zone.getMonth (zone.fixed utcPlus1) 1704063600000 = 0 ∧
  zone.getFullYear (zone.fixed utcPlus1) 1704063600000 = 2024.
Proof.
  destruct (month_buttons utcPlus1 1701385200000 1701385200000)
    as (_ & Hnav & _).
  destruct Hnav as [Hnext _]; [vm_compute; reflexivity..|].
  destruct (Hnext 1704063600000) as (_ & Hm & Hy & _);
    [vm_compute; reflexivity|].
  rewrite Hm, Hy. vm_compute. split; reflexivity.
Defined.

(** ** The cells of the month calendar *)

(** The weekday of the days of one month, from the weekday of its first. *)
Lemma getDay_newDate tz y m d :
  getDay tz (newDate tz y m d) = (getDay tz (newDate tz y m 1) + d - 1) mod 7.
Proof.
  unfold getDay. rewrite !newDate_eq. unfold LocalTime, MakeDay. cbv zeta.
  set (yr := if (0 <=? y) && (y <=? 99) then 1900 + y else y).
  set (k := daysFromCivil (yr + m / 12) (m mod 12) 1).
  replace ((k + d - 1) * msPerDay - tz + tz) with (0 + (k + d - 1) * msPerDay)
    by lia.
  replace ((k + 1 - 1) * msPerDay - tz + tz) with (0 + k * msPerDay) by lia.
  rewrite !WeekDay_shift. zdiv.
Qed.

Lemma getMonth_range tz t : 0 <= getMonth tz t <= 11.
Proof.
  unfold getMonth, MonthFromTime.
  pose proof (civilFromDays_spec (Day (LocalTime tz t))) as Hc.
  destruct (civilFromDays (Day (LocalTime tz t))) as [[y m] d].
  cbn [fst snd]. lia.
Qed.

(** Blank cells followed by the cells of a list. *)
Lemma lookup_blanks_cells {A} (n : nat) (l : list A) (k : nat) :
  ((k < n)%nat → (replicate n None ++ map Some l) !! k = Some None) ∧
  ∀ x, (replicate n None ++ map Some l) !! k = Some (Some x) →
       (n <= k)%nat ∧ l !! (k - n)%nat = Some x.
Proof.
  split.
  - intros Hk. rewrite lookup_app_l by (rewrite length_replicate; lia).
    by apply lookup_replicate_2.
  - intros x H. destruct (decide (k < n)%nat) as [Hlt|Hge].
    + rewrite lookup_app_l in H by (rewrite length_replicate; lia).
      apply lookup_replicate_1 in H as [Hn _]. discriminate Hn.
    + split; [lia|].
      rewrite lookup_app_r in H by (rewrite length_replicate; lia).
      rewrite length_replicate in H.
      change (map Some l) with (Some <$> l) in H.
      rewrite list_lookup_fmap in H.
      destruct (l !! (k - n)%nat); [|done]. by injection H as ->.
Qed.

(** X20: the calendar grid starts with as many blank cells as the index of
    the weekday of the first of the month, at most six, followed by the
    cells of the days, at most 37 cells in all; so the cell of every day is
    at a position that is, modulo 7, the index of its weekday: in rows of
    seven each day stands in the column of its weekday. *)
Theorem calendarCells_columns (tz : Z) (po : ustring → option Z)
  (state : Document) (currentMonth : Z) :
  let cells := calendarCells tz po state currentMonth in
  let y := getFullYear tz currentMonth in
  let m := getMonth tz currentMonth in
  let startWeekday := getDay tz (newDate tz y m 1) in
  0 <= startWeekday <= 6 ∧
  cells = replicate (Z.to_nat startWeekday) None
          ++ map Some (monthGrid tz po state y m) ∧
  (length cells <= 37)%nat ∧
  (∀ k, (k < Z.to_nat startWeekday)%nat → cells !! k = Some None) ∧
  (∀ (k : nat) cell,
     cells !! k = Some (Some cell) →
     cell = dayCell tz po state y m (Z.of_nat k - startWeekday + 1) ∧
     Z.of_nat k mod 7 = getDay tz (date cell)).
Proof.
  cbv zeta. unfold calendarCells. cbv zeta.
  set (y := getFullYear tz currentMonth).
  set (m := getMonth tz currentMonth).
  set (sw := getDay tz (newDate tz y m 1)).
  pose proof (getMonth_range tz currentMonth) as Hm. fold m in Hm.
  assert (Hsw : 0 <= sw <= 6) by apply WeekDay_range.
  split; [exact Hsw|]. split; [done|]. split; [|split].
  - rewrite length_app, length_replicate, length_map.
    destruct (monthGrid_cells tz po state y m Hm) as [Hlen _].
    rewrite Hlen.
    pose proof (DaysInMonth_pos
                  (if (0 <=? y) && (y <=? 99) then 1900 + y else y) m).
    lia.
  - intros k Hk.
    by apply (lookup_blanks_cells (Z.to_nat sw) (monthGrid tz po state y m) k).
  - intros k cell Hcell.
    apply (lookup_blanks_cells (Z.to_nat sw) (monthGrid tz po state y m) k)
      in Hcell as [Hge E].
    apply monthGrid_lookup in E.
    replace (1 + Z.of_nat (k - Z.to_nat sw)) with (Z.of_nat k - sw + 1)
      in E by lia.
    split; [exact E|]. rewrite E. unfold dayCell. cbn [date].
    rewrite getDay_newDate. fold sw.
    replace (sw + (Z.of_nat k - sw + 1) - 1) with (Z.of_nat k) by lia.
    reflexivity.
Qed.

(** ** The ring of a calendar cell *)

(** X21: [clamp01] gives [NaN] for [NaN] only, and otherwise a number from
    0 to 1: 0 below 0, 1 above 1, and the number itself in between; it
    changes nothing the second time. So the ring of a calendar cell is
    drawn for the very quotient [done / total] of its day. *)
Theorem clamp01_range (x : number) :
  (clamp01 x = NaN ↔ x = NaN) ∧
  (x ≠ NaN → ∃ q, clamp01 x = Num q ∧ (0 <= q)%Q ∧ (q <= 1)%Q) ∧
  (∀ q, (0 <= q)%Q → (q <= 1)%Q → sameValue (clamp01 (Num q)) (Num q)) ∧
  (∀ q, (q < 0)%Q → clamp01 (Num q) = Num 0) ∧
  (∀ q, (1 < q)%Q → clamp01 (Num q) = Num 1) ∧
  clamp01 NegInfinity = Num 0 ∧ clamp01 PosInfinity = Num 1 ∧
  clamp01 (clamp01 x) = clamp01 x ∧
  (∀ c : Counts, (done c <= total c)%nat →
     sameValue (clamp01 (Num (ratio c))) (Num (ratio c))).
Proof.
  assert (Hcases : ∀ q,
            ((1 <= q)%Q ∧ clamp01 (Num q) = Num 1) ∨
            ((0 <= q)%Q ∧ (q < 1)%Q ∧ clamp01 (Num q) = Num q) ∨
            ((q < 0)%Q ∧ clamp01 (Num q) = Num 0)).
  { intros q. unfold clamp01, Math_max, Math_min.
    destruct (Qle_bool 1 q) eqn:E1.
    - left. split; [by apply Qle_bool_iff|]. reflexivity.
    - right.
      assert (H1 : (q < 1)%Q).
      { apply Qnot_le_lt. intros H%Qle_bool_iff. congruence. }
      destruct (Qle_bool 0 q) eqn:E0.
      + left. split; [by apply Qle_bool_iff|]. done.
      + right. split; [|done].
        apply Qnot_le_lt. intros H%Qle_bool_iff. congruence. }
  assert (H01 : clamp01 (Num 0) = Num 0 ∧ clamp01 (Num 1) = Num 1) by done.
  split; [|split; [|split; [|split; [|split; [|split; [|split; [|split]]]]]]];
    try done.
  - destruct x as [| |q|]; split; done.
  - intros Hx. destruct x as [| |q|]; [done| | |].
    + by exists 0%Q.
    + destruct (Hcases q) as [[H E]|[(H0 & H1 & E)|[H E]]].
      * by exists 1%Q.
      * exists q. split; [done|]. split; [done|]. by apply Qlt_le_weak.
      * by exists 0%Q.
    + by exists 1%Q.
  - intros q H0 H1. destruct (Hcases q) as [[H E]|[(_ & _ & E)|[H E]]];
      rewrite E; cbn.
    + by apply Qle_antisym.
    + reflexivity.
    + destruct (Qlt_not_le _ _ H H0).
  - intros q H. destruct (Hcases q) as [[H1 E]|[(H0 & _ & E)|[_ E]]]; [| |done].
    + destruct (Qlt_not_le _ _ H). by apply Qle_trans with 1%Q.
    + destruct (Qlt_not_le _ _ H H0).
  - intros q H. destruct (Hcases q) as [[_ E]|[(_ & H1 & E)|[H0 E]]]; [done| |].
    + destruct (Qlt_not_le _ _ H). by apply Qlt_le_weak.
    + destruct (Qlt_not_le _ _ H0). apply Qle_trans with 1%Q; [done|].
      by apply Qlt_le_weak.
  - destruct x as [| |q|]; try done.
    destruct (Hcases q) as [[_ E]|[(H0 & H1 & E)|[_ E]]]; rewrite E;
      try apply H01.
    exact E.
  - intros c Hc. destruct (ratio_bounds c Hc) as [H0 H1].
    destruct (Hcases (ratio c)) as [[H E]|[(_ & _ & E)|[H E]]];
      rewrite E; cbn.
    + by apply Qle_antisym.
    + reflexivity.
    + destruct (Qlt_not_le _ _ H H0).
Qed.

(** ** The rows of the home page *)

(** The [checked] of a box is the check entry of its triple of keys. *)
Lemma habitRow_eq state (wk : ustring) h :
  habitRow state wk h
  = {| label := name h;
       boxes :=
         map (λ dayIndex,
                {| habitId := id h; day := dayIndex;
                   checked :=
                     match checkAt (checks state) (id h) wk
                                   (numberKey dayIndex) with
                     | Some true => true
                     | _ => false
                     end |})
             DAYS;
       deleteHabitId := id h |}.
Proof.
  unfold habitRow, checkAt. cbv zeta.
  destruct (checks state !! id h) as [bw|]; [destruct (bw !! wk)|]; try done.
Qed.

Lemma DAYS_range d : d ∈ DAYS ↔ 0 <= d <= 6.
Proof.
  unfold DAYS. rewrite !elem_of_cons, elem_of_nil. lia.
Qed.

(** X22: the home page shows one row per habit, in the order of the
    habits, labelled with its name; a row has the seven boxes of the days
    0 to 6, all with the id of its habit, which is also the id of its
    delete button; so every id the page hands to a handler is the id of a
    habit. A box is checked exactly when the check entry of its habit, the
    week shown and its day is true. *)
Theorem renderHome_rows (tz : Z) (state : Document) (ws : Z) :
  let rows := renderHome tz state ws in
  map label rows = map name (habits state) ∧
  map deleteHabitId rows = habitIds state ∧
  ∀ row, row ∈ rows →
    map day (boxes row) = DAYS ∧
    ∀ bx, bx ∈ boxes row →
      habitId bx = deleteHabitId row ∧ habitId bx ∈ habitIds state ∧
      0 <= day bx <= 6 ∧
      (checked bx = true ↔
       checkAt (checks state) (habitId bx) (weekKey tz ws) (numberKey (day bx))
       = Some true).
Proof.
  cbv zeta. unfold renderHome, habitIds. cbv zeta.
  split; [|split].
  - rewrite map_map. apply map_ext. intros h. by rewrite habitRow_eq.
  - rewrite map_map. apply map_ext. intros h. by rewrite habitRow_eq.
  - intros row Hrow. apply list_elem_of_fmap in Hrow as (h & -> & Hh).
    rewrite habitRow_eq. cbn [boxes deleteHabitId].
    split; [by rewrite map_map|].
    intros bx Hbx. apply list_elem_of_fmap in Hbx as (d & -> & Hd).
    cbn [habitId day checked].
    split; [done|]. split; [apply list_elem_of_fmap; by exists h|].
    split; [by apply DAYS_range|].
    destruct (checkAt (checks state) (id h) (weekKey tz ws) (numberKey d))
      as [[|]|]; split; done.
Qed.

(** The box of an id and a day set to [c], the other boxes as they are. *)
Lemma habitRow_toggle state (wk i : ustring) d c h :
  0 <= d <= 6 → plainId state i → inherited wk = false →
  habitRow (toggleCheck state i wk d c) wk h
  = {| label := label (habitRow state wk h);
       boxes :=
         map (λ bx,
                if decide (habitId bx = i ∧ day bx = d)
                then {| habitId := habitId bx; day := day bx; checked := c |}
                else bx)
             (boxes (habitRow state wk h));
       deleteHabitId := deleteHabitId (habitRow state wk h) |}.
Proof.
  intros Hd Hp Hw. rewrite !habitRow_eq. cbn [label boxes deleteHabitId].
  f_equal. rewrite map_map. apply map_ext_in. intros d' Hd'.
  apply list_elem_of_In, DAYS_range in Hd'. cbn [habitId day checked].
  destruct (decide (id h = i ∧ d' = d)) as [[-> ->]|Hne].
  - rewrite toggleCheck_at by done. by destruct c.
  - rewrite toggleCheck_other; [done|].
    intros [= Hi Hk]. apply Hne. split; [done|].
    by apply numberKey_inj_day.
Qed.

(** X23: on a page whose built-in objects are as the browser made them,
    after the change handler has set the box of an id and a day of the week
    shown, when the id has an entry in [checks] or is not a name that
    [Object.prototype] provides, the handler has changed the document
    alone, and the home page shows that box as set, in every row with that
    id, and every other box as before. *)
Theorem renderHome_toggle (tz : Z) (state : Document) (ws : Z) (i : ustring)
  (d : Z) (c : bool) :
  0 <= d <= 6 → plainId state i →
  let state' := toggleCheck state i (weekKey tz ws) d c in
  (page.onCheckboxChange tz (page.clean state) ∅ ws i d c).1
  = page.clean state' ∧
  renderHome tz state' ws
  = map (λ row,
           {| label := label row;
              boxes :=
                map (λ bx,
                       if decide (habitId bx = i ∧ day bx = d)
                       then {| habitId := habitId bx; day := day bx;
                               checked := c |}
                       else bx)
                    (boxes row);
              deleteHabitId := deleteHabitId row |})
        (renderHome tz state ws).
Proof.
  intros Hd Hp. cbv zeta.
  pose proof (weekKey_not_inherited tz ws) as Hw.
  split.
  { unfold page.onCheckboxChange. cbv zeta. cbn [fst].
    by apply page_assign_clean. }
  unfold renderHome. cbv zeta.
  rewrite (toggleCheck_habits state i (weekKey tz ws) d c).
  rewrite map_map. apply map_ext. intros h. by apply habitRow_toggle.
Qed.

Lemma renderHome_toggle_witness :
  renderHome 0 (toggleCheck docRead (id habitRead) (weekKey 0 1704240000000)
                  3 true) 1704240000000
  = map (λ row,
           {| label := label row;
              boxes :=
                map (λ bx,
                       if decide (habitId bx = id habitRead ∧ day bx = 3)
                       then {| habitId := habitId bx; day := day bx;
                               checked := true |}
                       else bx)
                    (boxes row);
              deleteHabitId := deleteHabitId row |})
        (renderHome 0 docRead 1704240000000).
Proof.
  destruct (renderHome_toggle 0 docRead 1704240000000 (id habitRead) 3 true)
    as [_ H].
  - lia.
  - right. vm_compute. reflexivity.
  - exact H.
Defined.

(** X24: after a reset of the week shown the home page shows no box
    checked; after the delete of an id it shows the rows it showed without
    those of that id; after the form has added a habit it shows the rows it
    showed and one more, with no box checked when [checks] holds nothing
    under the new id. *)
Theorem renderHome_after (tz : Z) (state : Document)
  (st : gmap ustring ustring) (ws : Z) (i value random36 : ustring) (now : Z) :
  (∀ row bx,
     row ∈ renderHome tz (resetWeek state (weekKey tz ws)) ws →
     bx ∈ boxes row → checked bx = false) ∧
  renderHome tz (deleteHabit state i) ws
  = List.filter (λ row, bool_decide (deleteHabitId row ≠ i))
      (renderHome tz state ws) ∧
  (forallb isTrimSpace value = false →
   ∃ row,
     renderHome tz (onAddSubmit state st value random36 now).1 ws
     = renderHome tz state ws ++ [row] ∧
     label row = trim value ∧ deleteHabitId row = uid random36 ∧
     ((checks state) !! (uid random36) = None →
      ∀ bx, bx ∈ boxes row → checked bx = false)).
Proof.
  split; [|split].
  - intros row bx Hrow Hbx. unfold renderHome in Hrow. cbv zeta in Hrow.
    change (habits (resetWeek state (weekKey tz ws))) with (habits state)
      in Hrow.
    apply list_elem_of_fmap in Hrow as (h & -> & Hh).
    rewrite habitRow_eq in Hbx. cbn [boxes] in Hbx.
    apply list_elem_of_fmap in Hbx as (d & -> & Hd). cbn [checked].
    destruct (resetWeek_checkAt state (weekKey tz ws)) as [Hclear _].
    by rewrite Hclear.
  - unfold renderHome. cbv zeta. unfold deleteHabit at 2. cbn [habits].
    induction (habits state) as [|h l IH]; [done|].
    rewrite filter_cons. cbn [map List.filter].
    rewrite (habitRow_eq state). cbn [deleteHabitId].
    destruct (decide (id h ≠ i)) as [Hne|He].
    + rewrite bool_decide_true by done. cbn [map]. rewrite IH. f_equal.
      rewrite !habitRow_eq. f_equal. apply map_ext. intros d.
      change (checks (deleteHabit state i)) with (delete i (checks state)).
      by rewrite checkAt_delete_ne.
    + by rewrite bool_decide_false.
  - intros Hv. pose proof (trim_nonblank value Hv) as Hne.
    unfold onAddSubmit. cbv zeta.
    destruct (trim value) as [|c0 t] eqn:Et; [done|]. cbn [fst].
    unfold renderHome. cbv zeta. cbn [habits]. rewrite map_app. cbn [map].
    set (h := {| id := uid random36; name := c0 :: t;
                 createdAt := take 10 (toISOString now) |}).
    set (state' := {| habits := habits state ++ [h]; checks := checks state |}).
    exists (habitRow state' (weekKey tz ws) h).
    split; [|split; [|split]].
    + reflexivity.
    + by rewrite habitRow_eq.
    + by rewrite habitRow_eq.
    + intros Hc bx Hbx. rewrite habitRow_eq in Hbx. cbn [boxes] in Hbx.
      apply list_elem_of_fmap in Hbx as (d & -> & Hd). cbn [checked].
      unfold checkAt. cbn [checks state' id h]. by rewrite Hc.
Qed.

(** ** The throttle *)

Section throttle_facts.

Context {A : Type}.
Variable ms : Z.

Lemma throttle_inv_init : throttle.inv (throttle.init A).
Proof. split; [intros h H; discriminate H|intros H; by destruct H]. Qed.

Lemma throttle_inv_step (e : throttle.event A) (w w' : throttle.world A) :
  throttle.inv w → throttle.step ms e w = Some w' → throttle.inv w'.
Proof.
  intros [Ht Hs] Hstep. destruct e as [now nowRun args|h nowRun].
  - injection Hstep as <-. unfold throttle.throttled. cbv zeta.
    cbn [throttle.vars throttle.last throttle.timer throttle.pending
         throttle.savedArgs throttle.nextHandle throttle.applied].
    destruct ((throttle.last (throttle.vars w) =? 0)
              || (ms <=? now - throttle.last (throttle.vars w))).
    + split; cbn; [intros h H; discriminate H|by eexists].
    + destruct (throttle.timer (throttle.vars w)) as [h|] eqn:E.
      * split; cbn; [|by eexists]. intros h' [= <-]. by apply Ht.
      * split; cbn; [|by eexists]. intros h' [= <-].
        rewrite existsb_app. cbn. rewrite Pos.eqb_refl.
        by rewrite orb_true_r.
  - unfold throttle.step, throttle.fire in Hstep.
    destruct (existsb (λ t, Pos.eqb (throttle.handle t) h)
                (throttle.pending w)) eqn:E; [|discriminate Hstep].
    injection Hstep as <-. split; cbn; [intros h' H; discriminate H|].
    intros _. apply Hs. intros Hnil. rewrite Hnil in E. discriminate E.
Qed.

Lemma throttle_inv_exec (tr : list (throttle.event A))
  (w w' : throttle.world A) :
  throttle.inv w → throttle.exec ms tr w = Some w' → throttle.inv w'.
Proof.
  revert w. induction tr as [|e tr IH]; intros w Hw Hexec.
  - by injection Hexec as <-.
  - cbn [throttle.exec] in Hexec.
    destruct (throttle.step ms e w) as [w1|] eqn:E; [|discriminate Hexec].
    apply (IH w1); [by apply (throttle_inv_step e w)|done].
Qed.

Lemma throttle_exec_snoc (tr : list (throttle.event A)) e
  (w : throttle.world A) :
  throttle.exec ms (tr ++ [e]) w
  = match throttle.exec ms tr w with
    | Some w' => throttle.step ms e w'
    | None => None
    end.
Proof.
  revert w. induction tr as [|e' tr IH]; intros w.
  - cbn. by destruct (throttle.step ms e w).
  - cbn [app throttle.exec]. destruct (throttle.step ms e' w); [apply IH|done].
Qed.

Lemma throttle_latestArgs_snoc (tr : list (throttle.event A)) e acc :
  throttle.latestArgs (tr ++ [e]) acc
  = match e with
    | throttle.Call _ _ args => Some args
    | throttle.Fire _ _ => throttle.latestArgs tr acc
    end.
Proof.
  revert acc. induction tr as [|e' tr IH]; intros acc.
  - by destruct e.
  - cbn [app throttle.latestArgs]. destruct e'; apply IH.
Qed.

Lemma throttle_savedArgs_exec (tr : list (throttle.event A))
  (w w' : throttle.world A) :
  throttle.exec ms tr w = Some w' →
  throttle.savedArgs (throttle.vars w')
  = throttle.latestArgs tr (throttle.savedArgs (throttle.vars w)).
Proof.
  revert w. induction tr as [|e tr IH]; intros w Hexec.
  - by injection Hexec as <-.
  - cbn [throttle.exec] in Hexec.
    destruct (throttle.step ms e w) as [w1|] eqn:E; [|discriminate Hexec].
    rewrite (IH w1 Hexec). cbn [throttle.latestArgs].
    destruct e as [now nowRun args|h nowRun].
    + injection E as <-. unfold throttle.throttled. cbv zeta.
      cbn [throttle.vars throttle.last throttle.timer throttle.savedArgs].
      destruct ((throttle.last (throttle.vars w) =? 0)
                || (ms <=? now - throttle.last (throttle.vars w))); [done|].
      by destruct (throttle.timer (throttle.vars w)).
    + unfold throttle.step, throttle.fire in E.
      destruct (existsb _ _); [|discriminate E]. by injection E as <-.
Qed.

(** X25: whenever the throttled function lets a call through to [fn], at
    once or from a timeout, it passes the arguments of the latest call so
    far: after any trace, an event adds at most one application to the
    log, and that one has the arguments of the latest call of the trace up
    to and with the event. *)
Theorem throttle_latest_args (tr : list (throttle.event A))
  (e : throttle.event A) (w w' : throttle.world A) :
  throttle.exec ms tr (throttle.init A) = Some w →
  throttle.step ms e w = Some w' →
  throttle.applied w' = throttle.applied w ∨
  ∃ t args,
    throttle.applied w' = throttle.applied w ++ [(t, Some args)] ∧
    throttle.latestArgs (tr ++ [e]) None = Some args.
Proof.
  intros Hexec Hstep.
  pose proof (throttle_inv_exec tr _ _ throttle_inv_init Hexec) as [_ Hs].
  pose proof (throttle_savedArgs_exec tr _ _ Hexec) as Hsaved.
  cbn [throttle.init throttle.vars throttle.savedArgs] in Hsaved.
  rewrite throttle_latestArgs_snoc.
  destruct e as [now nowRun args|h nowRun].
  - injection Hstep as <-. unfold throttle.throttled. cbv zeta.
    cbn [throttle.vars throttle.last throttle.timer throttle.savedArgs
         throttle.applied].
    destruct ((throttle.last (throttle.vars w) =? 0)
              || (ms <=? now - throttle.last (throttle.vars w))).
    + right. exists nowRun, args. by cbn.
    + left. by destruct (throttle.timer (throttle.vars w)).
  - unfold throttle.step, throttle.fire in Hstep.
    destruct (existsb (λ t, Pos.eqb (throttle.handle t) h)
                (throttle.pending w)) eqn:E; [|discriminate Hstep].
    injection Hstep as <-. right.
    destruct Hs as [args Hargs].
    { intros Hnil. rewrite Hnil in E. discriminate E. }
    exists nowRun, args. cbn. rewrite Hargs. split; [done|].
    by rewrite <- Hsaved.
Qed.

(** X26: no call is lost: after a trace that ends with a call, either [fn]
    was applied to the arguments of that call during it, or the timer the
    closure notes is pending; and whichever pending timeout fires next
    applies [fn] to the arguments of that call. *)
Theorem throttle_call_delivered (tr : list (throttle.event A))
  (now nowRun : Z) (args : A) (w : throttle.world A) :
  throttle.exec ms (tr ++ [throttle.Call now nowRun args]) (throttle.init A)
  = Some w →
  ((∃ log, throttle.applied w = log ++ [(nowRun, Some args)]) ∨
   (∃ t, t ∈ throttle.pending w ∧
         throttle.timer (throttle.vars w) = Some (throttle.handle t))) ∧
  ∀ t nowRun',
    t ∈ throttle.pending w →
    ∃ w', throttle.fire (throttle.handle t) nowRun' w = Some w' ∧
          throttle.applied w' = throttle.applied w ++ [(nowRun', Some args)].
Proof.
  intros Hexec.
  pose proof (throttle_inv_exec _ _ _ throttle_inv_init Hexec) as [Ht _].
  pose proof (throttle_savedArgs_exec _ _ _ Hexec) as Hsaved.
  rewrite throttle_latestArgs_snoc in Hsaved.
  rewrite throttle_exec_snoc in Hexec.
  destruct (throttle.exec ms tr (throttle.init A)) as [w0|]; [|discriminate].
  cbn [throttle.step] in Hexec. injection Hexec as Hw.
  assert (Hfire : ∀ t nowRun',
            t ∈ throttle.pending w →
            ∃ w', throttle.fire (throttle.handle t) nowRun' w = Some w' ∧
                  throttle.applied w'
                  = throttle.applied w ++ [(nowRun', Some args)]).
  { intros t nowRun' Hin. unfold throttle.fire.
    assert (E : existsb (λ t0, Pos.eqb (throttle.handle t0) (throttle.handle t))
                  (throttle.pending w) = true).
    { apply existsb_exists. exists t. split; [by apply list_elem_of_In|].
      apply Pos.eqb_refl. }
    rewrite E. eexists. split; [done|]. cbn. by rewrite Hsaved. }
  revert Hw. unfold throttle.throttled. cbv zeta.
  cbn [throttle.vars throttle.last throttle.timer throttle.savedArgs
       throttle.applied throttle.pending throttle.nextHandle].
  destruct ((throttle.last (throttle.vars w0) =? 0)
            || (ms <=? now - throttle.last (throttle.vars w0))).
  - intros <-. split; [|exact Hfire]. left. cbn. by eexists.
  - intros Hw. split; [|exact Hfire]. right.
    destruct (throttle.timer (throttle.vars w)) as [h|] eqn:E.
    + specialize (Ht h eq_refl).
      apply existsb_exists in Ht as (t & Hin & Heq).
      apply Pos.eqb_eq in Heq. exists t. split; [by apply list_elem_of_In|].
      by rewrite Heq.
    + destruct (throttle.timer (throttle.vars w0)); subst w; discriminate E.
Qed.

(** What holds along a trace on which timers are on time: the log is
    spaced, [last] is the time of the latest application (0 while there is
    none), no time in the log is 0, and there is at most one pending
    timeout, the one the closure notes, due [ms] after [last]. *)
Lemma throttle_spaced_snoc (times : list Z) (x : Z) :
  throttle.spaced ms times →
  (∀ t, head (rev times) = Some t → ms <= x - t) →
  throttle.spaced ms (times ++ [x]).
Proof.
  intros Hs Hx i t1 t2 H1 H2.
  destruct (decide (S i < length times)%nat) as [Hlt|Hge].
  - rewrite lookup_app_l in H1 by lia. rewrite lookup_app_l in H2 by lia.
    by apply (Hs i).
  - assert (Hi : S i = length times).
    { apply lookup_lt_Some in H2. rewrite length_app in H2. cbn in H2. lia. }
    rewrite lookup_app_l in H1 by lia.
    rewrite lookup_app_r in H2 by lia.
    replace (S i - length times)%nat with 0%nat in H2 by lia.
    injection H2 as <-. apply Hx.
    rewrite <- (rev_involutive times) in H1.
    destruct (rev times) as [|y l] eqn:Er.
    + apply (f_equal (@length Z)) in Er. rewrite length_rev in Er.
      cbn in Er. lia.
    + cbn [rev] in H1. rewrite lookup_app_r in H1.
      * apply (f_equal (@length Z)) in Er. rewrite length_rev in Er.
        cbn [length] in Er. rewrite length_rev in H1.
        replace (i - length l)%nat with 0%nat in H1 by lia.
        cbn. by injection H1 as ->.
      * apply (f_equal (@length Z)) in Er. rewrite length_rev in Er.
        cbn [length] in Er. rewrite length_rev. lia.
Qed.

Lemma throttle_timely_step (e : throttle.event A) (tr : list (throttle.event A))
  (w : throttle.world A) :
  let times := map fst (throttle.applied w) in
  throttle.spaced ms times →
  match head (rev times) with
  | Some t => throttle.last (throttle.vars w) = t
  | None => throttle.last (throttle.vars w) = 0
  end →
  Forall (λ t, t ≠ 0) times →
  (throttle.pending w = [] ∧ throttle.timer (throttle.vars w) = None ∨
   ∃ t, throttle.pending w = [t] ∧
        throttle.timer (throttle.vars w) = Some (throttle.handle t) ∧
        throttle.setAt t + throttle.delay t
        = throttle.last (throttle.vars w) + ms ∧
        throttle.last (throttle.vars w) ≠ 0) →
  throttle.timely ms (e :: tr) w = true →
  ∃ w', throttle.step ms e w = Some w' ∧
    throttle.timely ms tr w' = true ∧
    let times' := map fst (throttle.applied w') in
    throttle.spaced ms times' ∧
    match head (rev times') with
    | Some t => throttle.last (throttle.vars w') = t
    | None => throttle.last (throttle.vars w') = 0
    end ∧
    Forall (λ t, t ≠ 0) times' ∧
    (throttle.pending w' = [] ∧ throttle.timer (throttle.vars w') = None ∨
     ∃ t, throttle.pending w' = [t] ∧
          throttle.timer (throttle.vars w') = Some (throttle.handle t) ∧
          throttle.setAt t + throttle.delay t
          = throttle.last (throttle.vars w') + ms ∧
          throttle.last (throttle.vars w') ≠ 0).
Proof.
  cbv zeta. intros Hsp Hlast Hnz Hpend Htimely.
  cbn [throttle.timely] in Htimely.
  apply andb_true_iff in Htimely as [Hev Hrest].
  assert (Hrun : ∀ x (w0 : throttle.world A),
            throttle.applied w0 = throttle.applied w →
            throttle.pending w0 = [] →
            x ≠ 0 →
            (∀ t, head (rev (map fst (throttle.applied w))) = Some t →
                  ms <= x - t) →
            let w' := throttle.run x w0 in
            throttle.spaced ms (map fst (throttle.applied w')) ∧
            match head (rev (map fst (throttle.applied w'))) with
            | Some t => throttle.last (throttle.vars w') = t
            | None => throttle.last (throttle.vars w') = 0
            end ∧
            Forall (λ t, t ≠ 0) (map fst (throttle.applied w')) ∧
            (throttle.pending w' = [] ∧
             throttle.timer (throttle.vars w') = None ∨
             ∃ t, throttle.pending w' = [t] ∧
                  throttle.timer (throttle.vars w')
                  = Some (throttle.handle t) ∧
                  throttle.setAt t + throttle.delay t
                  = throttle.last (throttle.vars w') + ms ∧
                  throttle.last (throttle.vars w') ≠ 0)).
  { intros x w0 Happ Hp0 Hx Hgap. cbv zeta. unfold throttle.run.
    cbn [throttle.applied throttle.vars throttle.last throttle.timer
         throttle.pending].
    rewrite Happ, map_app. cbn [map fst].
    split; [by apply throttle_spaced_snoc|].
    split; [by rewrite rev_app_distr|].
    split; [apply Forall_app; split; [done|by constructor]|].
    by left. }
  destruct e as [now nowRun args|h nowRun].
  - cbn [throttle.step] in *.
    apply andb_true_iff in Hev as [Hev Hdue].
    apply andb_true_iff in Hev as [Hle Hn0].
    apply Z.leb_le in Hle. apply negb_true_iff, Z.eqb_neq in Hn0.
    eexists. split; [done|]. split; [exact Hrest|].
    unfold throttle.throttled. cbv zeta.
    cbn [throttle.vars throttle.last throttle.timer throttle.savedArgs
         throttle.applied throttle.pending throttle.nextHandle].
    destruct ((throttle.last (throttle.vars w) =? 0)
              || (ms <=? now - throttle.last (throttle.vars w))) eqn:Hc.
    + destruct Hpend as [[Hp Ht]|(t & Hp & Ht & Hsum & Hl0)].
      * apply Hrun; [done|done|done|].
        intros t Ht'. rewrite Ht' in Hlast.
        apply orb_true_iff in Hc as [Hc|Hc].
        -- apply Z.eqb_eq in Hc.
           assert (Hin : t ∈ map fst (throttle.applied w)).
           { apply list_elem_of_In, in_rev.
             destruct (rev (map fst (throttle.applied w))); [done|].
             injection Ht' as ->. by left. }
           rewrite Forall_forall in Hnz. specialize (Hnz t Hin). lia.
        -- apply Z.leb_le in Hc. lia.
      * rewrite Hp in Hdue. cbn [forallb] in Hdue.
        rewrite andb_true_r in Hdue. apply Z.ltb_lt in Hdue.
        apply orb_true_iff in Hc as [Hc|Hc];
          [apply Z.eqb_eq in Hc|apply Z.leb_le in Hc]; lia.
    + apply orb_false_iff in Hc as [Hc0 Hc1].
      apply Z.eqb_neq in Hc0. apply Z.leb_gt in Hc1.
      destruct Hpend as [[Hp Ht]|(t & Hp & Ht & Hsum & Hl0)].
      * rewrite Ht.
        cbn [throttle.vars throttle.last throttle.timer throttle.savedArgs
             throttle.applied throttle.pending throttle.nextHandle].
        do 3 (split; [done|]). right. rewrite Hp. eexists.
        split; [done|]. cbn. split; [done|]. split; [lia|done].
      * rewrite Ht.
        cbn [throttle.vars throttle.last throttle.timer throttle.savedArgs
             throttle.applied throttle.pending throttle.nextHandle].
        do 3 (split; [done|]). right. by exists t.
  - cbn [throttle.step] in *. unfold throttle.fire in *.
    apply andb_true_iff in Hev as [Hn0 Hdue].
    apply negb_true_iff, Z.eqb_neq in Hn0.
    destruct (existsb (λ t, Pos.eqb (throttle.handle t) h)
                (throttle.pending w)) eqn:E; [|discriminate Hrest].
    eexists. split; [done|]. split; [exact Hrest|].
    destruct Hpend as [[Hp Ht]|(t & Hp & Ht & Hsum & Hl0)].
    + rewrite Hp in E. discriminate E.
    + rewrite Hp in E, Hdue. cbn in E, Hdue. rewrite orb_false_r in E.
      rewrite E in Hdue. cbn in Hdue. rewrite andb_true_r in Hdue.
      apply Z.leb_le in Hdue.
      apply Hrun; [done| |done|].
      * cbn [throttle.pending]. rewrite Hp. cbn. by rewrite E.
      * intros t' Ht'. rewrite Ht' in Hlast. lia.
Qed.

(** X27: when timers are on time, successive applications of [fn] are at
    least [ms] apart: for every trace on which no timeout fires early and
    no call finds a pending timeout already due, every event of the trace
    can happen, and the times the log holds are spaced by [ms] or more. *)
Theorem throttle_rate (tr : list (throttle.event A)) :
  throttle.timely ms tr (throttle.init A) = true →
  ∃ w, throttle.exec ms tr (throttle.init A) = Some w ∧
       throttle.spaced ms (map fst (throttle.applied w)).
Proof.
  assert (Hgen : ∀ tr (w : throttle.world A),
    throttle.spaced ms (map fst (throttle.applied w)) →
    match head (rev (map fst (throttle.applied w))) with
    | Some t => throttle.last (throttle.vars w) = t
    | None => throttle.last (throttle.vars w) = 0
    end →
    Forall (λ t, t ≠ 0) (map fst (throttle.applied w)) →
    (throttle.pending w = [] ∧ throttle.timer (throttle.vars w) = None ∨
     ∃ t, throttle.pending w = [t] ∧
          throttle.timer (throttle.vars w) = Some (throttle.handle t) ∧
          throttle.setAt t + throttle.delay t
          = throttle.last (throttle.vars w) + ms ∧
          throttle.last (throttle.vars w) ≠ 0) →
    throttle.timely ms tr w = true →
    ∃ w', throttle.exec ms tr w = Some w' ∧
          throttle.spaced ms (map fst (throttle.applied w'))).
  { clear tr. induction tr as [|e tr IH]; intros w H1 H2 H3 H4 Ht.
    - by exists w.
    - destruct (throttle_timely_step e tr w H1 H2 H3 H4 Ht)
        as (w1 & Hstep & Ht1 & H1' & H2' & H3' & H4').
      cbn [throttle.exec]. rewrite Hstep. by apply IH. }
  intros Ht. apply Hgen; [|done|constructor|by left|exact Ht].
  intros i t1 t2 H. cbn in H. by rewrite lookup_nil in H.
Qed.

End throttle_facts.

Lemma throttle_latest_args_witness :
  let tr := [throttle.Call 100 100 1%nat; throttle.Call 110 110 2%nat] in
  let e := throttle.Fire 1%positive 130 in
  ∃ w w', throttle.exec 30 tr (throttle.init nat) = Some w ∧
          throttle.step 30 e w = Some w' ∧
          throttle.applied w' = throttle.applied w ++ [(130, Some 2%nat)].
Proof.
  cbv zeta. eexists. eexists. split; [reflexivity|]. split; [reflexivity|].
  destruct (throttle_latest_args 30
              [throttle.Call 100 100 1%nat; throttle.Call 110 110 2%nat]
              (throttle.Fire 1%positive 130) _ _ eq_refl eq_refl)
    as [H|(t & args & H & _)].
  - discriminate H.
  - reflexivity.
Defined.

Lemma throttle_call_delivered_witness :
  ∃ w t,
    throttle.exec 30 [throttle.Call 100 100 1%nat; throttle.Call 110 110 2%nat]
      (throttle.init nat) = Some w ∧
    t ∈ throttle.pending w ∧
    throttle.timer (throttle.vars w) = Some (throttle.handle t).
Proof.
  eexists.
  destruct (throttle_call_delivered 30 [throttle.Call 100 100 1%nat]
              110 110 2%nat _ eq_refl) as [[(log & H)|(t & Hin & Ht)] _].
  - vm_compute in H. destruct log as [|x [|y log]]; discriminate H.
  - exists t. split; [reflexivity|]. split; [exact Hin|exact Ht].
Defined.

Lemma throttle_rate_witness :
  ∃ w,
    throttle.exec 30
      [throttle.Call 100 100 1%nat; throttle.Call 110 111 2%nat;
       throttle.Fire 1%positive 131; throttle.Call 170 170 3%nat]
      (throttle.init nat) = Some w ∧
    throttle.spaced 30 (map fst (throttle.applied w)).
Proof. apply throttle_rate. vm_compute. reflexivity. Defined.

(** ** The start of a week and its key, once more *)

(** X28: with a fixed UTC offset, for a valid date [d] the Date
    [startOfWeek(d)] is the latest local midnight that begins a Sunday and
    is not after [d], when that time is in the range of Date, and an
    Invalid Date when it is not: that time is a local midnight, its day
    index is 0, it is at most [d] and less than seven days before [d], and
    it is the only time of which all this holds. *)
Theorem startOfWeek_latest_sunday (tz d : Z) :
  zone.TimeClip d = Some d →
  let s := startOfWeek tz d in
  zone.startOfWeek (zone.fixed tz) d = zone.TimeClip s ∧
  TimeWithinDay (LocalTime tz s) = 0 ∧ getDay tz s = 0 ∧
  s <= d < s + 7 * msPerDay ∧
  ∀ s',
    TimeWithinDay (LocalTime tz s') = 0 → getDay tz s' = 0 →
    s' <= d < s' + 7 * msPerDay → s' = s.
Proof.
  intros Hd. cbv zeta. apply TimeClip_Some in Hd as [_ Hd].
  split; [apply zone_startOfWeek_fixed; lia|].
  split; [|split; [|split]].
  - rewrite LocalTime_startOfWeek. unfold TimeWithinDay.
    apply Z.mod_mul. discriminate.
  - apply WeekDay_startOfWeek.
  - rewrite startOfWeek_eq. unfold LocalTime, WeekDay, Day, msPerDay. zdiv.
  - intros s' Hmid Hsun Hd'. rewrite startOfWeek_eq.
    unfold getDay, LocalTime, WeekDay, TimeWithinDay, Day, msPerDay in *.
    zdiv.
Qed.

(** Wednesday 3 January 2024, one hour east of Greenwich. *)
Lemma startOfWeek_latest_sunday_witness :
  zone.startOfWeek (zone.fixed utcPlus1) 1704240000000 = Some 1703977200000.
Proof.
  destruct (startOfWeek_latest_sunday utcPlus1 1704240000000) as (H & _).
  - vm_compute. reflexivity.
  - rewrite H. vm_compute. reflexivity.
Defined.

(** The date string of a day number. *)
Lemma isoDate_day t : isoDate t = isoDate (Day t * msPerDay).
Proof.
  unfold isoDate. replace (Day (Day t * msPerDay)) with (Day t); [done|].
  unfold Day. symmetry. apply Z.div_mul. discriminate.
Qed.

(** The UTC day of the local midnight of day [k]. *)
Lemma Day_local_midnight k tz :
  (- msPerDay < tz <= 0 → Day (k * msPerDay - tz) = k) ∧
  (0 < tz < msPerDay → Day (k * msPerDay - tz) = k - 1).
Proof. unfold Day, msPerDay. split; intros H; zdiv. Qed.

(** X29: the week key is a UTC date. West of Greenwich or on it, by less
    than a day, it is the date of the Sunday the week begins with; east of
    it, the date of the Saturday before. So the key of a week depends on the
    offset of the time zone. *)
Theorem weekKey_local_date (tz d : Z) :
  0 <= YearFromTime (startOfWeek tz d) <= 9999 →
  let sunday := Day (LocalTime tz (startOfWeek tz d)) in
  (- msPerDay < tz <= 0 → weekKey tz d = isoDate (sunday * msPerDay)) ∧
  (0 < tz < msPerDay → weekKey tz d = isoDate ((sunday - 1) * msPerDay)).
Proof.
  intros Hy. cbv zeta. rewrite (weekKey_isoDate tz d Hy).
  rewrite (isoDate_day (startOfWeek tz d)).
  rewrite (Day_startOfWeek tz d), (startOfWeek_eq tz d).
  generalize (Day (LocalTime tz d) - WeekDay (LocalTime tz d)). intros k.
  destruct (Day_local_midnight k tz) as [Hw He].
  split; intros Htz; [by rewrite Hw|by rewrite He].
Qed.

Lemma weekKey_local_date_witness :
  weekKey utcPlus1 1704240000000 = str "2023-12-30" ∧
  weekKey (- utcPlus1) 1704240000000 = str "2023-12-31".
Proof.
  destruct (weekKey_local_date utcPlus1 1704240000000) as [_ He].
  { vm_compute. split; discriminate. }
  destruct (weekKey_local_date (- utcPlus1) 1704240000000) as [Hw _].
  { vm_compute. split; discriminate. }
  rewrite He by (vm_compute; split; reflexivity).
  rewrite Hw by (vm_compute; split; [reflexivity|discriminate]).
  vm_compute. split; reflexivity.
Defined.

(** ** The dates of the title of the home page *)

(** The digits [decDigits] writes, read back as a number. *)
Lemma decDigits_app fuel n acc :
  decDigits fuel n acc = decDigits fuel n [] ++ acc.
Proof.
  revert n acc. induction fuel as [|f IH]; intros n acc; [done|].
  cbn [decDigits]. destruct (n / 10 =? 0); [done|].
  rewrite (IH _ (digit n :: acc)), (IH _ [digit n]).
  by rewrite <- app_assoc.
Qed.

Lemma decDigits_value fuel n :
  0 <= n < 2 ^ Z.of_nat fuel →
  foldl (λ v c, 10 * v + digitVal c) 0 (decDigits fuel n []) = n ∧
  Forall (λ c, isDigit c = true) (decDigits fuel n []).
Proof.
  revert n. induction fuel as [|f IH]; intros n Hn.
  - cbn in *. split; [lia|constructor].
  - cbn [decDigits]. destruct (Z.eqb_spec (n / 10) 0) as [E|E].
    + cbn. rewrite digitVal_digit. split; [zdiv|].
      constructor; [apply isDigit_digit|constructor].
    + rewrite decDigits_app. rewrite foldl_app. cbn [foldl].
      rewrite digitVal_digit.
      assert (Hq : 0 <= n / 10 < 2 ^ Z.of_nat f).
      { rewrite Nat2Z.inj_succ, Z.pow_succ_r in Hn by lia. zdiv. }
      destruct (IH (n / 10) Hq) as [Hv Hd]. rewrite Hv. split; [zdiv|].
      apply Forall_app. split; [done|].
      constructor; [apply isDigit_digit|constructor].
Qed.

Lemma log2_fuel n :
  0 <= n → 0 <= n < 2 ^ Z.of_nat (S (Z.to_nat (Z.log2 n))).
Proof.
  intros Hn. split; [done|].
  rewrite Nat2Z.inj_succ, Z2Nat.id by apply Z.log2_nonneg.
  destruct (Z.eq_dec n 0) as [->|Hne]; [done|].
  apply Z.log2_spec. lia.
Qed.

(** The digits of a number that is not negative, as [numberKey] asks for
    them. *)
Lemma numberKey_digits n :
  0 <= n →
  foldl (λ v c, 10 * v + digitVal c) 0
    (decDigits (S (Z.to_nat (Z.log2 n))) n []) = n ∧
  Forall (λ c, isDigit c = true) (decDigits (S (Z.to_nat (Z.log2 n))) n []).
Proof. intros Hn. apply decDigits_value. by apply log2_fuel. Qed.

(** [numberKey] writes an integer in digits, after a minus sign when it is
    negative; different integers are written differently. *)
Lemma numberKey_chars n :
  Forall (λ c, isDigit c = true ∨ c = 45%N) (numberKey n) ∧ numberKey n ≠ [].
Proof.
  unfold numberKey. destruct (Z.ltb_spec n 0) as [Hneg|Hpos].
  - split; [|done]. constructor; [by right|].
    destruct (numberKey_digits (- n)) as [_ Hd]; [lia|].
    eapply Forall_impl; [exact Hd|]. intros c Hc. by left.
  - destruct (numberKey_digits n Hpos) as [_ Hd].
    split.
    + eapply Forall_impl; [exact Hd|]. intros c Hc. by left.
    + cbn [decDigits]. destruct (n / 10 =? 0); [done|].
      rewrite decDigits_app. intros H.
      apply app_eq_nil in H as [_ H]. discriminate H.
Qed.

Lemma numberKey_inj a b : numberKey a = numberKey b → a = b.
Proof.
  unfold numberKey.
  destruct (Z.ltb_spec a 0) as [Ha|Ha], (Z.ltb_spec b 0) as [Hb|Hb].
  - destruct (numberKey_digits (- a)) as [Hva _]; [lia|].
    destruct (numberKey_digits (- b)) as [Hvb _]; [lia|].
    set (da := decDigits _ (- a) []) in *.
    set (db := decDigits _ (- b) []) in *.
    intros [= E]. rewrite E in Hva. lia.
  - destruct (numberKey_digits b Hb) as [_ Hd].
    set (db := decDigits _ b []) in *.
    intros E. rewrite <- E in Hd. inversion Hd as [|? ? Hc]. discriminate Hc.
  - destruct (numberKey_digits a Ha) as [_ Hd].
    set (da := decDigits _ a []) in *.
    intros E. rewrite E in Hd. inversion Hd as [|? ? Hc]. discriminate Hc.
  - destruct (numberKey_digits a Ha) as [Hva _].
    destruct (numberKey_digits b Hb) as [Hvb _].
    set (da := decDigits _ a []) in *.
    set (db := decDigits _ b []) in *.
    intros E. rewrite E in Hva. lia.
Qed.

(** Two texts with the same separator after a part without it. *)
Lemma app_sep_inj (x : N) (s t r r' : ustring) :
  x ∉ s → x ∉ t → s ++ x :: r = t ++ x :: r' → s = t ∧ r = r'.
Proof.
  revert t. induction s as [|c s IH]; intros t Hs Ht E.
  - destruct t as [|c' t]; cbn in E.
    + by injection E as ->.
    + injection E as -> _. destruct Ht. by left.
  - destruct t as [|c' t]; cbn in E.
    + injection E as -> _. destruct Hs. by left.
    + injection E as -> E.
      apply not_elem_of_cons in Hs as [_ Hs].
      apply not_elem_of_cons in Ht as [_ Ht].
      destruct (IH t Hs Ht E) as [-> ->]. done.
Qed.

Lemma numberKey_no_slash n : 47%N ∉ numberKey n.
Proof.
  destruct (numberKey_chars n) as [H _]. intros Hin.
  rewrite Forall_forall in H. destruct (H _ Hin) as [Hd|Hd]; discriminate Hd.
Qed.

(** X30: [fmtMDY] writes the month (1 to 12), the day and the year of the
    local calendar day of a date, in digits between slashes, and two dates
    get the same text exactly when they are on the same local calendar
    day. *)
Theorem fmtMDY_same_day (tz d1 d2 : Z) :
  fmtMDY tz d1
  = numberKey (getMonth tz d1 + 1) ++ [47%N] ++ numberKey (getDate tz d1)
      ++ [47%N] ++ numberKey (getFullYear tz d1) ∧
  1 <= getMonth tz d1 + 1 <= 12 ∧ 1 <= getDate tz d1 <= 31 ∧
  (fmtMDY tz d1 = fmtMDY tz d2 ↔
   Day (LocalTime tz d1) = Day (LocalTime tz d2)).
Proof.
  split; [done|].
  pose proof (civilFromDays_spec (Day (LocalTime tz d1))) as H1.
  pose proof (civilFromDays_spec (Day (LocalTime tz d2))) as H2.
  unfold fmtMDY, getMonth, getDate, getFullYear, MonthFromTime, DateFromTime,
    YearFromTime.
  destruct (civilFromDays (Day (LocalTime tz d1))) as [[y1 m1] e1] eqn:E1.
  destruct (civilFromDays (Day (LocalTime tz d2))) as [[y2 m2] e2] eqn:E2.
  cbn [fst snd]. destruct H1 as (Hd1 & Hm1 & He1), H2 as (Hd2 & Hm2 & He2).
  pose proof (DaysInMonth_pos y1 m1) as Hdim.
  split; [lia|]. split; [lia|]. split.
  - intros E. cbn [app] in E.
    apply app_sep_inj in E as [Em E]; [|apply numberKey_no_slash..].
    apply app_sep_inj in E as [Ee Ey]; [|apply numberKey_no_slash..].
    apply numberKey_inj in Em, Ee, Ey.
    rewrite <- Hd1, <- Hd2. f_equal; lia.
  - intros E. rewrite E in E1. rewrite E1 in E2. by injection E2 as -> -> ->.
Qed.
